(** * Shape tracking in a tensor graph: [ShapeFeature] and its rewrites

    A shallow embedding of [aesara/tensor/rewriting/shape.py].

    Python objects with identity ([Variable], [Constant], [Apply]) live in an
    arena and are named by their handle, so that [is] and the default [==]
    of [Variable] are equality of handles.  The three dictionaries of
    [ShapeFeature] are finite maps keyed by handles.  Methods run in a small
    monad that threads the arena, the feature and the emitted warnings, and
    that can raise a Python exception; the state reached when the exception is
    raised is kept, as in Python. *)

From stdpp Require Import gmap strings list.
From Stdlib Require Import ZArith.

Open Scope Z_scope.
Open Scope nat_scope.

(** ** Objects of the graph *)

(** Handles. *)
Definition var := nat.
Definition apply := nat.

(** Entries of [Subtensor.idx_list], and what [get_idx_list] returns once
    the inputs of the node are substituted in. *)
Inductive idx_entry := IdxType | IdxInt (z : Z) | IdxSlice.
Inductive idx_val := IVar (v : var) | IInt (z : Z) | ISlice.

(** The operators the module looks at by class; every other operator is
    [OtherOp].  Python's [==] on operators is structural. *)
Inductive Op :=
| Shape_i (i : Z)
| Shape
| Subtensor (idx_list : list idx_entry)
| Reshape (ndim : nat)
| OtherOp (name : string).

#[global] Instance idx_entry_eq_dec : EqDecision idx_entry.
Proof. solve_decision. Defined.
#[global] Instance Op_eq_dec : EqDecision Op.
Proof. solve_decision. Defined.

(** Types.  [TensorType] stands for the types that are [HasShape]: they
    carry a dtype and a static shape whose entries are a literal size or
    [None]; their [ndim] is the length of the static shape.  Any other type
    may or may not have the attributes [dtype] and [ndim]. *)
Inductive Ty :=
| TensorType (dtype : string) (shape : list (option Z))
| OtherType (dtype : option string) (ndim : option nat).

Definition is_HasShape (t : Ty) : bool :=
  match t with TensorType _ _ => true | OtherType _ _ => false end.

Definition type_ndim (t : Ty) : option nat :=
  match t with
  | TensorType _ sh => Some (length sh)
  | OtherType _ n => n
  end.

Definition type_dtype (t : Ty) : option string :=
  match t with
  | TensorType d _ => Some d
  | OtherType d _ => d
  end.

Definition type_shape (t : Ty) : list (option Z) :=
  match t with
  | TensorType _ sh => sh
  | OtherType _ _ => []
  end.

(** What a variable is: a free input, a [Constant] with its data ([None] is
    the data of [NoneConst]), or an output of its owner node. *)
Inductive Kind :=
| Input
| Constant (data : option Z)
| Output (owner : apply) (index : nat).

Record VarObj := { v_type : Ty; v_kind : Kind }.
Record ApplyObj := { op : Op; inputs : list var; outputs : list var }.

(** The arena. *)
Record Heap := { h_vars : list VarObj; h_nodes : list ApplyObj }.

Definition lookup_var (h : Heap) (v : var) : option VarObj := h_vars h !! v.
Definition lookup_node (h : Heap) (n : apply) : option ApplyObj := h_nodes h !! n.

(** [v.type]; a handle outside the arena names no object and gets a type
    with no attribute. *)
Definition type_of (h : Heap) (v : var) : Ty :=
  match lookup_var h v with
  | Some o => v_type o
  | None => OtherType None None
  end.

(** [v.owner] *)
Definition owner_of (h : Heap) (v : var) : option apply :=
  match lookup_var h v with
  | Some {| v_kind := Output n _ |} => Some n
  | _ => None
  end.

(** [isinstance(v, Constant)] *)
Definition is_Constant (h : Heap) (v : var) : bool :=
  match lookup_var h v with
  | Some {| v_kind := Constant _ |} => true
  | _ => false
  end.

Definition const_data (h : Heap) (v : var) : option Z :=
  match lookup_var h v with
  | Some {| v_kind := Constant d |} => d
  | _ => None
  end.

Definition node_op (h : Heap) (n : apply) : option Op := op <$> lookup_node h n.
Definition node_inputs (h : Heap) (n : apply) : list var :=
  match lookup_node h n with Some a => inputs a | None => [] end.
Definition node_outputs (h : Heap) (n : apply) : list var :=
  match lookup_node h n with Some a => outputs a | None => [] end.

(** [isinstance(getattr(v.owner, "op", None), Shape_i)], with the axis. *)
Definition owner_Shape_i (h : Heap) (v : var) : option (apply * Z) :=
  match owner_of h v with
  | Some n => match node_op h n with
              | Some (Shape_i i) => Some (n, i)
              | _ => None
              end
  | None => None
  end.

Definition alloc_var (o : VarObj) (h : Heap) : var * Heap :=
  (length (h_vars h), {| h_vars := h_vars h ++ [o]; h_nodes := h_nodes h |}).

Definition alloc_node (a : ApplyObj) (h : Heap) : apply * Heap :=
  (length (h_nodes h), {| h_vars := h_vars h; h_nodes := h_nodes h ++ [a] |}).

(** Python indexing of a sequence by an [int]: negative indices count from
    the end; [None] is [IndexError]. *)
Definition py_index {A} (l : list A) (i : Z) : option A :=
  if (0 <=? i)%Z then l !! Z.to_nat i
  else if (- Z.of_nat (length l) <=? i)%Z
       then l !! Z.to_nat (Z.of_nat (length l) + i)
       else None.

(** [t.shape[i] is not None], for a type that is [HasShape]: the literal
    size the static type pins dimension [i] to. *)
Definition pinned (t : Ty) (i : nat) : option Z :=
  match t with
  | TensorType _ sh => mjoin (sh !! i)
  | OtherType _ _ => None
  end.

(** ** The feature, the graph and the monad *)

Record ShapeFeature := {
  shape_of : gmap var (option (list var));
  scheduled : gmap apply var;
  shape_of_reverse_index : gmap var (gset var)
}.

(** A client of a variable: a node, or the graph's output list. *)
Inductive client := CApply (n : apply) | COutput.

(** What the feature reads of the [FunctionGraph]. *)
Record Graph := {
  variables : gset var;
  clients : gmap var (list (client * Z))
}.

Record State := {
  heap : Heap;
  feature : ShapeFeature;
  warnings : list string
}.

Inductive exn :=
| AssertionError (msg : string)
| KeyError
| IndexError
| TypeError
| AttributeError
| ShapeError
| NotImplementedError
| InconsistencyError
| RecursionError
| Exception (msg : string).

Inductive Res (A : Type) := Ok (a : A) | Raise (e : exn).
Arguments Ok {A} a.
Arguments Raise {A} e.

Definition M (A : Type) : Type := State → Res A * State.

Definition ret {A} (a : A) : M A := λ st, (Ok a, st).
Definition raise {A} (e : exn) : M A := λ st, (Raise e, st).
Definition bind {A B} (m : M A) (k : A → M B) : M B :=
  λ st, match m st with
        | (Ok a, st') => k a st'
        | (Raise e, st') => (Raise e, st')
        end.

Declare Scope py_scope.
Delimit Scope py_scope with py.
Notation "x <- m ;; k" := (bind m (λ x, k))
  (at level 100, m at next level, right associativity) : py_scope.
Notation "m ;;; k" := (bind m (λ _, k))
  (at level 100, right associativity) : py_scope.
Open Scope py_scope.

Definition get : M State := λ st, (Ok st, st).
Definition modify_feature (f : ShapeFeature → ShapeFeature) : M unit :=
  λ st, (Ok (), {| heap := heap st; feature := f (feature st);
                   warnings := warnings st |}).
Definition with_heap {A} (f : Heap → A * Heap) : M A :=
  λ st, let '(a, h) := f (heap st) in
        (Ok a, {| heap := h; feature := feature st; warnings := warnings st |}).
Definition warn (msg : string) : M unit :=
  λ st, (Ok (), {| heap := heap st; feature := feature st;
                   warnings := warnings st ++ [msg] |}).

(** The message of an [assert] that gives none. *)
Definition no_message : string := EmptyString.

(** [assert c, msg] *)
Definition assert (c : bool) (msg : string) : M unit :=
  if c then ret () else raise (AssertionError msg).

(** Lifting of a lookup that raises [e] when it finds nothing. *)
Definition or_raise {A} (o : option A) (e : exn) : M A :=
  match o with Some a => ret a | None => raise e end.

Definition lift_res {A} (r : Res A) : M A := λ st, (r, st).

(** [try: m except ...: h e]; the handler answers [None] for the exceptions
    no clause catches. *)
Definition catch {A} (m : M A) (h : exn → option (M A)) : M A :=
  λ st, match m st with
        | (Raise e, st') =>
            match h e with
            | Some k => k st'
            | None => (Raise e, st')
            end
        | r => r
        end.

(** [for x in l: f x], collecting the results. *)
Fixpoint mapM {A B} (f : A → M B) (l : list A) : M (list B) :=
  match l with
  | [] => ret []
  | x :: l' => y <- f x ;; ys <- mapM f l' ;; ret (y :: ys)
  end.

(** [for x in l: f x] *)
Fixpoint forM_ {A} (f : A → M unit) (l : list A) : M unit :=
  match l with
  | [] => ret ()
  | x :: l' => f x ;;; forM_ f l'
  end.

(** ** Collaborators that live outside the module *)

(** An element of a shape returned by an [infer_shape] rule: a number (an
    integral Python or NumPy scalar) or a [Variable]. *)
Inductive shape_elem := ENum (z : Z) | EVar (v : var).

(** What [extract_constant] returns: the value it found, with its dtype, or
    the variable it was given. *)
Inductive extracted := ExNum (dtype : string) (z : Z) | ExVar (v : var).

(** An [Op.infer_shape] method: it reads the graph, may build new variables
    and nodes, which join the arena, and returns one shape per output or
    raises. *)
Definition InferRule : Type :=
  Graph → Heap → apply → list (option (list var)) →
  Res (list (option (list shape_elem))) * (list VarObj * list ApplyObj).

Definition extend (h : Heap) (new : list VarObj * list ApplyObj) : Heap :=
  {| h_vars := h_vars h ++ new.1; h_nodes := h_nodes h ++ new.2 |}.

(** Functions and values imported by [shape.py] from the rest of the
    library and from the configuration. *)
Class Collaborators := {
  (** [aesara.tensor.type.integer_dtypes] *)
  integer_dtypes : list string;
  (** [get_scalar_constant_value]; [None] is [NotScalarConstantError] *)
  get_scalar_constant_value : Heap → idx_val → option Z;
  (** [aesara.tensor.subtensor.get_idx_list] *)
  get_idx_list : list var → list idx_entry → list idx_val;
  (** [extract_constant(x, only_process_constants=b)] *)
  extract_constant : Heap → bool → var → extracted;
  (** [aesara.graph.basic.ancestors] *)
  ancestors : Heap → list var → list var;
  (** [op.infer_shape]; [None] when the operator has no such attribute *)
  infer_shape : Op → option InferRule;
  (** the type [op.make_node] gives to the single output of a call of [op] *)
  output_type : Heap → Op → list var → Res Ty;
  (** [FunctionGraph(outputs=l, clone=True)] rewritten by
      [rewrite_graph(..., custom_rewrite=topo_constant_folding)]: the
      outputs of the canonical graph, which are new objects *)
  rewrite_graph : list var → Heap → list var * Heap;
  (** [equal_computations([dx], [dy])] *)
  equal_computations : Heap → var → var → bool;
  (** [config.on_shape_error] *)
  on_shape_error : string
}.

#[global] Instance Ty_eq_dec : EqDecision Ty.
Proof. solve_decision. Defined.

(** [ShapeFeature.lscalar_one], built once when the class is defined: the
    first object of the arena. *)
Definition lscalar_one : var := 0.

Definition int64_scalar : Ty := TensorType "int64" [].

(** Modelled from the spec: [aesara.tensor.basic.constant] is not among the
    sources at hand.  [constant(z, dtype="int64", ndim=0)] builds a value
    that "carries a literal value": a new [Constant], an [int64] scalar
    whose data is [z]. *)
Definition constant (z : Z) : M var :=
  with_heap (alloc_var {| v_type := int64_scalar; v_kind := Constant (Some z) |}).

(** Modelled from the spec: [TensorConstant.equals] is not among the
    sources at hand.  [a.equals(b)] is the "structural equality" of
    constants, as opposed to their identity: [b] is a constant of the same
    type with the same data. *)
Definition equals (h : Heap) (a b : var) : bool :=
  match lookup_var h a, lookup_var h b with
  | Some {| v_type := ta; v_kind := Constant da |},
    Some {| v_type := tb; v_kind := Constant db |} =>
      bool_decide (ta = tb) && bool_decide (da = db)
  | _, _ => false
  end.

(** [a.equals(x)] when [x] comes out of [extract_constant]: a number is
    first wrapped by [constant(x)], which keeps its dtype. *)
Definition equals_extracted (h : Heap) (a : var) (x : extracted) : bool :=
  match x with
  | ExVar b => equals h a b
  | ExNum d z =>
      match lookup_var h a with
      | Some {| v_type := ta; v_kind := Constant da |} =>
          bool_decide (ta = TensorType d []) && bool_decide (da = Some z)
      | _ => false
      end
  end.

Section ShapeFeature.
Context `{Collaborators}.

(** The test [s_i.owner and isinstance(s_i.owner.op, Subtensor) and
    s_i.owner.inputs[0].owner and isinstance(s_i.owner.inputs[0].owner.op,
    Shape)]: when it holds, the [Subtensor] node, its [idx_list] and the
    [Shape] node. *)
Definition subtensor_of_shape (h : Heap) (s_i : var)
  : Res (option (apply * list idx_entry * apply)) :=
  match owner_of h s_i with
  | Some n =>
      match node_op h n with
      | Some (Subtensor il) =>
          match node_inputs h n with
          | [] => Raise IndexError
          | v0 :: _ =>
              match owner_of h v0 with
              | Some n0 =>
                  match node_op h n0 with
                  | Some Shape => Ok (Some (n, il, n0))
                  | _ => Ok None
                  end
              | None => Ok None
              end
          end
      | _ => Ok None
      end
  | None => Ok None
  end.

(** The last test of [to_symbolic_int]: the dtype is an integer dtype and
    [getattr(s_i.type, "ndim", 0) == 0]. *)
Definition check_integer_scalar (s_i : var) : M var :=
  st <- get ;;
  let t := type_of (heap st) s_i in
  d <- or_raise (type_dtype t) AttributeError ;;
  if bool_decide (d ∈ integer_dtypes) && bool_decide (default 0 (type_ndim t) = 0)
  then ret s_i
  else raise TypeError.

Definition to_symbolic_int (s_i : shape_elem) : M var :=
  match s_i with
  | ENum z =>
      if bool_decide (z = 1%Z) then ret lscalar_one
      else
        assert (bool_decide (0 ≤ z)%Z) no_message ;;;
        constant z
  | EVar v =>
      st <- get ;;
      m <- lift_res (subtensor_of_shape (heap st) v) ;;
      match m with
      | Some (n, il, n0) =>
          ndim <- or_raise (type_ndim (type_of (heap st) v)) AttributeError ;;
          assert (bool_decide (ndim = 0)) no_message ;;;
          assert (bool_decide (length il = 1)) no_message ;;;
          let idx := get_idx_list (node_inputs (heap st) n) il in
          assert (bool_decide (length idx = 1)) no_message ;;;
          i0 <- or_raise (idx !! 0) IndexError ;;
          match get_scalar_constant_value (heap st) i0 with
          | None => ret v
          | Some i =>
              x <- or_raise (node_inputs (heap st) n0 !! 0) IndexError ;;
              o <- or_raise (shape_of (feature st) !! x) KeyError ;;
              s_x <- or_raise o (AssertionError no_message) ;;
              s' <- or_raise (py_index s_x i) IndexError ;;
              check_integer_scalar s'
          end
      | None => check_integer_scalar v
      end
  end.

(** [self.shape_of_reverse_index.setdefault(sv, set()).add(r)] *)
Definition reverse_add (sv r : var) (f : ShapeFeature) : ShapeFeature :=
  {| shape_of := shape_of f;
     scheduled := scheduled f;
     shape_of_reverse_index :=
       <[sv := {[r]} ∪ default ∅ (shape_of_reverse_index f !! sv)]>
         (shape_of_reverse_index f) |}.

(** [self.shape_of[r] = s] *)
Definition shape_of_set (r : var) (s : option (list var)) (f : ShapeFeature)
  : ShapeFeature :=
  {| shape_of := <[r := s]> (shape_of f);
     scheduled := scheduled f;
     shape_of_reverse_index := shape_of_reverse_index f |}.

(** [for sv in shape: self.shape_of_reverse_index.setdefault(sv, set()).add(r)] *)
Definition register_reverse (r : var) (shape : list var) : M unit :=
  forM_ (λ sv, modify_feature (reverse_add sv r)) shape.

(** One turn of the loop of [set_shape] that builds [shape_vars]. *)
Definition set_shape_dim (t : Ty) (s : list shape_elem) (i : nat) : M var :=
  match pinned t i with
  | Some n => constant n
  | None => e <- or_raise (s !! i) IndexError ;; to_symbolic_int e
  end.

(** The assertion on dimensions of static size 1, at index [i];
    [opc] is the flag [only_process_constants]. *)
Definition one_ok (opc : bool) (h : Heap) (t : Ty) (shape_vars : list var)
    (i : nat) : Res bool :=
  if negb (is_HasShape t) then Ok true
  else if negb (bool_decide (type_shape t !! i = Some (Some 1%Z))) then Ok true
  else match shape_vars !! i with
       | None => Raise IndexError
       | Some sv =>
           Ok (equals h lscalar_one sv
               || equals_extracted h lscalar_one (extract_constant h opc sv))
       end.

(** [all(f(i) for i in l)], stopping at the first false or exception. *)
Fixpoint all_res (f : nat → Res bool) (l : list nat) : Res bool :=
  match l with
  | [] => Ok true
  | i :: l' =>
      match f i with
      | Ok true => all_res f l'
      | r => r
      end
  end.

Definition set_shape (r : var) (s : option (list shape_elem)) (override : bool)
  : M unit :=
  st <- get ;;
  (if negb override
   then assert (bool_decide (shape_of (feature st) !! r = None))
               "r already in shape_of"
   else ret ()) ;;;
  match s with
  | None => modify_feature (shape_of_set r None)
  | Some s =>
      let t := type_of (heap st) r in
      ndim <- or_raise (type_ndim t) AttributeError ;;
      if negb (bool_decide (ndim = length s))
      then raise (AssertionError "A shape with the wrong number of dimensions was inferred")
      else
        shape_vars <- mapM (set_shape_dim t s) (seq 0 ndim) ;;
        st' <- get ;;
        ok <- lift_res (all_res (one_ok false (heap st') t shape_vars) (seq 0 ndim)) ;;
        assert ok no_message ;;;
        modify_feature (shape_of_set r (Some shape_vars)) ;;;
        register_reverse r shape_vars
  end.

(** Modelled from the spec: [Shape_i] of [aesara.tensor.shape] is not among
    the sources at hand.  [Shape_i(i)(r)] builds a "dimension accessor", "an
    operation node that extracts one dimension's size from a value": a node
    with the single input [r] and a new [int64] scalar output; the call is
    refused for a variable whose type has no [ndim] or too few dimensions. *)
Definition apply_Shape_i (i : nat) (r : var) : M var :=
  st <- get ;;
  match type_ndim (type_of (heap st) r) with
  | None => raise TypeError
  | Some nd =>
      if bool_decide (nd ≤ i) then raise TypeError
      else
        let n := length (h_nodes (heap st)) in
        let v := length (h_vars (heap st)) in
        with_heap (alloc_node {| op := Shape_i (Z.of_nat i); inputs := [r];
                                 outputs := [v] |}) ;;;
        with_heap (alloc_var {| v_type := int64_scalar; v_kind := Output n 0 |})
  end.

Definition shape_ir (i : nat) (r : var) : M var :=
  st <- get ;;
  let accessor :=
    s <- apply_Shape_i i r ;;
    st' <- get ;;
    match get_scalar_constant_value (heap st') (IVar s) with
    | Some z => constant z
    | None => ret s
    end in
  match type_of (heap st) r with
  | TensorType _ sh =>
      d <- or_raise (sh !! i) IndexError ;;
      match d with
      | Some n => constant n
      | None => accessor
      end
  | OtherType _ _ => accessor
  end.

Definition shape_tuple (r : var) : M (option (list var)) :=
  st <- get ;;
  match type_of (heap st) r with
  | TensorType _ sh =>
      l <- mapM (λ i, shape_ir i r) (seq 0 (length sh)) ;; ret (Some l)
  | OtherType _ _ => ret None
  end.

Definition OutputShapes : Type := list (option (list shape_elem)).

Definition default_infer_shape (node : apply) : M OutputShapes :=
  st <- get ;;
  mapM (λ r, catch (o <- shape_tuple r ;; ret (map EVar <$> o))
                   (λ e, match e with
                         | AttributeError => Some (ret None)
                         | _ => None
                         end))
       (node_outputs (heap st) node).

(** [[self.shape_of[r] for r in node.inputs]]; [None] is [KeyError]. *)
Fixpoint lookup_all (m : gmap var (option (list var))) (l : list var)
  : option (list (option (list var))) :=
  match l with
  | [] => Some []
  | r :: l' =>
      match m !! r, lookup_all m l' with
      | Some s, Some ss => Some (s :: ss)
      | _, _ => None
      end
  end.

Definition input_shapes (st : State) (node : apply)
  : option (list (option (list var))) :=
  lookup_all (shape_of (feature st)) (node_inputs (heap st) node).

Definition run_rule (rule : InferRule) (fg : Graph) (node : apply)
    (i_shapes : list (option (list var))) : M OutputShapes :=
  λ st, let '(r, new) := rule fg (heap st) node i_shapes in
        (r, {| heap := extend (heap st) new; feature := feature st;
               warnings := warnings st |}).

Definition infer_failed : string := "Failed to infer_shape from Op".

Definition get_node_infer_shape (fg : Graph) (node : apply) : M OutputShapes :=
  st <- get ;;
  let shape_infer i_shapes :=
    match node_op (heap st) node ≫= infer_shape with
    | Some rule => run_rule rule fg node i_shapes
    | None => default_infer_shape node
    end in
  (* [[self.shape_of[r] for r in node.inputs]], an argument of each call
     and a part of the report *)
  let i_shapes := st' <- get ;; or_raise (input_shapes st' node) KeyError in
  catch (i <- i_shapes ;; shape_infer i)
        (λ e, match e with
              | ShapeError => Some (i_shapes ;;; default_infer_shape node)
              | NotImplementedError => Some (raise NotImplementedError)
              | _ => Some (
                  i_shapes ;;;
                  if bool_decide (on_shape_error = "raise")
                  then raise (Exception infer_failed)
                  else warn infer_failed ;;;
                       i_shapes ;;; default_infer_shape node)
              end).

(** The entry is the output of a [Shape_i] whose input has left the graph. *)
Definition stale (fg : Graph) (h : Heap) (v : var) : Res bool :=
  match owner_of h v with
  | Some n =>
      match node_op h n with
      | Some (Shape_i _) =>
          match node_inputs h n with
          | x :: _ => Ok (bool_decide (x ∉ variables fg))
          | [] => Raise IndexError
          end
      | _ => Ok false
      end
  | None => Ok false
  end.

(** The inner loop of [get_shape] over the dimensions of one output. *)
Fixpoint refresh_dims (fg : Graph) (new_shps : option (list shape_elem))
    (dims : list nat) (merged : list shape_elem) (changed : bool)
  : M (list shape_elem * bool) :=
  match dims with
  | [] => ret (merged, changed)
  | i :: dims' =>
      n_r <- or_raise (merged !! i) IndexError ;;
      st <- get ;;
      b <- match n_r with
           | EVar v => lift_res (stale fg (heap st) v)
           | ENum _ => raise AttributeError
           end ;;
      if b : bool then
        new <- or_raise new_shps (AssertionError no_message) ;;
        e <- or_raise (new !! i) IndexError ;;
        refresh_dims fg new_shps dims' (<[i := e]> merged) true
      else refresh_dims fg new_shps dims' merged changed
  end.

Definition refresh_output (fg : Graph) (p : option (list shape_elem) * var)
  : M unit :=
  let '(new_shps, out) := p in
  st <- get ;;
  match type_of (heap st) out with
  | OtherType _ _ => ret ()
  | TensorType _ sh =>
      o <- or_raise (shape_of (feature st) !! out) KeyError ;;
      out_shape <- or_raise o (AssertionError no_message) ;;
      mc <- refresh_dims fg new_shps (seq 0 (length sh))
                         (EVar <$> out_shape) false ;;
      if mc.2 : bool then set_shape out (Some mc.1) true else ret ()
  end.

(** [self.shape_of[var][idx]], with the assertion between the two lookups. *)
Definition lookup_dim (v : var) (idx : Z) : M var :=
  st <- get ;;
  o <- or_raise (shape_of (feature st) !! v) KeyError ;;
  var_shape <- or_raise o (AssertionError no_message) ;;
  or_raise (py_index var_shape idx) IndexError.

(** [get_shape]; the recursion on the inputs of the owner is bounded by the
    interpreter's recursion limit, here [fuel]. *)
Fixpoint get_shape (fuel : nat) (fg : Graph) (v : var) (idx : Z) : M var :=
  match fuel with
  | 0 => raise RecursionError
  | S fuel' =>
      var_idx_shape <- lookup_dim v idx ;;
      st <- get ;;
      b <- lift_res (stale fg (heap st) var_idx_shape) ;;
      if b : bool then
        node <- or_raise (owner_of (heap st) v) (AssertionError no_message) ;;
        forM_ (λ i, st_i <- get ;;
                    if is_HasShape (type_of (heap st_i) i)
                    then get_shape fuel' fg i 0 ;;; ret ()
                    else ret ())
              (node_inputs (heap st) node) ;;;
        o_shapes <- get_node_infer_shape fg node ;;
        st' <- get ;;
        let outs := node_outputs (heap st') node in
        assert (bool_decide (length o_shapes = length outs)) no_message ;;;
        forM_ (refresh_output fg) (zip o_shapes outs) ;;;
        lookup_dim v idx
      else ret var_idx_shape
  end.

(** *** [update_shape] *)

(** The first test of the merge loop: the candidate [ps] is the output of
    [Shape_i(i)] applied to [r] or to [other_r]. *)
Definition uninformative (h : Heap) (r other_r : var) (i : nat) (ps : var)
  : Res bool :=
  match owner_Shape_i h ps with
  | Some (n, k) =>
      if bool_decide (k = Z.of_nat i) then
        match node_inputs h n with
        | x :: _ => Ok (bool_decide (x = r) || bool_decide (x = other_r))
        | [] => Raise IndexError
        end
      else Ok false
  | None => Ok false
  end.

(** One turn of the merge loop, for dimension [i] and candidate [ps]. *)
Definition merge_dim (h : Heap) (r other_r : var) (r_shape : option (list var))
    (i : nat) (ps : var) : Res var :=
  match r_shape with
  | None => Ok ps
  | Some r_shape =>
      match r_shape !! i with
      | None => Raise IndexError
      | Some rs =>
          match uninformative h r other_r i ps with
          | Raise e => Raise e
          | Ok true => Ok rs
          | Ok false =>
              if is_Constant h rs then Ok rs
              else if is_Constant h ps then Ok ps
              else if bool_decide (ps = rs) then Ok rs
              else if bool_decide (rs ∈ ancestors h [ps]) then Ok rs
              else Ok ps
          end
      end
  end.

(** [for i, ps in enumerate(other_shape)], from index [i] on. *)
Fixpoint merge_from (h : Heap) (r other_r : var) (r_shape : option (list var))
    (i : nat) (other_shape : list var) : Res (list var) :=
  match other_shape with
  | [] => Ok []
  | ps :: rest =>
      match merge_dim h r other_r r_shape i ps with
      | Raise e => Raise e
      | Ok m =>
          match merge_from h r other_r r_shape (S i) rest with
          | Raise e => Raise e
          | Ok ms => Ok (m :: ms)
          end
      end
  end.

(** The assertion that closes [update_shape], at index [i]. *)
Definition merged_one_ok (h : Heap) (r other_r : var) (merged : list var)
    (i : nat) : Res bool :=
  let check :=
    match merged !! i with
    | None => Raise IndexError
    | Some sv =>
        Ok (equals h lscalar_one sv
            || equals_extracted h lscalar_one (extract_constant h true sv))
    end in
  match type_of h r with
  | OtherType _ _ => Ok true
  | TensorType _ sh =>
      if bool_decide (sh !! i = Some (Some 1%Z)) then check
      else
        match type_of h other_r with
        | OtherType _ _ => Raise AttributeError
        | TensorType _ osh =>
            match osh !! i with
            | None => Raise IndexError
            | Some d => if bool_decide (d = Some 1%Z) then check else Ok true
            end
        end
  end.

(** [other_r.owner and r.owner and other_r.owner.inputs == r.owner.inputs
    and other_r.owner.op == r.owner.op] *)
Definition same_application (h : Heap) (r other_r : var) : bool :=
  match owner_of h other_r, owner_of h r with
  | Some n', Some n =>
      bool_decide (node_inputs h n' = node_inputs h n)
      && bool_decide (node_op h n' = node_op h n)
  | _, _ => false
  end.

Definition update_shape (r other_r : var) : M unit :=
  st <- get ;;
  match shape_of (feature st) !! other_r with
  | None => raise (AssertionError "other_r not in shape_of")
  | Some None => ret ()
  | Some (Some other_shape) =>
      match shape_of (feature st) !! r with
      | None => set_shape r (Some (EVar <$> other_shape)) false
      | Some r_shape =>
          if same_application (heap st) r other_r then ret ()
          else
            merged <- lift_res (merge_from (heap st) r other_r r_shape 0 other_shape) ;;
            ndim <- or_raise (type_ndim (type_of (heap st) r)) AttributeError ;;
            ok <- lift_res (all_res (merged_one_ok (heap st) r other_r merged)
                                    (seq 0 ndim)) ;;
            assert ok no_message ;;;
            modify_feature (shape_of_set r (Some merged)) ;;;
            register_reverse r merged
      end
  end.

(** *** [set_shape_i], [init_r] *)

(** [for j, s_j in enumerate(prev_shape)], from index [j] on. *)
Fixpoint replace_dim (i : Z) (s_i : shape_elem) (j : nat) (prev : list var)
  : M (list var) :=
  match prev with
  | [] => ret []
  | s_j :: rest =>
      x <- (if bool_decide (Z.of_nat j = i) then to_symbolic_int s_i else ret s_j) ;;
      xs <- replace_dim i s_i (S j) rest ;;
      ret (x :: xs)
  end.

Definition set_shape_i (r : var) (i : Z) (s_i : shape_elem) : M unit :=
  st <- get ;;
  o <- or_raise (shape_of (feature st) !! r) KeyError ;;
  prev_shape <- or_raise o (AssertionError no_message) ;;
  new_shape <- replace_dim i s_i 0 prev_shape ;;
  st' <- get ;;
  let t := type_of (heap st') r in
  ndim <- or_raise (type_ndim t) AttributeError ;;
  ok <- lift_res (all_res (one_ok false (heap st') t new_shape) (seq 0 ndim)) ;;
  assert ok no_message ;;;
  modify_feature (shape_of_set r (Some new_shape)) ;;;
  register_reverse r new_shape.

Definition init_r (r : var) : M unit :=
  st <- get ;;
  match shape_of (feature st) !! r with
  | Some _ => ret ()
  | None =>
      s <- shape_tuple r ;;
      set_shape r (map EVar <$> s) false
  end.

(** *** [on_change_input] *)

(** The second test that skips a client: [repl] is the output of a
    [Shape_i] with the axis [idx] on the very input of [shpnode]. *)
Definition equivalent_accessor (h : Heap) (shpnode : apply) (idx : Z)
    (repl : var) : Res bool :=
  match owner_of h repl with
  | None => Ok false
  | Some n =>
      match node_inputs h n, node_inputs h shpnode with
      | [], _ | _, [] => Raise IndexError
      | x :: _, y :: _ =>
          Ok (bool_decide (x = y)
              && bool_decide (node_op h n = Some (Shape_i idx)))
      end
  end.

(** [self.scheduled[shpnode] = new_r] *)
Definition schedule (shpnode : apply) (new_r : var) (f : ShapeFeature)
  : ShapeFeature :=
  {| shape_of := shape_of f;
     scheduled := <[shpnode := new_r]> (scheduled f);
     shape_of_reverse_index := shape_of_reverse_index f |}.

(** One turn of the loop over [fgraph.clients[r] + [(node, i)]]. *)
Definition schedule_client (new_r : var) (c : client * Z) : M unit :=
  st <- get ;;
  let h := heap st in
  match c.1 with
  | COutput => ret ()
  | CApply shpnode =>
      match node_op h shpnode with
      | Some (Shape_i idx) =>
          o <- or_raise (shape_of (feature st) !! new_r) KeyError ;;
          sh <- or_raise o TypeError ;;
          repl <- or_raise (py_index sh idx) IndexError ;;
          if bool_decide (owner_of h repl = Some shpnode) then ret ()
          else
            same <- lift_res (equivalent_accessor h shpnode idx repl) ;;
            if same : bool then ret ()
            else
              out <- or_raise (node_outputs h shpnode !! 0) IndexError ;;
              if bool_decide (out ∈ ancestors h [repl])
              then raise InconsistencyError
              else modify_feature (schedule shpnode new_r)
      | _ => ret ()
      end
  end.

(** [for k in [k for k, v in self.scheduled.items() if v == r]:
    del self.scheduled[k]] *)
Definition unschedule (r : var) (f : ShapeFeature) : ShapeFeature :=
  {| shape_of := shape_of f;
     scheduled := filter (λ kv, kv.2 ≠ r) (scheduled f);
     shape_of_reverse_index := shape_of_reverse_index f |}.

(** [self.shape_of_reverse_index[r] = set()] *)
Definition reverse_clear (r : var) (f : ShapeFeature) : ShapeFeature :=
  {| shape_of := shape_of f;
     scheduled := scheduled f;
     shape_of_reverse_index := <[r := ∅]> (shape_of_reverse_index f) |}.

(** [for ii, svi in enumerate(shape): if svi == r: self.set_shape_i(v, ii,
    new_r)], from index [ii] on; [shape] is the tuple found when the loop
    starts. *)
Fixpoint repoint_dims (r new_r v : var) (ii : nat) (shape : list var) : M unit :=
  match shape with
  | [] => ret ()
  | svi :: rest =>
      (if bool_decide (svi = r)
       then set_shape_i v (Z.of_nat ii) (EVar new_r) else ret ()) ;;;
      repoint_dims r new_r v (S ii) rest
  end.

(** The body of the loop over the reverse index; [self.shape_of.get(v, [])]
    is [None] for a variable of unknown shape, which [enumerate] refuses. *)
Definition repoint (r new_r v : var) : M unit :=
  st <- get ;;
  match shape_of (feature st) !! v with
  | None => ret ()
  | Some None => raise TypeError
  | Some (Some shape) => repoint_dims r new_r v 0 shape
  end.

Definition on_change_input (fg : Graph) (node : apply) (i : Z) (r new_r : var)
  : M unit :=
  init_r new_r ;;;
  update_shape new_r r ;;;
  cl <- or_raise (clients fg !! r) KeyError ;;
  forM_ (schedule_client new_r) (cl ++ [(CApply node, i)]) ;;;
  modify_feature (unschedule r) ;;;
  st <- get ;;
  forM_ (repoint r new_r)
        (elements (default ∅ (shape_of_reverse_index (feature st) !! r))) ;;;
  modify_feature (reverse_clear r).

(** *** [same_shape] *)

(** [sx = (sx[dim],)] when [dim] is not [None]. *)
Definition restrict_dim (s : list var) (dim : option Z) : M (list var) :=
  match dim with
  | None => ret s
  | Some d => x <- or_raise (py_index s d) IndexError ;; ret [x]
  end.

Definition same_shape (x y : var) (dim_x dim_y : option Z) : M bool :=
  st <- get ;;
  sx <- or_raise (shape_of (feature st) !! x) KeyError ;;
  sy <- or_raise (shape_of (feature st) !! y) KeyError ;;
  match sx, sy with
  | Some sx, Some sy =>
      sx <- restrict_dim sx dim_x ;;
      sy <- restrict_dim sy dim_y ;;
      if negb (bool_decide (length sx = length sy)) then ret false
      else
        canon_shapes <- with_heap (rewrite_graph (sx ++ sy)) ;;
        st' <- get ;;
        let sx_ := take (length sx) canon_shapes in
        let sy_ := drop (length sx) canon_shapes in
        ret (forallb (λ d, equal_computations (heap st') d.1 d.2) (zip sx_ sy_))
  | _, _ => ret false
  end.

End ShapeFeature.

(** ** Rewrites *)

(** What a node rewriter returns: [False] or [None] when it declines, or the
    list of replacements of the outputs. *)
Inductive rewrite_result := Decline | Replace (new_outputs : list var).

(** The [FunctionGraph] a rewriter receives; [fgraph.shape_feature] is
    missing when no [ShapeFeature] is attached. *)
Record FunctionGraph := {
  graph : Graph;
  shape_feature : option ShapeFeature
}.

Section Rewrites.
Context `{Collaborators}.

(** Modelled from the spec: [check_chain(node, op, op)] of
    [aesara.graph.rewriting.basic], which is not in the sources at hand; it
    recognises a node "of the form [reshape(reshape(x, s1), s2)]": the first
    output of [node] is owned by an [op], and so is the first input of that
    owner. *)
Definition check_chain (is_op : Op → bool) (h : Heap) (node : apply) : Res bool :=
  match node_outputs h node !! 0 with
  | None => Raise IndexError
  | Some r =>
      match owner_of h r with
      | None => Ok false
      | Some n1 =>
          if negb (from_option is_op false (node_op h n1)) then Ok false
          else
            match node_inputs h n1 !! 0 with
            | None => Raise IndexError
            | Some r1 =>
                match owner_of h r1 with
                | None => Ok false
                | Some n2 =>
                    if negb (from_option is_op false (node_op h n2)) then Ok false
                    else
                      match node_inputs h n2 !! 0 with
                      | None => Raise IndexError
                      | Some _ => Ok true
                      end
                end
            end
      end
  end.

(** Modelled from the spec: [Op.__call__] is not among the sources at hand.
    A call of the operator [o] on [args], for an operator with one output,
    "means constructing a new node": an operator tag, the ordered inputs
    [args] and one new output, whose type [make_node] computes. *)
Definition call_op (o : Op) (args : list var) (h : Heap) : Res var * Heap :=
  match output_type h o args with
  | Raise e => (Raise e, h)
  | Ok t =>
      let n := length (h_nodes h) in
      let v := length (h_vars h) in
      let h1 := (alloc_node {| op := o; inputs := args; outputs := [v] |} h).2 in
      let h2 := (alloc_var {| v_type := t; v_kind := Output n 0 |} h1).2 in
      (Ok v, h2)
  end.

(** [all(s1 == s1 for s1, s2 in zip(a, b) if s1 == 1 or s2 == 1)] *)
Definition ones_agree (a b : list (option Z)) : bool :=
  forallb (λ p : option Z * option Z, bool_decide (p.1 = p.1))
          (filter (λ p : option Z * option Z, p.1 = Some 1%Z ∨ p.2 = Some 1%Z)
                  (zip a b)).

(** [t.shape]; only the types that are [HasShape] have the attribute. *)
Definition shape_attr (t : Ty) : Res (list (option Z)) :=
  match t with
  | TensorType _ sh => Ok sh
  | OtherType _ _ => Raise AttributeError
  end.

Definition ndim_attr (t : Ty) : Res nat :=
  match type_ndim t with Some n => Ok n | None => Raise AttributeError end.

Definition and_then {A B} (r : Res A) (k : A → Res B) : Res B :=
  match r with Ok a => k a | Raise e => Raise e end.

(** The operator and the arguments of the fused call:
    [node.op], [node.inputs[0].owner.inputs[0]] and [node.inputs[1]]. *)
Definition chain_args (h : Heap) (node : apply) : Res (Op * (var * var)) :=
  match node_op h node, node_inputs h node with
  | Some o, r1 :: s2 :: _ =>
      match owner_of h r1 with
      | None => Raise AttributeError
      | Some n =>
          match node_inputs h n with
          | x :: _ => Ok (o, (x, s2))
          | [] => Raise IndexError
          end
      end
  | Some _, _ => Raise IndexError
  | None, _ => Raise AttributeError
  end.

(** The test that guards the replacement: [rval.type.ndim ==
    node.outputs[0].type.ndim and all(...)]. *)
Definition chain_guard (t_rval t_out : Ty) : Res bool :=
  and_then (ndim_attr t_rval) (λ n1,
  and_then (ndim_attr t_out) (λ n2,
  if negb (bool_decide (n1 = n2)) then Ok false
  else
    and_then (shape_attr t_rval) (λ sh1,
    and_then (shape_attr t_out) (λ sh2,
    Ok (ones_agree sh1 sh2))))).

(** The rewriter [f] built by [local_reshape_chain(op)]; [is_op] is the test
    [isinstance(_, op)]. *)
Definition local_reshape_chain (is_op : Op → bool) (fgraph : FunctionGraph)
    (node : apply) (h : Heap) : Res rewrite_result * Heap :=
  match check_chain is_op h node with
  | Raise e => (Raise e, h)
  | Ok false => (Ok Decline, h)
  | Ok true =>
      match chain_args h node with
      | Raise e => (Raise e, h)
      | Ok (o, (x, s2)) =>
          match call_op o [x; s2] h with
          | (Raise e, h') => (Raise e, h')
          | (Ok rval, h') =>
              match node_outputs h' node with
              | [] => (Raise IndexError, h')
              | out :: _ =>
                  match chain_guard (type_of h' rval) (type_of h' out) with
                  | Raise e => (Raise e, h')
                  | Ok true => (Ok (Replace [rval]), h')
                  | Ok false => (Ok Decline, h')
                  end
              end
          end
      end
  end.

Definition is_Reshape (o : Op) : bool :=
  match o with Reshape _ => true | _ => false end.

(** [shape_feature.shape_of[replacement][i]]; subscripting [None] is a
    [TypeError]. *)
Definition shape_component (f : ShapeFeature) (replacement : var) (i : Z)
  : Res var :=
  match shape_of f !! replacement with
  | None => Raise KeyError
  | Some None => Raise TypeError
  | Some (Some sh) =>
      match py_index sh i with
      | Some s => Ok s
      | None => Raise IndexError
      end
  end.

(** [local_track_shape_i]; the graph is returned as the rewriter leaves it. *)
Definition local_track_shape_i (fgraph : FunctionGraph) (node : apply) (h : Heap)
  : Res rewrite_result * FunctionGraph :=
  match node_op h node with
  | Some (Shape_i i) =>
      match shape_feature fgraph with
      | None => (Ok Decline, fgraph)
      | Some shape_feature =>
          match scheduled shape_feature !! node with
          | None => (Ok Decline, fgraph)
          | Some replacement =>
              match shape_component shape_feature replacement i with
              | Ok s => (Ok (Replace [s]), fgraph)
              | Raise e => (Raise e, fgraph)
              end
          end
      end
  | _ => (Ok Decline, fgraph)
  end.

End Rewrites.

(** ** Invariants of the arena and of the index *)

(** The arena only grows: what it holds stays where it is. *)
Definition heap_le (h h' : Heap) : Prop :=
  h_vars h `prefix_of` h_vars h' ∧ h_nodes h `prefix_of` h_nodes h'.

(** A step that only builds new objects. *)
Definition grows (st st' : State) : Prop :=
  heap_le (heap st) (heap st')
  ∧ feature st' = feature st ∧ warnings st' = warnings st.

(** A computation that, whatever it does, only builds new objects. *)
Definition Grows {A} (m : M A) : Prop :=
  ∀ st r st', m st = (r, st') → grows st st'.

(** [c] is an [int64] scalar constant of value [n]. *)
Definition literal (h : Heap) (c : var) (n : Z) : Prop :=
  lookup_var h c = Some {| v_type := int64_scalar; v_kind := Constant (Some n) |}.

(** What one turn of the loop of [set_shape] leaves at dimension [i]: the
    literal of the static type when there is one, and otherwise the
    singleton when the inferred size is the number 1. *)
Definition dim_recorded (t : Ty) (s : list shape_elem) (i : nat) (c : var)
    (h : Heap) : Prop :=
  (∀ n, pinned t i = Some n → literal h c n)
  ∧ (pinned t i = None → s !! i = Some (ENum 1) → c = lscalar_one).

(** The keys of [shape_of] are objects of the arena. *)
Definition tracked_live (st : State) : Prop :=
  ∀ v, is_Some (shape_of (feature st) !! v) → is_Some (lookup_var (heap st) v).

(** Where the static type of a tracked variable gives a literal size, the
    tuple holds that literal. *)
Definition pinned_dims_are_literal (st : State) : Prop :=
  ∀ v sh i n,
    shape_of (feature st) !! v = Some (Some sh) →
    pinned (type_of (heap st) v) i = Some n →
    ∃ c, sh !! i = Some c ∧ literal (heap st) c n.

Definition shape_index_ok (st : State) : Prop :=
  tracked_live st ∧ pinned_dims_are_literal st.

(** Every [Shape_i] node has the input it measures. *)
Definition accessors_have_an_input (h : Heap) : Prop :=
  ∀ n i, node_op h n = Some (Shape_i i) → node_inputs h n ≠ [].

(** ** The merge policy of [update_shape], in the words of the specification *)

Section MergePolicy.
Context `{Collaborators}.

(** The candidate [ps] is merely "the size of this same dimension of
    [value] or [other_value]". *)
Definition same_dimension_accessor (h : Heap) (r other_r : var) (i : nat)
    (ps : var) : Prop :=
  ∃ n x rest,
    owner_of h ps = Some n
    ∧ node_op h n = Some (Shape_i (Z.of_nat i))
    ∧ node_inputs h n = x :: rest
    ∧ (x = r ∨ x = other_r).

(** For one dimension, with [rs] the existing entry of [value] and [ps] the
    candidate from [other_value]: the five preferences, in order. *)
Inductive preferred (h : Heap) (r other_r : var) (i : nat) (rs ps : var)
  : var → Prop :=
| existing_over_accessor :
    same_dimension_accessor h r other_r i ps →
    preferred h r other_r i rs ps rs
| constant_over_symbolic (m : var) :
    ¬ same_dimension_accessor h r other_r i ps →
    m = rs ∨ m = ps →
    is_Constant h m = true →
    preferred h r other_r i rs ps m
| either_when_identical :
    ¬ same_dimension_accessor h r other_r i ps →
    is_Constant h rs = false → is_Constant h ps = false →
    ps = rs →
    preferred h r other_r i rs ps rs
| existing_over_dependent :
    ¬ same_dimension_accessor h r other_r i ps →
    is_Constant h rs = false → is_Constant h ps = false →
    ps ≠ rs →
    rs ∈ ancestors h [ps] →
    preferred h r other_r i rs ps rs
| candidate_otherwise :
    ¬ same_dimension_accessor h r other_r i ps →
    is_Constant h rs = false → is_Constant h ps = false →
    ps ≠ rs →
    rs ∉ ancestors h [ps] →
    preferred h r other_r i rs ps ps.

End MergePolicy.



(** ** The graph around an accessor *)

Section Accessors.
Context `{Collaborators}.





End Accessors.

(** ** The claims that the code does not meet, as they are worded *)

(** One update of the index by a method of the feature that writes
    [shape_of]. *)
Inductive index_update `{Collaborators} (st : State) : State → Prop :=
| by_set_shape (r : var) (s : option (list shape_elem)) (override : bool)
    (st' : State) :
    set_shape r s override st = (Ok (), st') → index_update st st'
| by_set_shape_i (r : var) (i : Z) (s_i : shape_elem) (st' : State) :
    set_shape_i r i s_i st = (Ok (), st') → index_update st st'
| by_update_shape (r other_r : var) (st' : State) :
    update_shape r other_r st = (Ok (), st') → index_update st st'.

(** C1 as worded, for the part that fails: [get_shape(v, i)] always yields
    the literal [n], here after one update of an index in which every tuple
    holds the literals of the static types. *)
Definition get_shape_always_yields_the_literal : Prop :=
  ∀ (C : Collaborators) (fg : Graph) (st st' : State) (v : var) (i : nat)
    (n : Z) (fuel : nat),
    shape_index_ok st →
    index_update st st' →
    is_Some (shape_of (feature st') !! v) →
    pinned (type_of (heap st') v) i = Some n →
    ∃ c st'', get_shape (S fuel) fg v (Z.of_nat i) st' = (Ok c, st'')
              ∧ literal (heap st'') c n.

#[global] Instance exn_eq_dec : EqDecision exn.
Proof. solve_decision. Defined.

(** The state an [infer_shape] rule hands over when it has built the objects
    [new]. *)
Definition after_rule (st : State) (new : list VarObj * list ApplyObj)
  : State :=
  {| heap := extend (heap st) new; feature := feature st;
     warnings := warnings st |}.

(** C5 as worded: [ShapeError] goes to the fallback; any other error is
    re-raised under the policy ["raise"] and otherwise becomes a warning
    followed by the fallback. *)
Definition any_other_error_follows_the_policy : Prop :=
  ∀ (C : Collaborators) (fg : Graph) (node : apply) (st : State) (o : Op)
    (rule : InferRule) (i_shapes : list (option (list var))) (e : exn)
    (new : list VarObj * list ApplyObj),
    node_op (heap st) node = Some o →
    infer_shape o = Some rule →
    input_shapes st node = Some i_shapes →
    rule fg (heap st) node i_shapes = (Raise e, new) →
    if decide (e = ShapeError)
    then get_node_infer_shape fg node st
         = default_infer_shape node (after_rule st new)
    else if decide (on_shape_error = "raise")
    then ∃ e', get_node_infer_shape fg node st = (Raise e', after_rule st new)
    else get_node_infer_shape fg node st
         = (warn infer_failed ;;; default_infer_shape node) (after_rule st new).

(** What the comparison of [same_shape] needs of the canonical graph: a
    variable listed twice among the outputs has one canonical output. *)
Definition canonical_outputs_agree `{Collaborators} : Prop :=
  ∀ (l : list var) (h : Heap) (i j : nat),
    is_Some (l !! i) → l !! i = l !! j →
    (rewrite_graph l h).1 !! i = (rewrite_graph l h).1 !! j.

(** C6 as worded, for a value the index holds: a value always has the shape
    it has; unknown shapes and different ranks answer false. *)
Definition same_shape_of_a_value_with_itself : Prop :=
  ∀ (C : Collaborators) (st : State) (x : var),
    canonical_outputs_agree →
    (∀ h v, equal_computations h v v = true) →
    is_Some (shape_of (feature st) !! x) →
    (same_shape x x None None st).1 = Ok true.

(** C4 as worded, for the part that fails: on a chain of two reshapes the
    rewriter declines as soon as the static shape of the fused value differs
    from the static shape of the output at a dimension where the latter is a
    literal. *)
Definition reshape_chain_declines_on_any_literal : Prop :=
  ∀ (C : Collaborators) (fgraph : FunctionGraph) (node : apply) (h h' : Heap)
    (o : Op) (x s2 out rval : var) (i : nat) (n : Z),
    check_chain is_Reshape h node = Ok true →
    chain_args h node = Ok (o, (x, s2)) →
    call_op o [x; s2] h = (Ok rval, h') →
    node_outputs h node !! 0 = Some out →
    type_shape (type_of h' out) !! i = Some (Some n) →
    type_shape (type_of h' rval) !! i ≠ Some (Some n) →
    (local_reshape_chain is_Reshape fgraph node h).1 = Ok Decline.

(** C9 as worded: an entry that [set_shape] stores and that is equal to the
    literal 1 is the singleton itself. *)
Definition every_stored_one_is_the_singleton : Prop :=
  ∀ (C : Collaborators) (st st' : State) (r : var) (l : list shape_elem)
    (override : bool) (sh : list var) (i : nat) (e : var),
    literal (heap st) lscalar_one 1 →
    set_shape r (Some l) override st = (Ok (), st') →
    shape_of (feature st') !! r = Some (Some sh) →
    sh !! i = Some e →
    equals (heap st') lscalar_one e = true →
    e = lscalar_one.

(** ** A concrete set of collaborators, for the examples *)

Module Demo.

(** [aesara.graph.basic.ancestors] walks from the given variables through
    [owner.inputs] and yields every variable it meets, the given ones
    included. *)
Fixpoint walk (fuel : nat) (h : Heap) (v : var) : list var :=
  v :: match fuel with
       | 0 => []
       | S fuel' =>
           match owner_of h v with
           | Some n => concat (map (walk fuel' h) (node_inputs h n))
           | None => []
           end
       end.

Definition graph_ancestors (h : Heap) (graphs : list var) : list var :=
  concat (map (walk (length (h_vars h)) h) graphs).

(** The index of a [Subtensor]: the scalar inputs fill the placeholders of
    the [idx_list] in order. *)
Fixpoint fill_idx_list (indices : list var) (idx_list : list idx_entry)
  : list idx_val :=
  match idx_list with
  | [] => []
  | IdxInt z :: rest => IInt z :: fill_idx_list indices rest
  | IdxSlice :: rest => ISlice :: fill_idx_list indices rest
  | IdxType :: rest =>
      match indices with
      | v :: indices' => IVar v :: fill_idx_list indices' rest
      | [] => ISlice :: fill_idx_list [] rest
      end
  end.

Definition scalar_value (h : Heap) (x : idx_val) : option Z :=
  match x with
  | IInt z => Some z
  | IVar v => const_data h v
  | ISlice => None
  end.

Definition extract (h : Heap) (opc : bool) (v : var) : extracted :=
  match const_data h v, type_dtype (type_of h v) with
  | Some z, Some d => ExNum d z
  | _, _ => ExVar v
  end.

(** Three operators with an [infer_shape] that raises, one whose rule
    answers a number for its single output; the others have no rule. *)
Definition rules (o : Op) : option InferRule :=
  match o with
  | OtherOp "cannot" => Some (λ _ _ _ _, (Raise ShapeError, ([], [])))
  | OtherOp "old_style" => Some (λ _ _ _ _, (Raise NotImplementedError, ([], [])))
  | OtherOp "broken" => Some (λ _ _ _ _, (Raise TypeError, ([], [])))
  | OtherOp "seven" => Some (λ _ _ _ _, (Ok [Some [ENum 7]], ([], [])))
  | _ => None
  end.

(** [Reshape.make_node] reads the static shape off a constant target; here
    the target is not looked at: rank [ndim], no literal size, except for
    the two operators the examples use to get a given static shape. *)
Definition out_type (h : Heap) (o : Op) (args : list var) : Res Ty :=
  match o with
  | Reshape 1 => Ok (TensorType "float64" [Some 3%Z])
  | Reshape n => Ok (TensorType "float64" (replicate n None))
  | Shape_i _ => Ok int64_scalar
  | _ => Raise TypeError
  end.

Definition collaborators (policy : string) : Collaborators := {|
  integer_dtypes := ["int8"; "int16"; "int32"; "int64";
                     "uint8"; "uint16"; "uint32"; "uint64"];
  get_scalar_constant_value := scalar_value;
  get_idx_list := λ ins il, fill_idx_list (tail ins) il;
  extract_constant := extract;
  ancestors := graph_ancestors;
  infer_shape := rules;
  output_type := out_type;
  rewrite_graph := λ l h, (l, h);
  equal_computations := λ h a b, bool_decide (a = b) || equals h a b;
  on_shape_error := policy
|}.

Definition one : VarObj :=
  {| v_type := int64_scalar; v_kind := Constant (Some 1%Z) |}.

Definition no_feature : ShapeFeature :=
  {| shape_of := ∅; scheduled := ∅; shape_of_reverse_index := ∅ |}.

Definition no_graph : Graph := {| variables := ∅; clients := ∅ |}.

Definition state_of (h : Heap) (f : ShapeFeature) : State :=
  {| heap := h; feature := f; warnings := [] |}.

(** An arena with [lscalar_one], a vector [1] and a node [0] that applies
    the operator [o] to nothing and owns [1]. *)
Definition heap_with (o : Op) : Heap :=
  {| h_vars := [one;
                {| v_type := TensorType "float64" [None];
                   v_kind := Output 0 0 |}];
     h_nodes := [{| op := o; inputs := []; outputs := [1] |}] |}.

(** A feature that holds [NoneConst], variable [1] of the arena, whose shape
    is unknown. *)
Definition heap_NoneConst : Heap :=
  {| h_vars := [one; {| v_type := OtherType None None; v_kind := Constant None |}];
     h_nodes := [] |}.

Definition feature_NoneConst : ShapeFeature :=
  {| shape_of := {[ 1 := None ]}; scheduled := ∅; shape_of_reverse_index := ∅ |}.

(** [reshape(reshape(x, s1), s2)]: [x] is variable [1], the inner reshape is
    node [0] with output [3], the outer one is node [1] with output [5],
    which the static type pins to the size [5]. *)
Definition vector (size : option Z) (k : Kind) : VarObj :=
  {| v_type := TensorType "float64" [size]; v_kind := k |}.

Definition shape_arg : VarObj :=
  {| v_type := TensorType "int64" [Some 1%Z]; v_kind := Input |}.

Definition heap_chain : Heap :=
  {| h_vars := [one; vector None Input; shape_arg; vector None (Output 0 0);
                shape_arg; vector (Some 5%Z) (Output 1 0)];
     h_nodes := [{| op := Reshape 1; inputs := [1; 2]; outputs := [3] |};
                 {| op := Reshape 1; inputs := [3; 4]; outputs := [5] |}] |}.

Definition fgraph_plain : FunctionGraph :=
  {| graph := no_graph; shape_feature := None |}.

(** An arena with [lscalar_one], one more constant of value 1 and a vector
    of unknown length. *)
Definition heap_two_ones : Heap :=
  {| h_vars := [one; one; {| v_type := TensorType "float64" [None];
                             v_kind := Input |}];
     h_nodes := [] |}.

(** A vector [1] with its accessor [Shape_i(0)], node [0] with output [2],
    and a second vector [3] whose tracked shape is that very output. *)
Definition int64_output (n : apply) : VarObj :=
  {| v_type := int64_scalar; v_kind := Output n 0 |}.

Definition heap_accessor : Heap :=
  {| h_vars := [one; vector None Input; int64_output 0; vector None Input];
     h_nodes := [{| op := Shape_i 0; inputs := [1]; outputs := [2] |}] |}.

Definition feature_accessor : ShapeFeature :=
  {| shape_of := {[ 1 := Some [2]; 3 := Some [2] ]};
     scheduled := ∅; shape_of_reverse_index := ∅ |}.

(** States for the examples. *)
Definition W : Collaborators := collaborators "warn".
Definition R : Collaborators := collaborators "raise".

(** The vector [2] of [heap_two_ones], tracked with the shape [(lscalar_one,)]. *)
Definition st_tracked : State :=
  state_of heap_two_ones
           {| shape_of := {[ 2 := Some [0] ]}; scheduled := ∅;
              shape_of_reverse_index := ∅ |}.

Definition st_two_ones : State := state_of heap_two_ones no_feature.

(** The vector once the second constant 1 is recorded as its length. *)
Definition st_second_one : State :=
  {| heap := heap_two_ones;
     feature := {| shape_of := {[ 2 := Some [1] ]}; scheduled := ∅;
                   shape_of_reverse_index := {[ 1 := {[ 2 ]} ]} |};
     warnings := [] |}.

(** Two applications [2] and [3] of one operator to the input [1], and
    [NoneConst], variable [4]. *)
Definition heap_twins : Heap :=
  {| h_vars := [one; vector None Input; vector None (Output 0 0);
                vector None (Output 1 0);
                {| v_type := OtherType None None; v_kind := Constant None |}];
     h_nodes := [{| op := OtherOp "exp"; inputs := [1]; outputs := [2] |};
                 {| op := OtherOp "exp"; inputs := [1]; outputs := [3] |}] |}.

Definition st_twins : State :=
  state_of heap_twins
           {| shape_of := {[ 2 := Some [0]; 3 := Some [0]; 4 := None ]};
              scheduled := ∅; shape_of_reverse_index := ∅ |}.

(** The accessor of [heap_accessor], scheduled to be replaced by the shape
    of variable [3], whose tracked shape is [(lscalar_one,)]. *)
Definition feature_scheduled : ShapeFeature :=
  {| shape_of := {[ 1 := Some [2]; 3 := Some [0] ]};
     scheduled := {[ 0 := 3 ]}; shape_of_reverse_index := ∅ |}.

Definition fgraph_of (f : ShapeFeature) : FunctionGraph :=
  {| graph := no_graph; shape_feature := Some f |}.

Definition st_of_op (o : Op) : State := state_of (heap_with o) no_feature.

(** A matrix [1] whose static type pins the second dimension to [5]. *)
Definition heap_matrix : Heap :=
  {| h_vars := [one; {| v_type := TensorType "float64" [None; Some 5%Z];
                        v_kind := Input |}];
     h_nodes := [] |}.

Definition st_matrix : State := state_of heap_matrix no_feature.

(** The matrix once an inference that answered [(7, 3)] is recorded. *)
Definition st_matrix_recorded : State :=
  (set_shape (H := W) 1 (Some [ENum 7; ENum 3]) false st_matrix).2.

(** The recorded matrix once its shape is declared unknown. *)
Definition st_matrix_forgotten : State :=
  (set_shape (H := W) 1 None true st_matrix_recorded).2.

(** The recorded matrix once the constant 7, variable [2], replaces the
    entry of its dimension 1. *)
Definition st_matrix_replaced : State :=
  (set_shape_i (H := W) 1 1 (EVar 2) st_matrix_recorded).2.

(** A vector [1] of static length 5 whose shape is unknown, and a vector
    [2] whose length is the scalar input [3]. *)
Definition heap_pinned_vector : Heap :=
  {| h_vars := [one; vector (Some 5%Z) Input; vector None Input;
                {| v_type := int64_scalar; v_kind := Input |}];
     h_nodes := [] |}.

Definition st_pinned_unknown : State :=
  (set_shape (H := W) 2 (Some [EVar 3]) false
     (set_shape (H := W) 1 None false
        (state_of heap_pinned_vector no_feature)).2).2.

Definition st_pinned_updated : State :=
  (update_shape (H := W) 1 2 st_pinned_unknown).2.

(** Shapes to compare: a vector [2], a matrix [3] and [NoneConst], [4]. *)
Definition st_shapes : State :=
  state_of heap_twins
           {| shape_of := {[ 2 := Some [0]; 3 := Some [0; 0]; 4 := None ]};
              scheduled := ∅; shape_of_reverse_index := ∅ |}.

(** Two vectors [1] and [2] whose lengths are the scalar inputs [3] and
    [4]. *)
Definition int64_input : VarObj := {| v_type := int64_scalar; v_kind := Input |}.

Definition heap_lengths : Heap :=
  {| h_vars := [one; vector None Input; vector None Input;
                int64_input; int64_input];
     h_nodes := [] |}.

Definition st_lengths : State :=
  state_of heap_lengths
           {| shape_of := {[ 1 := Some [3]; 2 := Some [4] ]};
              scheduled := ∅; shape_of_reverse_index := ∅ |}.

(** The accessor [Shape_i(0)] of the vector [1], node [0] with output [2];
    [4] is computed from that output by node [1]; [3] is a scalar input;
    the vectors [5], [6] and [7] have the tracked shapes [(3,)], [(4,)] and
    [(2,)]. *)
Definition heap_clients : Heap :=
  {| h_vars := [one; vector None Input; int64_output 0; int64_input;
                int64_output 1; vector None Input; vector None Input;
                vector None Input];
     h_nodes := [{| op := Shape_i 0; inputs := [1]; outputs := [2] |};
                 {| op := OtherOp "succ"; inputs := [2]; outputs := [4] |}] |}.

Definition st_clients : State :=
  state_of heap_clients
           {| shape_of := {[ 1 := Some [2]; 5 := Some [3]; 6 := Some [4];
                             7 := Some [2] ]};
              scheduled := ∅; shape_of_reverse_index := ∅ |}.

Definition graph_clients : Graph :=
  {| variables := {[ 1; 2; 3; 4; 5; 6; 7 ]};
     clients := {[ 1 := [(CApply 0, 0%Z)] ]} |}.



(** The chain of [heap_chain], with an output of rank 2. *)
Definition heap_chain_rank : Heap :=
  {| h_vars := [one; vector None Input; shape_arg; vector None (Output 0 0);
                shape_arg;
                {| v_type := TensorType "float64" [None; None];
                   v_kind := Output 1 0 |}];
     h_nodes := [{| op := Reshape 1; inputs := [1; 2]; outputs := [3] |};
                 {| op := Reshape 1; inputs := [3; 4]; outputs := [5] |}] |}.

End Demo.

(** * The rest of the module *)

(** ** Steps of a computation *)

(** Whatever the computation does, it takes the state along [R]. *)
Definition Steps {A} (R : State → State → Prop) (m : M A) : Prop :=
  ∀ st r st', m st = (r, st') → R st st'.

(** The state is left as it was. *)
Definition Pure {A} (m : M A) : Prop := Steps eq m.

(** What [shape_ir(i, r)] answers for a variable [r] of static shape [sh]:
    the literal of the static type, or else a literal that
    [get_scalar_constant_value] found, or else the output of a new node
    [Shape_i(i)] applied to [r]. *)
Definition static_entry (r : var) (sh : list (option Z)) (i : nat) (y : var)
    (h : Heap) : Prop :=
  match sh !! i with
  | Some (Some n) => literal h y n
  | _ =>
      (∃ z, literal h y z)
      ∨ ∃ n, lookup_var h y = Some {| v_type := int64_scalar;
                                      v_kind := Output n 0 |}
             ∧ lookup_node h n = Some {| op := Shape_i (Z.of_nat i);
                                         inputs := [r]; outputs := [y] |}
  end.

(** ** More collaborators *)

(** What the rest of the module imports beside the [Collaborators]: a list
    of dtypes, two functions that build graphs, and the classes of
    operators that [Op] does not tell apart, as the tests [isinstance]. *)
Class MoreCollaborators := {
  (** [aesara.tensor.type.discrete_dtypes] *)
  discrete_dtypes : list string;
  (** [cast(d, "int64")]: it may build new objects *)
  cast_int64 : var → Heap → Res var * (list VarObj * list ApplyObj);
  (** [specify_shape(x, shape)]: it may build new objects *)
  specify_shape : var → list var → Heap → Res var * (list VarObj * list ApplyObj);
  (** [isinstance(op, SpecifyShape)] *)
  is_SpecifyShape : Op → bool;
  (** [isinstance(op, MakeVector)] *)
  is_MakeVector : Op → bool;
  (** [isinstance(t, TensorType)] *)
  is_TensorType : Ty → bool;
  (** [aesara.tensor.type_other.NoneConst] *)
  NoneConst : var
}.

(** A collaborator that only adds to the arena, as a computation. *)
Definition run_builder {A} (b : Heap → Res A * (list VarObj * list ApplyObj))
  : M A :=
  λ st, let '(r, new) := b (heap st) in
        (r, {| heap := extend (heap st) new; feature := feature st;
               warnings := warnings st |}).

(** ** [on_import], [on_attach], [on_detach] *)

Section Notifications.
Context `{Collaborators} `{MoreCollaborators}.

(** [getattr(d, "dtype", None)]: a number has no such attribute (a Python
    number, or a NumPy scalar taken with its [int64] dtype); a variable has
    the dtype of its type. *)
Definition elem_dtype (h : Heap) (d : shape_elem) : option string :=
  match d with
  | ENum _ => None
  | EVar v => type_dtype (type_of h v)
  end.

(** [sh[a:b]] *)
Definition py_slice {A} (l : list A) (a b : nat) : list A :=
  take (b - a) (drop a l).

(** The value that replaces an element [d] whose dtype is not ["int64"]:
    [constant(d.data, dtype="int64", ndim=0)] for a [Constant] and
    [cast(d, "int64")] otherwise; NumPy refuses to make an integer of the
    data [None]. *)
Definition cast_elem (d : shape_elem) : M var :=
  st <- get ;;
  match d with
  | ENum _ => raise AttributeError
  | EVar v =>
      if is_Constant (heap st) v
      then match const_data (heap st) v with
           | Some z => constant z
           | None => raise TypeError
           end
      else run_builder (cast_int64 v)
  end.

(** [for i, d in enumerate(sh)], from index [i] on, with [new_shape] as it
    stands. *)
Fixpoint normalise_dims (sh : list shape_elem) (i : nat)
    (rest new_shape : list shape_elem) : M (list shape_elem) :=
  match rest with
  | [] => ret new_shape
  | d :: rest' =>
      st <- get ;;
      match elem_dtype (heap st) d with
      | None => normalise_dims sh (S i) rest' new_shape
      | Some dt =>
          if bool_decide (dt = "int64")
          then normalise_dims sh (S i) rest' new_shape
          else
            assert (bool_decide (dt ∈ discrete_dtypes)) no_message ;;;
            assert (negb (bool_decide (dt = "uint64"))) no_message ;;;
            let new_shape1 :=
              new_shape ++ py_slice sh (length new_shape) (i + 1) in
            casted_d <- cast_elem d ;;
            if bool_decide (i < length new_shape1)
            then normalise_dims sh (S i) rest'
                                (<[i := EVar casted_d]> new_shape1)
            else raise IndexError
      end
  end.

(** The body of the loop over [o_shapes]: the shape that takes the place of
    [sh]. *)
Definition normalise_shape (sh : option (list shape_elem))
  : M (option (list shape_elem)) :=
  match sh with
  | None => ret None
  | Some sh =>
      new_shape <- normalise_dims sh 0 sh [] ;;
      match new_shape with
      | [] => ret (Some sh)
      | _ => ret (Some (new_shape ++ py_slice sh (length new_shape) (length sh)))
      end
  end.

Definition wrong_number : string :=
  "The infer_shape method returned a list with the wrong number of element".

Definition on_import (fg : Graph) (node : apply) : M unit :=
  st <- get ;;
  let ins := node_inputs (heap st) node in
  let outs := node_outputs (heap st) node in
  out0 <- or_raise (outs !! 0) IndexError ;;
  if bool_decide (is_Some (shape_of (feature st) !! out0))
  then
    (* this is a revert, not really an import *)
    forM_ (λ r, st' <- get ;;
                assert (bool_decide (is_Some (shape_of (feature st') !! r)))
                       no_message)
          (outs ++ ins)
  else
    forM_ init_r ins ;;;
    o_shapes <- get_node_infer_shape fg node ;;
    if negb (bool_decide (length o_shapes = length outs))
    then raise (Exception wrong_number)
    else
      o_shapes' <- mapM normalise_shape o_shapes ;;
      forM_ (λ p : var * option (list shape_elem), set_shape p.1 p.2 false)
            (zip outs o_shapes').

(** What [on_attach] comes to: [AlreadyThere] is raised before anything is
    done, or the feature is attached and the rest of the method runs; the
    graph then holds the feature, which is the one object the method goes
    on to fill. *)
Inductive attach_result :=
| AlreadyThere
| Attached (r : Res unit) (st : State) (fgraph : FunctionGraph).

Definition no_feature : ShapeFeature :=
  {| shape_of := ∅; scheduled := ∅; shape_of_reverse_index := ∅ |}.

(** [toposort] is the answer of [fgraph.toposort()]. *)
Definition on_attach (fgraph : FunctionGraph) (toposort : list apply)
    (st : State) : attach_result :=
  match shape_feature fgraph with
  | Some _ => AlreadyThere
  | None =>
      let '(r, st') :=
        (st0 <- get ;;
         d <- or_raise (type_dtype (type_of (heap st0) lscalar_one))
                       AttributeError ;;
         assert (bool_decide (d = "int64")) no_message ;;;
         modify_feature (λ _, no_feature) ;;;
         forM_ (on_import (graph fgraph)) toposort) st in
      Attached r st' {| graph := graph fgraph;
                        shape_feature := Some (feature st') |}
  end.

(** [on_detach]: the three dictionaries are cleared, then
    [del fgraph.shape_feature], which raises when the attribute is not
    there. *)
Definition on_detach (fgraph : FunctionGraph) (st : State)
  : Res unit * State * FunctionGraph :=
  let st' := {| heap := heap st; feature := no_feature;
                warnings := warnings st |} in
  match shape_feature fgraph with
  | Some _ => (Ok (), st', {| graph := graph fgraph; shape_feature := None |})
  | None => (Raise AttributeError, st', fgraph)
  end.

End Notifications.

(** ** More rewrites *)

Section MoreRewrites.
Context `{Collaborators} `{MoreCollaborators}.



(** [for dim, sh in enumerate(node.inputs[1:]): if not NoneConst.equals(sh):
    shape[dim] = sh], from index [dim] on. *)
Fixpoint merge_specified (h : Heap) (dim : nat) (outer shape : list var)
  : Res (list var) :=
  match outer with
  | [] => Ok shape
  | sh :: rest =>
      if equals h NoneConst sh then merge_specified h (S dim) rest shape
      else if bool_decide (dim < length shape)
           then merge_specified h (S dim) rest (<[dim := sh]> shape)
           else Raise IndexError
  end.

(** What [local_merge_consecutive_specify_shape] comes to: the unpacking
    [inner_obj, *shape = obj.owner.inputs] raises [ValueError] when there is
    nothing to unpack, or the rewriter runs. *)
Inductive specify_result :=
| NotEnoughValues
| Rewritten (r : Res rewrite_result) (h : Heap).

Definition local_merge_consecutive_specify_shape (fgraph : FunctionGraph)
    (node : apply) (h : Heap) : specify_result :=
  if negb (from_option is_SpecifyShape false (node_op h node))
  then Rewritten (Ok Decline) h
  else
    match node_inputs h node with
    | [] => Rewritten (Raise IndexError) h
    | obj :: outer =>
        match owner_of h obj with
        | None => Rewritten (Ok Decline) h
        | Some n =>
            if negb (from_option is_SpecifyShape false (node_op h n))
            then Rewritten (Ok Decline) h
            else
              match node_inputs h n with
              | [] => NotEnoughValues
              | inner_obj :: shape =>
                  match merge_specified h 0 outer shape with
                  | Raise e => Rewritten (Raise e) h
                  | Ok shape' =>
                      let '(r, new) := specify_shape inner_obj shape' h in
                      Rewritten (match r with
                                 | Ok y => Ok (Replace [y])
                                 | Raise e => Raise e
                                 end)
                                (extend h new)
                  end
              end
        end
    end.

(** [x == z] for what [extract_constant] returned and a Python [int]: a
    [Variable] is equal to no number. *)
Definition extracted_is (x : extracted) (z : Z) : bool :=
  match x with
  | ExNum _ n => bool_decide (n = z)
  | ExVar _ => false
  end.

(** [x == y] for two answers of [extract_constant]: numbers by value,
    variables by identity. *)
Definition extracted_eq (x y : extracted) : bool :=
  match x, y with
  | ExNum _ n, ExNum _ m => bool_decide (n = m)
  | ExVar v, ExVar w => bool_decide (v = w)
  | _, _ => false
  end.

(** [all(s1 == s2 for s1, s2 in zip(a, b) if s1 == 1 or s2 == 1)] *)
Definition sizes_agree (a b : list (option Z)) : bool :=
  forallb (λ p : option Z * option Z, bool_decide (p.1 = p.2))
          (filter (λ p : option Z * option Z, p.1 = Some 1%Z ∨ p.2 = Some 1%Z)
                  (zip a b)).

(** The first test of the loop of [local_useless_reshape]: [outshp_i] is
    [Shape_i{dim}(inp)]. *)
Definition matches_Shape_i (h : Heap) (inp outshp_i : var) (dim : nat)
  : Res bool :=
  match owner_of h outshp_i with
  | Some n =>
      match node_op h n with
      | Some (Shape_i i) =>
          if bool_decide (i = Z.of_nat dim) then
            match node_inputs h n with
            | x :: _ => Ok (bool_decide (x = inp))
            | [] => Raise IndexError
            end
          else Ok false
      | _ => Ok false
      end
  | None => Ok false
  end.

(** The second test: [outshp_i] is [Shape(inp)[dim]], a [Subtensor] with
    two inputs whose index is the constant [dim]. *)
Definition matches_Shape_subtensor (h : Heap) (inp outshp_i : var) (dim : nat)
  : Res bool :=
  match owner_of h outshp_i with
  | Some n =>
      match node_op h n with
      | Some (Subtensor _) =>
          match node_inputs h n with
          | [subtensor_inp; idx] =>
              if extracted_is (extract_constant h false idx) (Z.of_nat dim)
              then
                match owner_of h subtensor_inp with
                | Some n0 =>
                    match node_op h n0 with
                    | Some Shape =>
                        match node_inputs h n0 with
                        | x :: _ => Ok (bool_decide (x = inp))
                        | [] => Raise IndexError
                        end
                    | _ => Ok false
                    end
                | None => Ok false
                end
              else Ok false
          | _ => Ok false
          end
      | _ => Ok false
      end
  | None => Ok false
  end.

(** One turn of the loop [for dim in range(inp.type.ndim)]: whether the
    dimension matches, and whether it does so as a [-1]. *)
Definition reshape_dim (fuel : nat) (fgraph : FunctionGraph) (inp : var)
    (output_shape_is : list var) (dim : nat) : M (bool * bool) :=
  st <- get ;;
  let h := heap st in
  outshp_i <- or_raise (output_shape_is !! dim) IndexError ;;
  b1 <- lift_res (matches_Shape_i h inp outshp_i dim) ;;
  if b1 : bool then ret (true, false)
  else
    b2 <- lift_res (matches_Shape_subtensor h inp outshp_i dim) ;;
    if b2 : bool then ret (true, false)
    else
      let cst_outshp_i := extract_constant h true outshp_i in
      sh <- lift_res (shape_attr (type_of h inp)) ;;
      s <- or_raise (sh !! dim) IndexError ;;
      if bool_decide (s = Some 1%Z) && extracted_is cst_outshp_i 1
      then ret (true, false)
      else if extracted_is cst_outshp_i (-1) then ret (true, true)
      else
        match shape_feature fgraph with
        | None => ret (false, false)
        | Some _ =>
            inpshp_i <- get_shape fuel (graph fgraph) inp (Z.of_nat dim) ;;
            st' <- get ;;
            ret (bool_decide (inpshp_i = outshp_i)
                 || extracted_eq (extract_constant (heap st') true inpshp_i)
                                 (extract_constant (heap st') true outshp_i),
                 false)
        end.

(** The cases of [local_useless_reshape] that look at the target shape:
    [Reshape(x, x.shape)], and [Reshape(x, [x.shape[0], ..., x.shape[-1]])]
    with the loop over the dimensions. *)
Definition reshape_to_own_shape (fuel : nat) (fgraph : FunctionGraph)
    (inp output_shape : var) (ndim : nat) : M rewrite_result :=
  st <- get ;;
  let h := heap st in
  match owner_of h output_shape with
  | None => ret Decline
  | Some n =>
      same <- (match node_op h n with
               | Some Shape =>
                   shape_input <- or_raise (node_inputs h n !! 0) IndexError ;;
                   ret (bool_decide (shape_input = inp))
               | _ => ret false
               end) ;;
      if same : bool then ret (Replace [inp])
      else if negb (from_option is_MakeVector false (node_op h n))
      then ret Decline
      else
        marks <- mapM (reshape_dim fuel fgraph inp (node_inputs h n))
                      (seq 0 ndim) ;;
        if forallb fst marks
           && bool_decide (length (filter (λ m : bool * bool, m.2 = true)
                                          marks) ≤ 1)
        then ret (Replace [inp])
        else ret Decline
  end.

(** [local_useless_reshape]; [fgraph.shape_feature], when there is one, is
    the feature of the state, and [fuel] bounds the recursion of
    [get_shape]. *)
Definition local_useless_reshape (fuel : nat) (fgraph : FunctionGraph)
    (node : apply) : M rewrite_result :=
  st <- get ;;
  let h := heap st in
  inp <- or_raise (node_inputs h node !! 0) IndexError ;;
  output <- or_raise (node_outputs h node !! 0) IndexError ;;
  output_shape <- or_raise (node_inputs h node !! 1) IndexError ;;
  n_in <- lift_res (ndim_attr (type_of h inp)) ;;
  n_out <- lift_res (ndim_attr (type_of h output)) ;;
  if negb (bool_decide (n_in = n_out)) then ret Decline
  else
    simple <- (if bool_decide (n_in = 1) && bool_decide (n_out = 1)
               then sh1 <- lift_res (shape_attr (type_of h inp)) ;;
                    sh2 <- lift_res (shape_attr (type_of h output)) ;;
                    ret (sizes_agree sh1 sh2)
               else ret false) ;;
    if simple : bool then ret (Replace [inp])
    else reshape_to_own_shape fuel fgraph inp output_shape n_in.

End MoreRewrites.

(** ** Relations between the states of a run *)

(** New objects and warnings, the feature as it was. *)
Definition builds (st st' : State) : Prop :=
  heap_le (heap st) (heap st') ∧ feature st' = feature st.

(** New objects, new entries in [shape_of] and none lost, [scheduled] as it
    was. *)
Definition imports (st st' : State) : Prop :=
  heap_le (heap st) (heap st')
  ∧ (∀ v, is_Some (shape_of (feature st) !! v) →
          is_Some (shape_of (feature st') !! v))
  ∧ scheduled (feature st') = scheduled (feature st).

(** The variable has an entry in [shape_of]. *)
Definition tracked (st : State) (v : var) : Prop :=
  is_Some (shape_of (feature st) !! v).

(** Every tuple of [shape_of] has as many entries as its variable has
    dimensions. *)
Definition ranked (st : State) : Prop :=
  ∀ v t, shape_of (feature st) !! v = Some (Some t) →
         type_ndim (type_of (heap st) v) = Some (length t).

(** New objects and no entry of [shape_of] lost. *)
Definition extends (st st' : State) : Prop :=
  heap_le (heap st) (heap st') ∧ ∀ v, tracked st v → tracked st' v.

(** [scheduled] is left as it was. *)
Definition same_schedule (st st' : State) : Prop :=
  scheduled (feature st') = scheduled (feature st).

(** The shape that the normalisation of [on_import] stands for while it
    runs: what is copied so far, then the rest of the inferred shape. *)
Definition completed (sh new_shape : list shape_elem) : list shape_elem :=
  new_shape ++ drop (length new_shape) sh.

(** What the normalisation makes of the element [d] of an inferred shape,
    with the dtypes read in the arena [h0] of the call: a number and an
    [int64] variable are kept; a variable of another dtype, which is then a
    discrete dtype other than ["uint64"], gives way to a variable, an
    [int64] constant of the same value when it is a constant. *)
Definition normalised `{MoreCollaborators} (h0 : Heap) (d e : shape_elem)
    (h : Heap) : Prop :=
  match d with
  | ENum z => e = ENum z
  | EVar v =>
      ∀ dt, type_dtype (type_of h0 v) = Some dt →
        if decide (dt = "int64") then e = EVar v
        else dt ∈ discrete_dtypes ∧ dt ≠ "uint64"
             ∧ ∃ c, e = EVar c
                    ∧ ∀ z, const_data h0 v = Some z → literal h c z
  end.

(** What the fallback [default_infer_shape] answers for the output [r],
    with the types read in the arena [h]. *)
Definition default_shape (h : Heap) (r : var)
    (o : option (list shape_elem)) : Prop :=
  match type_of h r with
  | TensorType _ sh => ∃ t, o = Some (EVar <$> t) ∧ length t = length sh
  | OtherType _ _ => o = None
  end.

(** The entry [s] of a tuple is not stale for [get_shape]: when it is the
    output of a [Shape_i], the variable that this [Shape_i] measures is in
    the graph. *)
Definition fresh (fg : Graph) (h : Heap) (s : var) : Prop :=
  ∀ n i, owner_of h s = Some n → node_op h n = Some (Shape_i i) →
         ∃ x rest, node_inputs h n = x :: rest ∧ x ∈ variables fg.

(** The entries of [scheduled] are those that were there or point to
    [new_r]. *)
Definition queued (new_r : var) (st st' : State) : Prop :=
  ∀ k v, scheduled (feature st') !! k = Some v →
         scheduled (feature st) !! k = Some v ∨ v = new_r.

(** The feature and the warnings are left as they were. *)
Definition reads (st st' : State) : Prop :=
  feature st' = feature st ∧ warnings st' = warnings st.

(** ** The configuration: [theano/configparser.py]

    [config.on_shape_error], which [get_node_infer_shape] reads, is an
    attribute access that runs [ConfigParam.__get__].  The values that the
    flags, the configuration files and the options of an [EnumStr] hold are
    [str]; a parameter is taken with the name that
    [TheanoConfigParser.add] gave it. *)

Module Config.

(** What a call can raise: [ValueError], [KeyError], the [Exception] of a
    parameter that cannot be changed any more, or whatever a collaborator
    raises. *)
Inductive error :=
| ValueError
| KeyError
| CannotChange
| Raised (name : string).

Inductive result (A : Type) := Return (a : A) | Fail (e : error).
Arguments Return {A} a.
Arguments Fail {A} e.

(** What [ConfigParser.get(section, option)] comes to. *)
Inductive file_answer :=
| Found (v : string)
| NoOptionError
| NoSectionError
| InterpolationError.

(** A [ConfigParam]: what [__init__] and [add] store, and the attributes
    [val], which is missing until the first assignment, and [is_default].
    A callable default is given with what its call returns; the callable
    [_validate] answers [false] for [False] and [true] for anything
    else. *)
Record ConfigParam := {
  _default : string + result string;
  _apply : option (string → result string);
  _validate : option (string → result bool);
  _mutable : bool;
  fullname : string;
  val : option string;
  is_default : bool
}.

(** A [TheanoConfigParser], with the files as they were read. *)
Record TheanoConfigParser := {
  _flags_dict : gmap string string;
  _theano_cfg : string → string → file_answer;
  _theano_raw_cfg : string → string → file_answer
}.

(** The character ["_"]. *)
Definition underscore : Ascii.ascii := Ascii.ascii_of_nat 95.

(** The first ["__"] of a list of characters: what is before it, reversed
    onto [before], and what is after it. *)
Fixpoint split_first (s before : list Ascii.ascii)
  : option (list Ascii.ascii * list Ascii.ascii) :=
  match s with
  | [] => None
  | c :: rest =>
      match rest with
      | c' :: rest' =>
          if bool_decide (c = underscore) && bool_decide (c' = underscore)
          then Some (before, rest')
          else split_first rest (c :: before)
      | [] => None
      end
  end.

(** [key.rsplit("__", 1)]: the split at the last ["__"], found as the
    first one of the reversed string. *)
Definition rsplit (key : string) : list string :=
  match split_first (rev (String.list_ascii_of_string key)) [] with
  | Some (after, before_reversed) =>
      [String.string_of_list_ascii (rev before_reversed);
       String.string_of_list_ascii after]
  | None => [key]
  end.

Definition pop_flag (key : string) (self : TheanoConfigParser)
  : TheanoConfigParser :=
  {| _flags_dict := delete key (_flags_dict self);
     _theano_cfg := _theano_cfg self;
     _theano_raw_cfg := _theano_raw_cfg self |}.

Definition fetch_val_for_key (self : TheanoConfigParser) (key : string)
    (delete_key : bool) : result string * TheanoConfigParser :=
  match _flags_dict self !! key with
  | Some v => (Return v, if delete_key then pop_flag key self else self)
  | None =>
      let key_tokens := rsplit key in
      if bool_decide (2 < length key_tokens) then (Fail KeyError, self)
      else
        let so := match key_tokens with
                  | [section; option] => (section, option)
                  | _ => ("global", key)
                  end in
        match _theano_cfg self so.1 so.2 with
        | Found v => (Return v, self)
        | InterpolationError =>
            match _theano_raw_cfg self so.1 so.2 with
            | Found v => (Return v, self)
            | InterpolationError => (Fail (Raised "InterpolationError"), self)
            | _ => (Fail KeyError, self)
            end
        | _ => (Fail KeyError, self)
        end
  end.

Definition apply (self : ConfigParam) (value : string) : result string :=
  match _apply self with
  | Some f => f value
  | None => Return value
  end.

Definition validate (self : ConfigParam) (value : string) : result bool :=
  match _validate self with
  | None => Return true
  | Some f =>
      match f value with
      | Return false => Fail ValueError
      | Return true => Return true
      | Fail e => Fail e
      end
  end.

(** [self.val = applied] *)
Definition set_val (self : ConfigParam) (applied : string) : ConfigParam :=
  {| _default := _default self; _apply := _apply self;
     _validate := _validate self; _mutable := _mutable self;
     fullname := fullname self; val := Some applied;
     is_default := is_default self |}.

(** [self.is_default = False] *)
Definition not_default (self : ConfigParam) : ConfigParam :=
  {| _default := _default self; _apply := _apply self;
     _validate := _validate self; _mutable := _mutable self;
     fullname := fullname self; val := val self; is_default := false |}.

Definition __set__ (self : ConfigParam) (v : string)
  : result unit * ConfigParam :=
  if negb (_mutable self) && bool_decide (is_Some (val self))
  then (Fail CannotChange, self)
  else
    match apply self v with
    | Fail e => (Fail e, self)
    | Return applied =>
        match validate self applied with
        | Fail e => (Fail e, self)
        | Return _ => (Return (), set_val self applied)
        end
    end.

(** [__get__] on an instance [cls] of the parser. *)
Definition __get__ (self : ConfigParam) (cls : TheanoConfigParser)
    (delete_key : bool) : result string * (ConfigParam * TheanoConfigParser) :=
  match val self with
  | Some v => (Return v, (self, cls))
  | None =>
      let fetched := fetch_val_for_key cls (fullname self) delete_key in
      let val_str :=
        match fetched.1 with
        | Return s => Return (s, not_default self)
        | Fail KeyError =>
            match _default self with
            | inl d => Return (d, self)
            | inr (Return d) => Return (d, self)
            | inr (Fail e) => Fail e
            end
        | Fail e => Fail e
        end in
      match val_str with
      | Fail e => (Fail e, (self, fetched.2))
      | Return (s, self1) =>
          let assigned := __set__ self1 s in
          match assigned.1, val assigned.2 with
          | Fail e, _ => (Fail e, (assigned.2, fetched.2))
          | Return _, Some v => (Return v, (assigned.2, fetched.2))
          | Return _, None => (Fail (Raised "AttributeError"),
                               (assigned.2, fetched.2))
          end
      end
  end.

(** [EnumStr(default, options, validate, mutable)], named [name]; with
    [str] options the test of [__init__] passes. *)
Definition EnumStr (name default : string) (options : list string)
    (validate : option (string → result bool)) (mutable : bool)
  : ConfigParam :=
  {| _default := inl default;
     _apply := Some (λ v, if bool_decide (v ∈ default :: options)
                          then Return v else Fail ValueError);
     _validate := validate;
     _mutable := mutable;
     fullname := name;
     val := None;
     is_default := true |}.

(** The parameter was built by [EnumStr] with these options, whatever has
    been assigned since. *)
Definition is_EnumStr (self : ConfigParam) (default : string)
    (options : list string) : Prop :=
  _default self = inl default
  ∧ _apply self = Some (λ v, if bool_decide (v ∈ default :: options)
                             then Return v else Fail ValueError).

(** The value read is one of the options. *)
Definition allowed (self : ConfigParam) (default : string)
    (options : list string) : Prop :=
  ∀ v, val self = Some v → v ∈ default :: options.

End Config.

(** ** More graphs for the examples *)

Module Samples.

(** [cast(v, "int64")]: a new node with one new [int64] output. *)
Definition cast (v : var) (h : Heap)
  : Res var * (list VarObj * list ApplyObj) :=
  (Ok (length (h_vars h)),
   ([{| v_type := int64_scalar; v_kind := Output (length (h_nodes h)) 0 |}],
    [{| op := OtherOp "cast"; inputs := [v];
        outputs := [length (h_vars h)] |}])).

(** [specify_shape(x, shape)]: a new node with one new output of the type
    of [x]. *)
Definition specify (x : var) (shape : list var) (h : Heap)
  : Res var * (list VarObj * list ApplyObj) :=
  (Ok (length (h_vars h)),
   ([{| v_type := type_of h x; v_kind := Output (length (h_nodes h)) 0 |}],
    [{| op := OtherOp "SpecifyShape"; inputs := x :: shape;
        outputs := [length (h_vars h)] |}])).

(** [NoneConst] is the variable [1] of the arenas that hold it. *)
Definition more : MoreCollaborators := {|
  discrete_dtypes := ["bool"; "int8"; "int16"; "int32"; "int64";
                      "uint8"; "uint16"; "uint32"; "uint64"];
  cast_int64 := cast;
  specify_shape := specify;
  is_SpecifyShape := λ o, bool_decide (o = OtherOp "SpecifyShape");
  is_MakeVector := λ o, bool_decide (o = OtherOp "MakeVector");
  is_TensorType := is_HasShape;
  NoneConst := 1
|}.

(** [x.shape[0]] for a vector [x]: [x] is variable [1], tracked with the
    length [lscalar_one]; [Shape(x)] is node [0] with output [2]; the index
    is the constant [3], of value 0; the [Subtensor] is node [1] with
    output [4]. *)
Definition heap_component : Heap :=
  {| h_vars := [Demo.one; Demo.vector None Input;
                {| v_type := TensorType "int64" [Some 1%Z];
                   v_kind := Output 0 0 |};
                {| v_type := int64_scalar; v_kind := Constant (Some 0%Z) |};
                Demo.int64_output 1];
     h_nodes := [{| op := Shape; inputs := [1]; outputs := [2] |};
                 {| op := Subtensor [IdxType]; inputs := [2; 3];
                    outputs := [4] |}] |}.

Definition st_component : State :=
  Demo.state_of heap_component
    {| shape_of := {[ 1 := Some [0] ]}; scheduled := ∅;
       shape_of_reverse_index := ∅ |}.

(** The two applications of [Demo.heap_twins], before anything is
    tracked, and once the first one is imported. *)
Definition st_fresh : State := Demo.state_of Demo.heap_twins Demo.no_feature.

Definition st_imported : State :=
  (on_import (H := Demo.W) (H0 := more) Demo.no_graph 0 st_fresh).2.

(** What [on_attach] leaves of [st_fresh] and of the graph. *)
Definition st_attached : State :=
  match on_attach (H := Demo.W) (H0 := more) Demo.fgraph_plain [0; 1] st_fresh
  with
  | Attached _ st _ => st
  | AlreadyThere => st_fresh
  end.

Definition fgraph_attached : FunctionGraph :=
  {| graph := Demo.no_graph; shape_feature := Some (feature st_attached) |}.

(** An inferred shape with a number, an [int32] constant of value 4,
    variable [1], and an [int64] variable, variable [2]. *)
Definition heap_dtypes : Heap :=
  {| h_vars := [Demo.one;
                {| v_type := TensorType "int32" [];
                   v_kind := Constant (Some 4%Z) |};
                Demo.int64_input];
     h_nodes := [] |}.

Definition st_dtypes : State := Demo.state_of heap_dtypes Demo.no_feature.

(** Two vectors [1] and [2] without owner; the tuple of the second one is
    too long for the first one. *)
Definition st_uneven : State :=
  Demo.state_of Demo.heap_lengths
    {| shape_of := {[ 1 := Some [3]; 2 := Some [3; 4] ]}; scheduled := ∅;
       shape_of_reverse_index := ∅ |}.



(** [specify_shape(specify_shape(x, s, None), None, t)]: [NoneConst] is
    variable [1], the matrix [x] is variable [2], [s] and [t] are the
    scalars [3] and [6]; the inner node is node [0] with output [4], the
    outer one is node [1] with output [5]. *)
Definition matrix (k : Kind) : VarObj :=
  {| v_type := TensorType "float64" [None; None]; v_kind := k |}.

Definition heap_specify : Heap :=
  {| h_vars := [Demo.one;
                {| v_type := OtherType None None; v_kind := Constant None |};
                matrix Input; Demo.int64_input; matrix (Output 0 0);
                matrix (Output 1 0); Demo.int64_input];
     h_nodes := [{| op := OtherOp "SpecifyShape"; inputs := [2; 3; 1];
                    outputs := [4] |};
                 {| op := OtherOp "SpecifyShape"; inputs := [4; 1; 6];
                    outputs := [5] |}] |}.

(** [reshape(x, x.shape)] for a matrix [x]: [x] is variable [1],
    [Shape(x)] is node [0] with output [2], the reshape is node [1] with
    output [3]. *)
Definition heap_own_shape : Heap :=
  {| h_vars := [Demo.one; matrix Input;
                {| v_type := TensorType "int64" [Some 2%Z];
                   v_kind := Output 0 0 |};
                matrix (Output 1 0)];
     h_nodes := [{| op := Shape; inputs := [1]; outputs := [2] |};
                 {| op := Reshape 2; inputs := [1; 2]; outputs := [3] |}] |}.

(** The parameter [on_shape_error], with the options ["warn"], its
    default, and ["raise"]; a parser whose flags set it to ["raise"] and
    whose files say nothing; the parameter once it is read. *)
Definition on_shape_error_param : Config.ConfigParam :=
  Config.EnumStr "on_shape_error" "warn" ["raise"] None true.

Definition no_file (section option : string) : Config.file_answer :=
  Config.NoSectionError.

Definition parser_with_flag : Config.TheanoConfigParser :=
  {| Config._flags_dict := {[ "on_shape_error" := "raise" ]};
     Config._theano_cfg := no_file;
     Config._theano_raw_cfg := no_file |}.

Definition parser_without_flag : Config.TheanoConfigParser :=
  {| Config._flags_dict := ∅;
     Config._theano_cfg := no_file;
     Config._theano_raw_cfg := no_file |}.

Definition on_shape_error_read : Config.ConfigParam :=
  (Config.__get__ on_shape_error_param parser_with_flag true).2.1.

End Samples.

(** * Properties *)

(** ** The arena only grows *)

#[global] Instance heap_le_preorder : PreOrder heap_le.
Proof.
  split.
  - by intros h.
  - intros h1 h2 h3 [? ?] [? ?]. split; by etrans.
Qed.

Lemma heap_le_alloc_var (o : VarObj) (h : Heap) : heap_le h (alloc_var o h).2.
Proof. split; simpl; [by apply prefix_app_r|done]. Qed.

Lemma heap_le_alloc_node (a : ApplyObj) (h : Heap) : heap_le h (alloc_node a h).2.
Proof. split; simpl; [done|by apply prefix_app_r]. Qed.

Lemma lookup_var_le (h h' : Heap) (v : var) (o : VarObj) :
  heap_le h h' → lookup_var h v = Some o → lookup_var h' v = Some o.
Proof. intros [Hv _] Hl. by eapply prefix_lookup_Some. Qed.

Lemma lookup_node_le (h h' : Heap) (n : apply) (a : ApplyObj) :
  heap_le h h' → lookup_node h n = Some a → lookup_node h' n = Some a.
Proof. intros [_ Hn] Hl. by eapply prefix_lookup_Some. Qed.

Lemma type_of_le (h h' : Heap) (v : var) :
  heap_le h h' → is_Some (lookup_var h v) → type_of h' v = type_of h v.
Proof.
  intros Hle [o Ho]. unfold type_of.
  by rewrite (lookup_var_le _ _ _ _ Hle Ho), Ho.
Qed.

Lemma node_outputs_le (h h' : Heap) (n : apply) :
  heap_le h h' → is_Some (lookup_node h n) →
  node_outputs h' n = node_outputs h n.
Proof.
  intros Hle [a Ha]. unfold node_outputs.
  by rewrite (lookup_node_le _ _ _ _ Hle Ha), Ha.
Qed.

(** ** The monad *)

Ltac run :=
  repeat (unfold bind, get, ret, raise, or_raise, assert, lift_res,
          modify_feature, with_heap; simpl).

#[global] Instance grows_preorder : PreOrder grows.
Proof.
  split.
  - by intros st.
  - intros s1 s2 s3 (? & ? & ?) (? & ? & ?).
    split; [by etrans|split; congruence].
Qed.

Lemma literal_grows (st st' : State) (c : var) (n : Z) :
  grows st st' → literal (heap st) c n → literal (heap st') c n.
Proof. intros [Hle _]. by apply lookup_var_le. Qed.

(** A loop that collects its results: what each turn establishes, and time
    keeps, holds of every result when the loop ends. *)
Lemma mapM_grows {A B} (f : A → M B) (Q : A → B → State → Prop) (l : list A) :
  (∀ x st r st', f x st = (r, st') → grows st st') →
  (∀ x st y st', f x st = (Ok y, st') → Q x y st') →
  (∀ x y st st', grows st st' → Q x y st → Q x y st') →
  ∀ st r st', mapM f l st = (r, st') →
    grows st st' ∧ ∀ ys, r = Ok ys → Forall2 (λ x y, Q x y st') l ys.
Proof.
  intros Hgrows HQ Hstable. induction l as [|x l IH]; intros st r st' Hrun.
  - injection Hrun as <- <-. split; [done|]. intros ys [= <-]. constructor.
  - simpl in Hrun. unfold bind in Hrun.
    destruct (f x st) as [[y|e] st1] eqn:Hx.
    + destruct (mapM f l st1) as [[ys|e] st2] eqn:Hl.
      * injection Hrun as <- <-.
        destruct (IH _ _ _ Hl) as [Hg2 Hall].
        split; [etrans; [by eapply Hgrows|done]|].
        intros ? [= <-]. constructor; [|by apply Hall].
        eapply Hstable; [done|]. by eapply HQ.
      * injection Hrun as <- <-.
        destruct (IH _ _ _ Hl) as [Hg2 _].
        split; [etrans; [by eapply Hgrows|done]|]. by intros ys.
    + injection Hrun as <- <-. split; [by eapply Hgrows|]. by intros ys.
Qed.

Lemma Grows_ret {A} (a : A) : Grows (ret a).
Proof. by intros st r st' [= <- <-]. Qed.

Lemma Grows_raise {A} (e : exn) : Grows (raise (A := A) e).
Proof. by intros st r st' [= <- <-]. Qed.

Lemma Grows_get : Grows get.
Proof. by intros st r st' [= <- <-]. Qed.

Lemma Grows_lift_res {A} (x : Res A) : Grows (lift_res x).
Proof. by intros st r st' [= <- <-]. Qed.

Lemma Grows_or_raise {A} (o : option A) (e : exn) : Grows (or_raise o e).
Proof. destruct o; [apply Grows_ret|apply Grows_raise]. Qed.

Lemma Grows_assert (c : bool) (msg : string) : Grows (assert c msg).
Proof. destruct c; [apply Grows_ret|apply Grows_raise]. Qed.

Lemma Grows_bind {A B} (m : M A) (k : A → M B) :
  Grows m → (∀ a, Grows (k a)) → Grows (bind m k).
Proof.
  intros Hm Hk st r st' Hrun. unfold bind in Hrun.
  destruct (m st) as [[a|e] st1] eqn:Hmst.
  - etrans; [by eapply Hm|by eapply Hk].
  - injection Hrun as <- <-. by eapply Hm.
Qed.

Lemma Grows_constant (z : Z) : Grows (constant z).
Proof.
  intros st r st' [= <- <-]. split; [apply heap_le_alloc_var|done].
Qed.

(** Inversion of the steps of a run that returns. *)
Lemma bind_Ok {A B} (m : M A) (k : A → M B) (st st' : State) (b : B) :
  bind m k st = (Ok b, st') →
  ∃ a st1, m st = (Ok a, st1) ∧ k a st1 = (Ok b, st').
Proof.
  unfold bind. destruct (m st) as [[a|e] st1]; [|done]. by exists a, st1.
Qed.

Lemma assert_Ok (c : bool) (msg : string) (st st' : State) (u : unit) :
  assert c msg st = (Ok u, st') → c = true ∧ st' = st.
Proof. destruct c; [by intros [= _ <-]|done]. Qed.

Lemma or_raise_Ok {A} (o : option A) (e : exn) (st st' : State) (a : A) :
  or_raise o e st = (Ok a, st') → o = Some a ∧ st' = st.
Proof. destruct o; [by intros [= <- <-]|done]. Qed.

Lemma lift_res_Ok {A} (x : Res A) (st st' : State) (a : A) :
  lift_res x st = (Ok a, st') → x = Ok a ∧ st' = st.
Proof. by intros [= -> <-]. Qed.

Ltac grows_tac :=
  repeat first
    [ apply Grows_ret | apply Grows_raise | apply Grows_get
    | apply Grows_lift_res | apply Grows_or_raise | apply Grows_assert
    | apply Grows_constant
    | apply Grows_bind; [|intros ?]
    | match goal with
      | |- Grows (match ?x with _ => _ end) => destruct x
      | |- Grows (if ?b then _ else _) => destruct b
      end ].

Section Properties.
Context `{Collaborators}.

Lemma constant_spec (z : Z) (st : State) :
  ∃ st', constant z st = (Ok (length (h_vars (heap st))), st')
         ∧ grows st st'
         ∧ literal (heap st') (length (h_vars (heap st))) z.
Proof.
  eexists. split; [reflexivity|]. split.
  - split; [apply heap_le_alloc_var|done].
  - unfold literal, lookup_var. simpl. by rewrite lookup_app_r, Nat.sub_diag.
Qed.

Lemma to_symbolic_int_grows (e : shape_elem) : Grows (to_symbolic_int e).
Proof.
  destruct e as [z|v]; unfold to_symbolic_int, check_integer_scalar; grows_tac.
Qed.

Lemma set_shape_dim_grows (t : Ty) (s : list shape_elem) (i : nat) :
  Grows (set_shape_dim t s i).
Proof.
  unfold set_shape_dim. grows_tac. apply to_symbolic_int_grows.
Qed.

Lemma set_shape_dim_recorded (t : Ty) (s : list shape_elem) (i : nat)
    (st st' : State) (c : var) :
  set_shape_dim t s i st = (Ok c, st') → dim_recorded t s i c (heap st').
Proof.
  unfold set_shape_dim, dim_recorded.
  destruct (pinned t i) as [n|] eqn:Hp.
  - destruct (constant_spec n st) as (st1 & Hc & _ & Hlit).
    rewrite Hc. intros [= <- <-]. split; [by intros ? [= <-]|done].
  - intros Hrun. split; [done|]. intros _ Hs.
    rewrite Hs in Hrun. by injection Hrun as <- _.
Qed.

Lemma register_reverse_spec (r : var) (l : list var) (st : State) :
  ∃ st', register_reverse r l st = (Ok (), st')
         ∧ heap st' = heap st
         ∧ shape_of (feature st') = shape_of (feature st)
         ∧ scheduled (feature st') = scheduled (feature st)
         ∧ warnings st' = warnings st.
Proof.
  unfold register_reverse. revert st.
  induction l as [|sv l IH]; intros st; simpl; [by eexists|].
  unfold bind, modify_feature at 1.
  destruct (IH {| heap := heap st; feature := reverse_add sv r (feature st);
                  warnings := warnings st |}) as (st' & -> & ? & ? & ? & ?).
  by exists st'.
Qed.

(** What a call of [set_shape] with a sequence leaves behind when it
    returns. *)
Lemma set_shape_spec (r : var) (s : list shape_elem) (override : bool)
    (st st' : State) :
  set_shape r (Some s) override st = (Ok (), st') →
  ∃ shape_vars,
    shape_of (feature st') = <[r := Some shape_vars]> (shape_of (feature st))
    ∧ scheduled (feature st') = scheduled (feature st)
    ∧ heap_le (heap st) (heap st')
    ∧ type_ndim (type_of (heap st) r) = Some (length s)
    ∧ Forall2 (λ i c, dim_recorded (type_of (heap st) r) s i c (heap st'))
              (seq 0 (length s)) shape_vars.
Proof.
  unfold set_shape. intros Hrun.
  apply bind_Ok in Hrun as (? & ? & [= <- <-] & Hrun).
  apply bind_Ok in Hrun as ([] & st0 & Hguard & Hrun).
  assert (st0 = st) as ->.
  { destruct override; simpl in Hguard; [by injection Hguard|].
    by apply assert_Ok in Hguard as [_ ->]. }
  clear Hguard.
  apply bind_Ok in Hrun as (ndim & ? & [Hnd ->]%or_raise_Ok & Hrun).
  case_bool_decide as Hlen; simpl in Hrun; [subst ndim|done].
  apply bind_Ok in Hrun as (shape_vars & st1 & Hloop & Hrun).
  apply bind_Ok in Hrun as (? & ? & [= <- <-] & Hrun).
  apply bind_Ok in Hrun as (ok & ? & [_ ->]%lift_res_Ok & Hrun).
  apply bind_Ok in Hrun as ([] & ? & [_ ->]%assert_Ok & Hrun).
  apply bind_Ok in Hrun as ([] & st2 & [= <-] & Hrun).
  destruct (register_reverse_spec r shape_vars
              {| heap := heap st1;
                 feature := shape_of_set r (Some shape_vars) (feature st1);
                 warnings := warnings st1 |})
    as (st3 & Hreg & Hheap & Hshape & Hsched & _).
  rewrite Hreg in Hrun. injection Hrun as <-.
  set (t := type_of (heap st) r) in *.
  eapply (mapM_grows _ (λ i c st, dim_recorded t s i c (heap st))) in Hloop
    as [(Hle & Hf & _) Hall].
  - exists shape_vars. rewrite Hshape, Hsched, Hheap. simpl. rewrite Hf.
    repeat split; try done; try apply Hle. by apply Hall.
  - intros i. apply set_shape_dim_grows.
  - intros i st0 c st0'. apply set_shape_dim_recorded.
  - intros i c st0 st0' Hg [Hpin Hone]. split; [|done].
    intros n Hn. eapply literal_grows; [done|]. by apply Hpin.
Qed.

End Properties.

Section Properties.
Context `{Collaborators}.

End Properties.

Section Properties.
Context `{Collaborators}.

(** *** [set_shape] and [get_shape]: the static type is the authority *)

Lemma py_index_nat {A} (l : list A) (i : nat) : py_index l (Z.of_nat i) = l !! i.
Proof.
  unfold py_index. rewrite (proj2 (Z.leb_le _ _)) by lia. by rewrite Nat2Z.id.
Qed.

Lemma pinned_lt (t : Ty) (i : nat) (n : Z) (ndim : nat) :
  pinned t i = Some n → type_ndim t = Some ndim → i < ndim.
Proof.
  destruct t as [d sh|]; simpl; [|done].
  intros Hp [= <-]. apply lookup_lt_is_Some.
  destruct (sh !! i); [by eexists|done].
Qed.

(** [get_shape] answers with the entry itself when the entry is a literal:
    a constant has no owner, so that the entry is not stale. *)
Lemma get_shape_literal (fuel : nat) (fg : Graph) (st : State) (v : var)
    (sh : list var) (i : nat) (c : var) (n : Z) :
  shape_of (feature st) !! v = Some (Some sh) →
  sh !! i = Some c →
  literal (heap st) c n →
  get_shape (S fuel) fg v (Z.of_nat i) st = (Ok c, st).
Proof.
  intros Hv Hi Hc. simpl. unfold lookup_dim. run.
  rewrite Hv. simpl. rewrite py_index_nat, Hi. simpl.
  unfold stale, owner_of. by rewrite Hc.
Qed.

Lemma set_shape_records_literals (r : var) (l : list shape_elem)
    (override : bool) (st st' : State) :
  set_shape r (Some l) override st = (Ok (), st') →
  ∃ sh, shape_of (feature st') !! r = Some (Some sh)
        ∧ ∀ i n, pinned (type_of (heap st) r) i = Some n →
                 ∃ c, sh !! i = Some c ∧ literal (heap st') c n.
Proof.
  intros (sh & Hshape & _ & _ & Hnd & Hall)%set_shape_spec.
  exists sh. split; [by rewrite Hshape, lookup_insert_eq|].
  intros i n Hp.
  pose proof (pinned_lt _ _ _ _ Hp Hnd) as Hlt.
  destruct (Forall2_lookup_l _ _ _ i i Hall) as (c & Hc & Hrec & _).
  { by apply lookup_seq_lt. }
  exists c. split; [done|]. by apply Hrec.
Qed.

Lemma set_shape_None (r : var) (override : bool) (st st' : State) :
  set_shape r None override st = (Ok (), st') →
  st' = {| heap := heap st; feature := shape_of_set r None (feature st);
           warnings := warnings st |}.
Proof.
  unfold set_shape. intros Hrun.
  apply bind_Ok in Hrun as (? & ? & [= <- <-] & Hrun).
  apply bind_Ok in Hrun as ([] & st0 & Hguard & Hrun).
  assert (st0 = st) as ->.
  { destruct override; simpl in Hguard; [by injection Hguard|].
    by apply assert_Ok in Hguard as [_ ->]. }
  by injection Hrun.
Qed.

Lemma set_shape_preserves_index_ok (r : var) (s : option (list shape_elem))
    (override : bool) (st st' : State) :
  shape_index_ok st →
  is_Some (lookup_var (heap st) r) →
  set_shape r s override st = (Ok (), st') →
  shape_index_ok st'.
Proof.
  intros [Hlive Hpin] Hr Hrun. destruct s as [l|].
  - pose proof (set_shape_records_literals _ _ _ _ _ Hrun)
      as (sh & Hsh & Hlit).
    apply set_shape_spec in Hrun as (sh' & Hshape & _ & Hle & _ & _).
    split.
    + intros v. rewrite Hshape.
      destruct (decide (r = v)) as [<-|Hne].
      * intros _. destruct Hr as [o Ho]. exists o. by eapply lookup_var_le.
      * rewrite lookup_insert_ne by done. intros [o Ho]%Hlive.
        exists o. by eapply lookup_var_le.
    + intros v shv i n Hv Hp.
      destruct (decide (r = v)) as [<-|Hne].
      * rewrite Hsh in Hv. injection Hv as <-.
        apply Hlit. by rewrite <- (type_of_le _ _ _ Hle Hr).
      * rewrite Hshape, lookup_insert_ne in Hv by done.
        assert (Hvl : is_Some (lookup_var (heap st) v)) by (apply Hlive; by eexists).
        rewrite (type_of_le _ _ _ Hle Hvl) in Hp.
        destruct (Hpin _ _ _ _ Hv Hp) as (c & Hc & Hcl).
        exists c. split; [done|]. by eapply lookup_var_le.
  - apply set_shape_None in Hrun as ->. split.
    + intros v. simpl.
      destruct (decide (r = v)) as [<-|Hne]; [done|].
      rewrite lookup_insert_ne by done. apply Hlive.
    + intros v shv i n. simpl.
      destruct (decide (r = v)) as [<-|Hne].
      * by rewrite lookup_insert_eq.
      * rewrite lookup_insert_ne by done. apply Hpin.
Qed.

Lemma mapM_ext {A B} (f g : A → M B) (l : list A) :
  (∀ x, f x = g x) → mapM f l = mapM g l.
Proof.
  intros Hfg. induction l as [|x l IH]; simpl; [done|]. by rewrite Hfg, IH.
Qed.

(** The sizes inferred for the pinned dimensions are not looked at. *)
Lemma set_shape_ignores_pinned (r : var) (l l' : list shape_elem)
    (override : bool) (st : State) :
  length l' = length l →
  (∀ i, pinned (type_of (heap st) r) i = None → l' !! i = l !! i) →
  set_shape r (Some l') override st = set_shape r (Some l) override st.
Proof.
  intros Hlen Hsame.
  assert (Hdims : ∀ dims, mapM (set_shape_dim (type_of (heap st) r) l') dims
                          = mapM (set_shape_dim (type_of (heap st) r) l) dims).
  { intros dims. apply mapM_ext. intros i. unfold set_shape_dim.
    destruct (pinned (type_of (heap st) r) i) eqn:Hp; [done|].
    by rewrite Hsame. }
  unfold set_shape. run. rewrite Hlen.
  destruct override; simpl.
  - destruct (type_ndim _); simpl; [|done].
    destruct (negb _); [done|]. by rewrite Hdims.
  - case_bool_decide; simpl; [|done].
    destruct (type_ndim _); simpl; [|done].
    destruct (negb _); [done|]. by rewrite Hdims.
Qed.

(** A constant that [r] already has at a dimension survives the merge of
    [update_shape], whatever the candidate is. *)
Lemma merge_dim_keeps_constant (h : Heap) (r other_r : var)
    (r_shape : list var) (i : nat) (rs ps : var) :
  r_shape !! i = Some rs →
  is_Constant h rs = true →
  merge_dim h r other_r (Some r_shape) i ps = Ok rs
  ∨ merge_dim h r other_r (Some r_shape) i ps = Raise IndexError.
Proof.
  intros Hrs Hc. unfold merge_dim. rewrite Hrs, Hc.
  unfold uninformative. destruct (owner_Shape_i h ps) as [[n k]|]; [|by left].
  case_bool_decide; [|by left].
  destruct (node_inputs h n); [by right|].
  destruct (_ || _); by left.
Qed.

Lemma shape_index_ok_empty (st : State) :
  shape_of (feature st) = ∅ → shape_index_ok st.
Proof.
  intros Hempty. split.
  - intros v. rewrite Hempty, lookup_empty. by intros [? ?].
  - intros v sh i n. by rewrite Hempty, lookup_empty.
Qed.

End Properties.

(** C1 is not met: [get_shape] does not always yield the literal of the
    static type.  The matrix [1] has the static shape [(None, 5)] and the
    recorded tuple holds the literal 5 at dimension 1.  Once
    [set_shape(r, None, override=True)] declares the shape unknown,
    [get_shape(r, 1)] fails on its assertion; once [set_shape_i(r, 1, s_i)]
    replaces the entry by the constant 7, [get_shape(r, 1)] yields that
    constant.  And for a vector of static length 5 whose shape is unknown,
    [update_shape] records the tuple of the other variable as it is, so
    that [get_shape] yields a scalar input. *)
Lemma get_shape_after_other_updates :
  shape_index_ok Demo.st_matrix_recorded
  ∧ pinned (type_of (heap Demo.st_matrix_recorded) 1) 1 = Some 5%Z
  ∧ set_shape (H := Demo.W) 1 None true Demo.st_matrix_recorded
    = (Ok (), Demo.st_matrix_forgotten)
  ∧ get_shape (H := Demo.W) 1 Demo.no_graph 1 1 Demo.st_matrix_forgotten
    = (Raise (AssertionError no_message), Demo.st_matrix_forgotten)
  ∧ set_shape_i (H := Demo.W) 1 1 (EVar 2) Demo.st_matrix_recorded
    = (Ok (), Demo.st_matrix_replaced)
  ∧ get_shape (H := Demo.W) 1 Demo.no_graph 1 1 Demo.st_matrix_replaced
    = (Ok 2, Demo.st_matrix_replaced)
  ∧ literal (heap Demo.st_matrix_replaced) 2 7
  ∧ shape_index_ok Demo.st_pinned_unknown
  ∧ pinned (type_of (heap Demo.st_pinned_unknown) 1) 0 = Some 5%Z
  ∧ update_shape (H := Demo.W) 1 2 Demo.st_pinned_unknown
    = (Ok (), Demo.st_pinned_updated)
  ∧ get_shape (H := Demo.W) 1 Demo.no_graph 1 0 Demo.st_pinned_updated
    = (Ok 3, Demo.st_pinned_updated)
  ∧ lookup_var (heap Demo.st_pinned_updated) 3
    = Some {| v_type := int64_scalar; v_kind := Input |}
  ∧ ¬ get_shape_always_yields_the_literal.
Proof.
  assert (Hrecorded : shape_index_ok Demo.st_matrix_recorded).
  { apply (set_shape_preserves_index_ok (H := Demo.W) 1
             (Some [ENum 7; ENum 3]) false Demo.st_matrix).
    - by apply shape_index_ok_empty.
    - by eexists.
    - reflexivity. }
  assert (Hreplaced :
            get_shape (H := Demo.W) 1 Demo.no_graph 1 1 Demo.st_matrix_replaced
            = (Ok 2, Demo.st_matrix_replaced)) by (by vm_compute).
  split; [exact Hrecorded|].
  split; [reflexivity|]. split; [by vm_compute|]. split; [by vm_compute|].
  split; [by vm_compute|]. split; [exact Hreplaced|].
  split; [by vm_compute|].
  split.
  { apply (set_shape_preserves_index_ok (H := Demo.W) 2 (Some [EVar 3]) false
             (set_shape (H := Demo.W) 1 None false
                (Demo.state_of Demo.heap_pinned_vector Demo.no_feature)).2).
    - apply (set_shape_preserves_index_ok (H := Demo.W) 1 None false
               (Demo.state_of Demo.heap_pinned_vector Demo.no_feature)).
      + by apply shape_index_ok_empty.
      + by eexists.
      + reflexivity.
    - by eexists.
    - reflexivity. }
  split; [reflexivity|]. split; [by vm_compute|]. split; [by vm_compute|].
  split; [by vm_compute|].
  intros Hclaim.
  destruct (Hclaim Demo.W Demo.no_graph Demo.st_matrix_recorded
                   Demo.st_matrix_replaced 1 1 5%Z 0 Hrecorded)
    as (c & st'' & Hrun & Hlit).
  - apply (by_set_shape_i _ 1 1%Z (EVar 2)). by vm_compute.
  - exists (Some [2; 2]). by vm_compute.
  - reflexivity.
  - change (Z.of_nat 1) with 1%Z in Hrun. rewrite Hreplaced in Hrun.
    injection Hrun as <- <-. vm_compute in Hlit. discriminate Hlit.
Qed.

Section Properties.
Context `{Collaborators}.

(** C1, amended. When [set_shape(r, l, override)] returns, the tuple it
    recorded for [r] holds, at every dimension [i] that the static type of
    [r] pins to a size [n], an [int64] constant of value [n], and
    [get_shape(r, i)] returns that constant; what [l] holds at the pinned
    dimensions has no effect at all on the call.  More generally the
    property "every tracked tuple holds the literal of the static type at
    each pinned dimension" is kept by [set_shape], and as long as it holds
    [get_shape(v, i)] returns the literal [n] for every [v] that has a
    tuple. *)
Theorem pinned_dimensions_are_literal (fg : Graph) (st st' : State) (r : var)
    (l : list shape_elem) (override : bool) :
  set_shape r (Some l) override st = (Ok (), st') →
  (∃ sh, shape_of (feature st') !! r = Some (Some sh)
         ∧ ∀ i n fuel, pinned (type_of (heap st) r) i = Some n →
             ∃ c, sh !! i = Some c
                  ∧ literal (heap st') c n
                  ∧ get_shape (S fuel) fg r (Z.of_nat i) st' = (Ok c, st'))
  ∧ (∀ l', length l' = length l →
       (∀ i, pinned (type_of (heap st) r) i = None → l' !! i = l !! i) →
       set_shape r (Some l') override st = (Ok (), st'))
  ∧ (shape_index_ok st → is_Some (lookup_var (heap st) r) →
     shape_index_ok st'
     ∧ ∀ v sh i n fuel,
         shape_of (feature st') !! v = Some (Some sh) →
         pinned (type_of (heap st') v) i = Some n →
         ∃ c, sh !! i = Some c
              ∧ literal (heap st') c n
              ∧ get_shape (S fuel) fg v (Z.of_nat i) st' = (Ok c, st')).
Proof.
  intros Hrun. split; [|split].
  - destruct (set_shape_records_literals _ _ _ _ _ Hrun) as (sh & Hsh & Hlit).
    exists sh. split; [done|]. intros i n fuel Hp.
    destruct (Hlit i n Hp) as (c & Hc & Hcl).
    exists c. repeat split; try done. by eapply get_shape_literal.
  - intros l' Hlen Hsame. by rewrite (set_shape_ignores_pinned _ l l').
  - intros Hok Hr.
    pose proof (set_shape_preserves_index_ok _ _ _ _ _ Hok Hr Hrun) as Hok'.
    split; [done|]. intros v sh i n fuel Hv Hp.
    destruct Hok' as [_ Hpin].
    destruct (Hpin _ _ _ _ Hv Hp) as (c & Hc & Hcl).
    exists c. repeat split; try done. by eapply get_shape_literal.
Qed.

(** C9 is not met: a constant of value 1 that an inference rule hands over
    as a [Variable] is stored as it is, next to the singleton. *)
Lemma a_second_one_is_stored :
  set_shape (H := Demo.W) 2 (Some [EVar 1]) false Demo.st_two_ones
  = (Ok (), Demo.st_second_one)
  ∧ shape_of (feature Demo.st_second_one) !! 2 = Some (Some [1])
  ∧ equals (heap Demo.st_second_one) lscalar_one 1 = true
  ∧ 1 ≠ lscalar_one
  ∧ ¬ every_stored_one_is_the_singleton.
Proof.
  repeat split; try by vm_compute.
  intros Hclaim.
  specialize (Hclaim Demo.W Demo.st_two_ones Demo.st_second_one
                     2 [EVar 1] false [1] 0 1 eq_refl eq_refl).
  assert (Hfalse : 1 = lscalar_one); [|discriminate Hfalse].
  apply Hclaim; by vm_compute.
Qed.

(** C9, amended. [to_symbolic_int] answers the number 1 with the singleton
    [lscalar_one], and builds nothing; hence the tuple that [set_shape]
    records holds the singleton at every dimension that the static type does
    not pin and whose inferred size is the number 1. *)
Theorem numeric_one_is_the_singleton (st : State) :
  to_symbolic_int (ENum 1) st = (Ok lscalar_one, st)
  ∧ ∀ r l override st' i,
      set_shape r (Some l) override st = (Ok (), st') →
      pinned (type_of (heap st) r) i = None →
      l !! i = Some (ENum 1) →
      ∃ sh, shape_of (feature st') !! r = Some (Some sh)
            ∧ sh !! i = Some lscalar_one.
Proof.
  split; [done|].
  intros r l override st' i (sh & Hshape & _ & _ & Hnd & Hall)%set_shape_spec
         Hp Hl.
  exists sh. split; [by rewrite Hshape, lookup_insert_eq|].
  destruct (Forall2_lookup_l _ _ _ i i Hall) as (c & Hc & _ & Hone).
  { apply lookup_seq_lt. apply lookup_lt_is_Some. by eexists. }
  by rewrite Hc, (Hone Hp Hl).
Qed.

(** *** [set_shape]: the two guards *)

(** C8. [set_shape(r, s, override=False)] fails on its first assertion, and
    changes nothing, when [r] already has an entry in [shape_of]; whatever
    [override] is, once that guard is passed [set_shape(r, s, override)]
    fails with the error on the number of dimensions, and changes nothing,
    when [s] is a sequence whose length is not [r.type.ndim]; and an entry
    that exists is replaced when [override] is true. *)
Theorem set_shape_guards (st : State) (r : var) :
  (∀ s, is_Some (shape_of (feature st) !! r) →
     set_shape r s false st
     = (Raise (AssertionError "r already in shape_of"), st))
  ∧ (∀ l n override,
       override = true ∨ shape_of (feature st) !! r = None →
       type_ndim (type_of (heap st) r) = Some n →
       n ≠ length l →
       set_shape r (Some l) override st
       = (Raise (AssertionError
                   "A shape with the wrong number of dimensions was inferred"),
          st))
  ∧ (∀ old, shape_of (feature st) !! r = Some old →
       set_shape r None true st
       = (Ok (), {| heap := heap st;
                    feature := shape_of_set r None (feature st);
                    warnings := warnings st |})).
Proof.
  split; [|split].
  - intros s [old Hold]. unfold set_shape. run.
    rewrite bool_decide_eq_false_2; [done|]. by rewrite Hold.
  - intros l n override Hguard Hnd Hlen. unfold set_shape. run.
    destruct override; simpl in *.
    + rewrite Hnd. simpl. by rewrite bool_decide_eq_false_2.
    + destruct Hguard as [? | Hnone]; [done|].
      rewrite Hnone. simpl. rewrite Hnd. simpl.
      by rewrite bool_decide_eq_false_2.
  - intros old Hold. unfold set_shape. by run.
Qed.

(** *** [update_shape]: the merge *)

Lemma uninformative_spec (h : Heap) (r other_r : var) (i : nat) (ps : var) :
  accessors_have_an_input h →
  ∃ b, uninformative h r other_r i ps = Ok b
       ∧ (b = true ↔ same_dimension_accessor h r other_r i ps).
Proof.
  intros Hwf. unfold uninformative, owner_Shape_i, same_dimension_accessor.
  destruct (owner_of h ps) as [n|] eqn:Hn.
  2: { exists false. split; [done|]. split; [done|]. by intros (? & ? & ? & ? & _). }
  destruct (node_op h n) as [o|] eqn:Ho.
  2: { exists false. split; [done|]. split; [done|].
       intros (? & ? & ? & [= <-] & ? & _). congruence. }
  destruct o as [k| | | |];
    try (exists false; split; [done|]; split; [done|];
         intros (? & ? & ? & [= <-] & ? & _); congruence).
  case_bool_decide as Hk.
  2: { exists false. split; [done|]. split; [done|].
       intros (? & ? & ? & [= <-] & ? & _). congruence. }
  subst k. destruct (node_inputs h n) as [|x rest] eqn:Hin.
  { by destruct (Hwf _ _ Ho). }
  eexists. split; [done|]. rewrite orb_true_iff, !bool_decide_eq_true. split.
  - intros Hx. by exists n, x, rest.
  - intros (n' & x' & rest' & Hn' & _ & Hin' & Hx).
    injection Hn' as <-. rewrite Hin in Hin'. by injection Hin' as <- _.
Qed.

Lemma merge_dim_preferred (h : Heap) (r other_r : var) (r_shape : list var)
    (i : nat) (rs ps : var) :
  accessors_have_an_input h →
  r_shape !! i = Some rs →
  ∃ m, merge_dim h r other_r (Some r_shape) i ps = Ok m
       ∧ preferred h r other_r i rs ps m.
Proof.
  intros Hwf Hrs. unfold merge_dim. rewrite Hrs.
  destruct (uninformative_spec h r other_r i ps Hwf) as (b & -> & Hb).
  destruct b.
  - exists rs. split; [done|]. apply existing_over_accessor. by apply Hb.
  - assert (Hno : ¬ same_dimension_accessor h r other_r i ps).
    { intros Hacc. by apply Hb in Hacc. }
    destruct (is_Constant h rs) eqn:Hcr.
    { exists rs. split; [done|]. apply constant_over_symbolic; auto. }
    destruct (is_Constant h ps) eqn:Hcp.
    { exists ps. split; [done|]. apply constant_over_symbolic; auto. }
    case_bool_decide as Heq.
    { exists rs. split; [done|]. by apply either_when_identical. }
    case_bool_decide as Hanc.
    + exists rs. split; [done|]. by apply existing_over_dependent.
    + exists ps. split; [done|]. by apply candidate_otherwise.
Qed.

Lemma merge_from_preferred (h : Heap) (r other_r : var) (r_shape : list var)
    (other_shape : list var) (i0 : nat) :
  accessors_have_an_input h →
  i0 + length other_shape ≤ length r_shape →
  ∃ merged,
    merge_from h r other_r (Some r_shape) i0 other_shape = Ok merged
    ∧ length merged = length other_shape
    ∧ ∀ k ps, other_shape !! k = Some ps →
        ∃ rs m, r_shape !! (i0 + k) = Some rs ∧ merged !! k = Some m
                ∧ preferred h r other_r (i0 + k) rs ps m.
Proof.
  intros Hwf. revert i0.
  induction other_shape as [|ps rest IH]; intros i0 Hlen;
    simpl in Hlen; cbn [merge_from].
  - exists []. by repeat split.
  - destruct (lookup_lt_is_Some_2 r_shape i0) as [rs Hrs]; [lia|].
    destruct (merge_dim_preferred h r other_r r_shape i0 rs ps Hwf Hrs)
      as (m & -> & Hm).
    destruct (IH (S i0)) as (ms & -> & Hlen' & Hall); [lia|].
    exists (m :: ms). split; [done|]. split; [simpl; lia|].
    intros [|k] ps' Hps; simpl in *.
    + injection Hps as <-. exists rs, m. by rewrite Nat.add_0_r.
    + destruct (Hall k ps' Hps) as (rs' & m' & ? & ? & ?).
      exists rs', m'. by rewrite <- Nat.add_succ_comm.
Qed.

(** C2. When both [r] and [other_r] have a tuple, the tuple of [other_r] is
    not longer than the tuple of [r], the two variables are not outputs of
    the same application, and the closing assertion on dimensions of static
    size 1 holds, [update_shape(r, other_r)] returns and records for [r] a
    tuple as long as the tuple of [other_r] whose entry at each dimension is
    the preferred one for the existing entry and the candidate: the
    existing entry over a [Shape_i] of that dimension of [r] or [other_r],
    else a constant, else the existing entry when the two are identical or
    when the candidate depends on it, else the candidate. *)
Theorem update_shape_merges (st : State) (r other_r : var)
    (r_shape other_shape : list var) (ndim : nat) :
  shape_of (feature st) !! other_r = Some (Some other_shape) →
  shape_of (feature st) !! r = Some (Some r_shape) →
  same_application (heap st) r other_r = false →
  length other_shape ≤ length r_shape →
  accessors_have_an_input (heap st) →
  type_ndim (type_of (heap st) r) = Some ndim →
  (∀ merged,
     merge_from (heap st) r other_r (Some r_shape) 0 other_shape = Ok merged →
     all_res (merged_one_ok (heap st) r other_r merged) (seq 0 ndim) = Ok true) →
  ∃ merged st',
    update_shape r other_r st = (Ok (), st')
    ∧ shape_of (feature st') = <[r := Some merged]> (shape_of (feature st))
    ∧ heap st' = heap st
    ∧ length merged = length other_shape
    ∧ ∀ i ps, other_shape !! i = Some ps →
        ∃ rs m, r_shape !! i = Some rs ∧ merged !! i = Some m
                ∧ preferred (heap st) r other_r i rs ps m.
Proof.
  intros Ho Hr Hsame Hlen Hwf Hnd Hassert.
  destruct (merge_from_preferred (heap st) r other_r r_shape other_shape 0 Hwf)
    as (merged & Hmerge & Hlen' & Hall); [done|].
  destruct (register_reverse_spec r merged
              {| heap := heap st;
                 feature := shape_of_set r (Some merged) (feature st);
                 warnings := warnings st |})
    as (st' & Hreg & Hheap & Hshape & _ & _).
  exists merged, st'. split; [|by repeat split].
  unfold update_shape. run. rewrite Ho, Hr, Hsame. simpl.
  rewrite Hmerge, Hnd. simpl. rewrite (Hassert _ Hmerge). simpl.
  exact Hreg.
Qed.

(** *** [update_shape]: the two early returns *)

(** C10. [update_shape(r, other_r)] returns without touching the feature
    (nor anything else) when the entry of [other_r] is [None], and, for a
    tracked [r], when [r] and [other_r] are owned by nodes with equal
    operators and equal input lists. *)
Theorem update_shape_frame (st : State) (r other_r : var) :
  (shape_of (feature st) !! other_r = Some None →
     update_shape r other_r st = (Ok (), st))
  ∧ (∀ n n',
       is_Some (shape_of (feature st) !! r) →
       owner_of (heap st) r = Some n →
       owner_of (heap st) other_r = Some n' →
       node_op (heap st) n' = node_op (heap st) n →
       node_inputs (heap st) n' = node_inputs (heap st) n →
       (update_shape r other_r st).2 = st
       ∧ (is_Some (shape_of (feature st) !! other_r) →
          (update_shape r other_r st).1 = Ok ())).
Proof.
  split.
  - intros Hnone. unfold update_shape. run. by rewrite Hnone.
  - intros n n' [r_shape Hr] Hn Hn' Hop Hin.
    unfold update_shape. run.
    destruct (shape_of (feature st) !! other_r) as [[other_shape|]|] eqn:Ho;
      simpl; [|split; [done|by intros _]|split; [done|by intros []]].
    rewrite Hr. unfold same_application. rewrite Hn, Hn', Hop, Hin.
    rewrite !bool_decide_eq_true_2 by done. simpl. split; [done|by intros _].
Qed.

(** *** [get_node_infer_shape]: what becomes of a rule that raises *)

(** C5 is not met: under a policy other than ["raise"], a rule that raises
    [NotImplementedError] gets neither warning nor fallback. *)
Lemma not_implemented_ignores_the_policy :
  get_node_infer_shape (H := Demo.W) Demo.no_graph 0
    (Demo.st_of_op (OtherOp "old_style"))
  = (Raise NotImplementedError, Demo.st_of_op (OtherOp "old_style"))
  ∧ on_shape_error (Collaborators := Demo.W) ≠ "raise"
  ∧ ¬ any_other_error_follows_the_policy.
Proof.
  split; [reflexivity|]. split; [discriminate|].
  intros Hclaim.
  specialize (Hclaim Demo.W Demo.no_graph 0
                     (Demo.st_of_op (OtherOp "old_style"))
                     (OtherOp "old_style") _ [] NotImplementedError ([], [])
                     eq_refl eq_refl eq_refl eq_refl).
  vm_compute in Hclaim. discriminate Hclaim.
Qed.

(** An extension of the arena keeps the objects it had. *)
Lemma node_inputs_extend (h : Heap) (new : list VarObj * list ApplyObj)
    (node : apply) (o : Op) :
  node_op h node = Some o →
  node_inputs (extend h new) node = node_inputs h node.
Proof.
  unfold node_op, node_inputs, lookup_node, extend. simpl.
  destruct (h_nodes h !! node) as [a|] eqn:Ha; [|done].
  intros _. by rewrite (lookup_app_l_Some _ _ _ _ Ha).
Qed.

(** C5, amended. When the rule of the operator raises [e] and leaves the
    state [st']: for [ShapeError] the result is the fallback
    [default_infer_shape] run from [st']; for [NotImplementedError] a
    [NotImplementedError] is raised whatever the policy; for any other
    exception the policy decides: ["raise"] raises the exception that
    carries the report, any other value records the report as a warning and
    then runs the fallback. *)
Theorem get_node_infer_shape_failures (fg : Graph) (node : apply) (st : State)
    (o : Op) (rule : InferRule) (i_shapes : list (option (list var)))
    (e : exn) (new : list VarObj * list ApplyObj) :
  node_op (heap st) node = Some o →
  infer_shape o = Some rule →
  input_shapes st node = Some i_shapes →
  rule fg (heap st) node i_shapes = (Raise e, new) →
  let st' := after_rule st new in
  (e = ShapeError →
     get_node_infer_shape fg node st = default_infer_shape node st')
  ∧ (e = NotImplementedError →
     get_node_infer_shape fg node st = (Raise NotImplementedError, st'))
  ∧ (e ≠ ShapeError → e ≠ NotImplementedError →
     on_shape_error = "raise" →
     get_node_infer_shape fg node st = (Raise (Exception infer_failed), st'))
  ∧ (e ≠ ShapeError → e ≠ NotImplementedError →
     on_shape_error ≠ "raise" →
     get_node_infer_shape fg node st
     = (warn infer_failed ;;; default_infer_shape node) st').
Proof.
  intros Hop Hinfer Hin Hrule st'.
  assert (Hin' : input_shapes st' node = Some i_shapes).
  { unfold input_shapes in *. simpl.
    by rewrite (node_inputs_extend _ _ _ _ Hop). }
  assert (Hin'' : ∀ msg, input_shapes
            {| heap := heap st'; feature := feature st';
               warnings := warnings st' ++ msg |} node = Some i_shapes) by done.
  assert (Hrun : get_node_infer_shape fg node st
                 = match e with
                   | ShapeError => default_infer_shape node st'
                   | NotImplementedError => (Raise NotImplementedError, st')
                   | _ => if bool_decide (on_shape_error = "raise")
                          then (Raise (Exception infer_failed), st')
                          else (warn infer_failed ;;; default_infer_shape node) st'
                   end).
  { unfold get_node_infer_shape, catch. run. rewrite Hop. simpl.
    rewrite Hinfer, Hin. simpl. unfold run_rule. rewrite Hrule.
    fold (after_rule st new). fold st'.
    destruct e; try reflexivity; rewrite Hin'; simpl;
      try reflexivity; case_bool_decide; try reflexivity;
      unfold warn; simpl; by rewrite Hin''. }
  rewrite Hrun. repeat split.
  - by intros ->.
  - by intros ->.
  - intros ? ? Hp. rewrite bool_decide_eq_true_2 by done. by destruct e.
  - intros ? ? Hp. rewrite bool_decide_eq_false_2 by done. by destruct e.
Qed.

(** *** [on_change_input]: the accessors of the replaced variable *)







(** *** [same_shape] *)

(** C6 is not met: a value whose tracked shape is unknown does not have the
    same shape as itself. *)
Lemma unknown_shape_differs_from_itself :
  same_shape (H := Demo.W) 1 1 None None
    (Demo.state_of Demo.heap_NoneConst Demo.feature_NoneConst)
  = (Ok false, Demo.state_of Demo.heap_NoneConst Demo.feature_NoneConst)
  ∧ ¬ same_shape_of_a_value_with_itself.
Proof.
  split; [reflexivity|].
  intros Hclaim.
  specialize (Hclaim Demo.W
                     (Demo.state_of Demo.heap_NoneConst Demo.feature_NoneConst) 1).
  assert (Hfalse : Ok false = Ok true); [|discriminate Hfalse].
  apply Hclaim.
  - by intros l h i j _ Hij.
  - intros h v. simpl. by rewrite bool_decide_eq_true_2.
  - by eexists.
Qed.

Lemma forallb_zip_take_drop {A} (f : A → A → bool) (n : nat) (l : list A) :
  (∀ k, k < n → l !! k = l !! (n + k)) →
  (∀ a, f a a = true) →
  forallb (λ d, f d.1 d.2) (zip (take n l) (drop n l)) = true.
Proof.
  intros Hl Hf. apply forallb_forall. intros [a b] Hin.
  apply list_elem_of_In, elem_of_lookup_zip_with in Hin
    as (k & a' & b' & [= -> ->] & Ha & Hb).
  apply lookup_take_Some in Ha as [Ha Hk].
  rewrite lookup_drop, <- Hl, Ha in Hb by done.
  injection Hb as <-. apply Hf.
Qed.

(** C6, amended. A value whose tracked shape is a tuple has the same shape
    as itself, as long as the canonical graph gives one output to a variable
    listed twice and [equal_computations] is reflexive; [same_shape] answers
    false, whatever the dimensions asked for, when the index holds both
    values and one of the two shapes is unknown, and it answers false when
    the two tuples differ in length. *)
Theorem same_shape_properties (st : State) :
  canonical_outputs_agree →
  (∀ h v, equal_computations h v v = true) →
  (∀ x sx, shape_of (feature st) !! x = Some (Some sx) →
     (same_shape x x None None st).1 = Ok true)
  ∧ (∀ x y dim_x dim_y,
       is_Some (shape_of (feature st) !! x) →
       is_Some (shape_of (feature st) !! y) →
       shape_of (feature st) !! x = Some None
       ∨ shape_of (feature st) !! y = Some None →
       same_shape x y dim_x dim_y st = (Ok false, st))
  ∧ (∀ x y sx sy,
       shape_of (feature st) !! x = Some (Some sx) →
       shape_of (feature st) !! y = Some (Some sy) →
       length sx ≠ length sy →
       same_shape x y None None st = (Ok false, st)).
Proof.
  intros Hcanon Hrefl. split; [|split].
  - intros x sx Hx. unfold same_shape, restrict_dim. run. rewrite Hx. simpl.
    rewrite bool_decide_eq_true_2 by done. simpl.
    destruct (rewrite_graph (sx ++ sx) (heap st)) as [outs h'] eqn:Hrg. simpl.
    f_equal. apply forallb_zip_take_drop; [|apply Hrefl].
    intros k Hk.
    pose proof (Hcanon (sx ++ sx) (heap st) k (length sx + k)) as Hagree.
    rewrite Hrg in Hagree. apply Hagree.
    + apply lookup_lt_is_Some. rewrite length_app. lia.
    + rewrite lookup_app_l by done. rewrite lookup_app_r by lia.
      f_equal. lia.
  - intros x y dim_x dim_y [ox Hx] [oy Hy] Hnone.
    unfold same_shape. run. rewrite Hx, Hy. simpl.
    destruct Hnone as [Hn | Hn]; rewrite Hn in *; simplify_eq; [done|].
    by destruct ox.
  - intros x y sx sy Hx Hy Hlen. unfold same_shape, restrict_dim. run.
    rewrite Hx, Hy. simpl. by rewrite bool_decide_eq_false_2.
Qed.

End Properties.

(** ** Rewrites *)

Section RewriteProperties.
Context `{Collaborators}.

(** C7. For a [Shape_i] node of a graph with a [ShapeFeature]:
    when the node is a key of [scheduled], [local_track_shape_i] returns the
    component [shape_of[scheduled[node]][node.op.i]] and leaves the graph,
    the queue entry included, as it was; when the node is not a key, the
    rewriter declines. *)
Theorem local_track_shape_i_scheduled (fgraph : FunctionGraph)
    (f : ShapeFeature) (node : apply) (h : Heap) (i : Z) :
  node_op h node = Some (Shape_i i) →
  shape_feature fgraph = Some f →
  (∀ target sh s,
     scheduled f !! node = Some target →
     shape_of f !! target = Some (Some sh) →
     py_index sh i = Some s →
     local_track_shape_i fgraph node h = (Ok (Replace [s]), fgraph)
     ∧ (shape_feature (local_track_shape_i fgraph node h).2
        ≫= λ f', scheduled f' !! node) = Some target)
  ∧ (scheduled f !! node = None →
     local_track_shape_i fgraph node h = (Ok Decline, fgraph)).
Proof.
  intros Hop Hf. unfold local_track_shape_i. rewrite Hop, Hf. split.
  - intros target sh s Hsched Hsh Hs. rewrite Hsched.
    unfold shape_component. rewrite Hsh, Hs. simpl. by rewrite Hf.
  - by intros ->.
Qed.

(** *** [local_reshape_chain] *)

(** C4 is not met: the outer reshape has the static shape [(5,)], the fused
    reshape has the static shape [(3,)], and the rewriter returns the fused
    reshape. *)
Lemma reshape_chain_keeps_a_mismatch :
  (local_reshape_chain (H := Demo.W) is_Reshape
     Demo.fgraph_plain 1 Demo.heap_chain).1 = Ok (Replace [6])
  ∧ ¬ reshape_chain_declines_on_any_literal.
Proof.
  split; [reflexivity|].
  intros Hclaim.
  specialize (Hclaim Demo.W Demo.fgraph_plain 1
                     Demo.heap_chain _ (Reshape 1) 1 4 5 6 0 5%Z
                     eq_refl eq_refl eq_refl eq_refl eq_refl).
  assert (Hfalse : Ok (Replace [6]) = Ok Decline); [|discriminate Hfalse].
  apply Hclaim. by vm_compute.
Qed.

Lemma call_op_spec (o : Op) (args : list var) (h : Heap) (t : Ty) :
  output_type h o args = Ok t →
  ∃ h', call_op o args h = (Ok (length (h_vars h)), h')
        ∧ heap_le h h'
        ∧ lookup_node h' (length (h_nodes h))
          = Some {| op := o; inputs := args; outputs := [length (h_vars h)] |}
        ∧ lookup_var h' (length (h_vars h))
          = Some {| v_type := t; v_kind := Output (length (h_nodes h)) 0 |}.
Proof.
  intros Ht. unfold call_op. rewrite Ht. eexists. split; [done|].
  split; [|split].
  - etrans; [apply heap_le_alloc_node|apply heap_le_alloc_var].
  - unfold lookup_node. simpl. by rewrite lookup_app_r, Nat.sub_diag.
  - unfold lookup_var. simpl. by rewrite lookup_app_r, Nat.sub_diag.
Qed.

Lemma ones_agree_true (a b : list (option Z)) : ones_agree a b = true.
Proof.
  unfold ones_agree. apply forallb_forall. intros p _.
  by apply bool_decide_eq_true_2.
Qed.

(** C4, amended. [local_reshape_chain] declines on a node that is not a
    chain of two reshapes.  On a chain [reshape(reshape(x, s1), s2)] it
    builds [reshape(x, s2)], a new node with the operator of the outer
    reshape; it declines when the rank of this value differs from the rank
    of the output, and it returns this value when the ranks agree and
    neither static shape has a dimension of size 1, whatever the other
    literal sizes are. *)
Theorem local_reshape_chain_fuses (fgraph : FunctionGraph) (node : apply)
    (h : Heap) :
  (check_chain is_Reshape h node = Ok false →
     local_reshape_chain is_Reshape fgraph node h = (Ok Decline, h))
  ∧ (∀ o x s2 out t,
       check_chain is_Reshape h node = Ok true →
       chain_args h node = Ok (o, (x, s2)) →
       output_type h o [x; s2] = Ok t →
       node_outputs h node !! 0 = Some out →
       is_Some (lookup_var h out) →
       let rval := length (h_vars h) in
       ∃ h', call_op o [x; s2] h = (Ok rval, h')
         ∧ lookup_node h' (length (h_nodes h))
           = Some {| op := o; inputs := [x; s2]; outputs := [rval] |}
         ∧ owner_of h' rval = Some (length (h_nodes h))
         ∧ type_of h' rval = t
         ∧ (∀ n1 n2, type_ndim t = Some n1 →
              type_ndim (type_of h out) = Some n2 → n1 ≠ n2 →
              local_reshape_chain is_Reshape fgraph node h = (Ok Decline, h'))
         ∧ (∀ d1 sh1 d2 sh2,
              t = TensorType d1 sh1 → type_of h out = TensorType d2 sh2 →
              length sh1 = length sh2 →
              Some 1%Z ∉ sh1 → Some 1%Z ∉ sh2 →
              local_reshape_chain is_Reshape fgraph node h
              = (Ok (Replace [rval]), h'))).
Proof.
  split.
  - intros Hc. unfold local_reshape_chain. by rewrite Hc.
  - intros o x s2 out t Hc Hargs Ht Hout Hlive rval. subst rval.
    destruct (call_op_spec _ _ _ _ Ht) as (h' & Hcall & Hle & Hnode & Hvar).
    exists h'. split; [done|]. split; [done|].
    assert (Htype : type_of h' (length (h_vars h)) = t).
    { unfold type_of. by rewrite Hvar. }
    assert (Houts : ∃ rest, node_outputs h' node = out :: rest).
    { rewrite (node_outputs_le h h' node Hle).
      - destruct (node_outputs h node) as [|? rest]; [done|].
        injection Hout as ->. by exists rest.
      - unfold node_outputs in Hout.
        destruct (lookup_node h node); [by eexists|done]. }
    destruct Houts as [rest Houts].
    assert (Htout : type_of h' out = type_of h out) by by apply type_of_le.
    split; [|split; [done|split]].
    + unfold owner_of. by rewrite Hvar.
    + intros n1 n2 Hn1 Hn2 Hne. unfold local_reshape_chain.
      rewrite Hc, Hargs, Hcall, Houts, Htype, Htout.
      unfold chain_guard, ndim_attr. rewrite Hn1, Hn2. simpl.
      by rewrite bool_decide_eq_false_2.
    + intros d1 sh1 d2 sh2 -> Hto Hlen _ _. unfold local_reshape_chain.
      rewrite Hc, Hargs, Hcall, Houts, Htype, Htout, Hto.
      unfold chain_guard, ndim_attr. simpl.
      rewrite bool_decide_eq_true_2 by done. simpl.
      by rewrite ones_agree_true.
Qed.

End RewriteProperties.

(** * The theorems at work on small graphs *)

Lemma set_shape_guards_witness :
  set_shape (H := Demo.W) 2 (Some [ENum 4]) false Demo.st_tracked
  = (Raise (AssertionError "r already in shape_of"), Demo.st_tracked)
  ∧ set_shape (H := Demo.W) 2 (Some []) true Demo.st_tracked
    = (Raise (AssertionError
                "A shape with the wrong number of dimensions was inferred"),
       Demo.st_tracked)
  ∧ (set_shape (H := Demo.W) 2 None true Demo.st_tracked).1 = Ok ().
Proof.
  destruct (set_shape_guards (H := Demo.W) Demo.st_tracked 2) as (H1 & H2 & H3).
  split; [|split].
  - apply H1. exists (Some [0]). reflexivity.
  - apply (H2 [] 1 true).
    + left. reflexivity.
    + reflexivity.
    + intros Heq. discriminate Heq.
  - rewrite (H3 (Some [0])); reflexivity.
Defined.

Lemma update_shape_frame_witness :
  update_shape (H := Demo.W) 2 4 Demo.st_twins = (Ok (), Demo.st_twins)
  ∧ (update_shape (H := Demo.W) 2 3 Demo.st_twins).2 = Demo.st_twins
  ∧ (update_shape (H := Demo.W) 2 3 Demo.st_twins).1 = Ok ().
Proof.
  destruct (update_shape_frame (H := Demo.W) Demo.st_twins 2 4) as [H1 _].
  destruct (update_shape_frame (H := Demo.W) Demo.st_twins 2 3) as [_ H2].
  split.
  - apply H1. reflexivity.
  - destruct (H2 0 1) as [Hst Hres].
    + exists (Some [0]). reflexivity.
    + reflexivity.
    + reflexivity.
    + reflexivity.
    + reflexivity.
    + split; [exact Hst|]. apply Hres. exists (Some [0]). reflexivity.
Defined.

Lemma local_track_shape_i_scheduled_witness :
  local_track_shape_i (Demo.fgraph_of Demo.feature_scheduled) 0 Demo.heap_accessor
  = (Ok (Replace [0]), Demo.fgraph_of Demo.feature_scheduled)
  ∧ local_track_shape_i (Demo.fgraph_of Demo.feature_accessor) 0 Demo.heap_accessor
    = (Ok Decline, Demo.fgraph_of Demo.feature_accessor).
Proof.
  split.
  - destruct (local_track_shape_i_scheduled
                (Demo.fgraph_of Demo.feature_scheduled) Demo.feature_scheduled
                0 Demo.heap_accessor 0%Z eq_refl eq_refl) as [H1 _].
    destruct (H1 3 [0] 0) as [Hres _]; [reflexivity..|exact Hres].
  - destruct (local_track_shape_i_scheduled
                (Demo.fgraph_of Demo.feature_accessor) Demo.feature_accessor
                0 Demo.heap_accessor 0%Z eq_refl eq_refl) as [_ H2].
    apply H2. reflexivity.
Defined.

Lemma get_node_infer_shape_failures_witness :
  get_node_infer_shape (H := Demo.W) Demo.no_graph 0
    (Demo.st_of_op (OtherOp "cannot"))
  = default_infer_shape (H := Demo.W) 0 (Demo.st_of_op (OtherOp "cannot"))
  ∧ (get_node_infer_shape (H := Demo.W) Demo.no_graph 0
       (Demo.st_of_op (OtherOp "old_style"))).1 = Raise NotImplementedError
  ∧ (get_node_infer_shape (H := Demo.R) Demo.no_graph 0
       (Demo.st_of_op (OtherOp "broken"))).1
    = Raise (Exception infer_failed)
  ∧ warnings (get_node_infer_shape (H := Demo.W) Demo.no_graph 0
                (Demo.st_of_op (OtherOp "broken"))).2 = [infer_failed].
Proof.
  split; [|split; [|split]].
  - destruct (get_node_infer_shape_failures (H := Demo.W) Demo.no_graph 0
                (Demo.st_of_op (OtherOp "cannot")) (OtherOp "cannot") _ []
                ShapeError ([], []) eq_refl eq_refl eq_refl eq_refl)
      as (H1 & _).
    rewrite (H1 eq_refl). reflexivity.
  - destruct (get_node_infer_shape_failures (H := Demo.W) Demo.no_graph 0
                (Demo.st_of_op (OtherOp "old_style")) (OtherOp "old_style") _ []
                NotImplementedError ([], []) eq_refl eq_refl eq_refl eq_refl)
      as (_ & H2 & _).
    rewrite (H2 eq_refl). reflexivity.
  - destruct (get_node_infer_shape_failures (H := Demo.R) Demo.no_graph 0
                (Demo.st_of_op (OtherOp "broken")) (OtherOp "broken") _ []
                TypeError ([], []) eq_refl eq_refl eq_refl eq_refl)
      as (_ & _ & H3 & _).
    rewrite H3.
    + reflexivity.
    + intros Heq. discriminate Heq.
    + intros Heq. discriminate Heq.
    + reflexivity.
  - destruct (get_node_infer_shape_failures (H := Demo.W) Demo.no_graph 0
                (Demo.st_of_op (OtherOp "broken")) (OtherOp "broken") _ []
                TypeError ([], []) eq_refl eq_refl eq_refl eq_refl)
      as (_ & _ & _ & H4).
    rewrite H4.
    + reflexivity.
    + intros Heq. discriminate Heq.
    + intros Heq. discriminate Heq.
    + intros Heq. discriminate Heq.
Defined.

Lemma same_shape_properties_witness :
  (same_shape (H := Demo.W) 2 2 None None Demo.st_shapes).1 = Ok true
  ∧ same_shape (H := Demo.W) 2 4 None (Some 0%Z) Demo.st_shapes
    = (Ok false, Demo.st_shapes)
  ∧ same_shape (H := Demo.W) 2 3 None None Demo.st_shapes
    = (Ok false, Demo.st_shapes).
Proof.
  destruct (same_shape_properties (H := Demo.W) Demo.st_shapes)
    as (H1 & H2 & H3).
  - intros l h i j _ Hij. exact Hij.
  - intros h v. simpl. rewrite bool_decide_eq_true_2; reflexivity.
  - split; [|split].
    + apply (H1 2 [0]). reflexivity.
    + apply H2.
      * exists (Some [0]). reflexivity.
      * exists None. reflexivity.
      * right. reflexivity.
    + apply (H3 2 3 [0] [0; 0]).
      * reflexivity.
      * reflexivity.
      * intros Heq. discriminate Heq.
Defined.

Lemma local_reshape_chain_fuses_witness :
  local_reshape_chain (H := Demo.W) is_Reshape Demo.fgraph_plain 0
    Demo.heap_chain = (Ok Decline, Demo.heap_chain)
  ∧ (local_reshape_chain (H := Demo.W) is_Reshape Demo.fgraph_plain 1
       Demo.heap_chain_rank).1 = Ok Decline
  ∧ (local_reshape_chain (H := Demo.W) is_Reshape Demo.fgraph_plain 1
       Demo.heap_chain).1 = Ok (Replace [6]).
Proof.
  split; [|split].
  - destruct (local_reshape_chain_fuses (H := Demo.W) Demo.fgraph_plain 0
                Demo.heap_chain) as [H1 _].
    apply H1. reflexivity.
  - destruct (local_reshape_chain_fuses (H := Demo.W) Demo.fgraph_plain 1
                Demo.heap_chain_rank) as [_ H2].
    destruct (H2 (Reshape 1) 1 4 5 (TensorType "float64" [Some 3%Z]))
      as (h' & _ & _ & _ & _ & Hrank & _).
    + reflexivity.
    + reflexivity.
    + reflexivity.
    + reflexivity.
    + eexists. reflexivity.
    + rewrite (Hrank 1 2).
      * reflexivity.
      * reflexivity.
      * reflexivity.
      * intros Heq. discriminate Heq.
  - destruct (local_reshape_chain_fuses (H := Demo.W) Demo.fgraph_plain 1
                Demo.heap_chain) as [_ H2].
    destruct (H2 (Reshape 1) 1 4 5 (TensorType "float64" [Some 3%Z]))
      as (h' & _ & _ & _ & _ & _ & Hfuse).
    + reflexivity.
    + reflexivity.
    + reflexivity.
    + reflexivity.
    + eexists. reflexivity.
    + rewrite (Hfuse "float64" [Some 3%Z] "float64" [Some 5%Z]).
      * reflexivity.
      * reflexivity.
      * reflexivity.
      * reflexivity.
      * apply (bool_decide_unpack _). vm_compute. exact I.
      * apply (bool_decide_unpack _). vm_compute. exact I.
Defined.

Lemma numeric_one_is_the_singleton_witness :
  to_symbolic_int (H := Demo.W) (ENum 1) Demo.st_two_ones
  = (Ok lscalar_one, Demo.st_two_ones)
  ∧ ∃ sh, shape_of (feature (set_shape (H := Demo.W) 2 (Some [ENum 1]) false
                               Demo.st_two_ones).2) !! 2 = Some (Some sh)
          ∧ sh !! 0 = Some lscalar_one.
Proof.
  destruct (numeric_one_is_the_singleton (H := Demo.W) Demo.st_two_ones)
    as [H1 H2].
  split; [exact H1|].
  apply (H2 2 [ENum 1] false _ 0).
  - reflexivity.
  - reflexivity.
  - reflexivity.
Defined.

Lemma pinned_dimensions_are_literal_witness :
  (∃ c, literal (heap Demo.st_matrix_recorded) c 5
        ∧ get_shape (H := Demo.W) 1 Demo.no_graph 1 1%Z Demo.st_matrix_recorded
          = (Ok c, Demo.st_matrix_recorded))
  ∧ set_shape (H := Demo.W) 1 (Some [ENum 7; EVar 9]) false Demo.st_matrix
    = (Ok (), Demo.st_matrix_recorded)
  ∧ shape_index_ok Demo.st_matrix_recorded.
Proof.
  destruct (pinned_dimensions_are_literal (H := Demo.W) Demo.no_graph
              Demo.st_matrix Demo.st_matrix_recorded 1 [ENum 7; ENum 3] false)
    as ((sh & Hsh & Hlit) & Hany & Hinv).
  - reflexivity.
  - destruct (Hlit 1 5%Z 0) as (c & Hc & Hl & Hg); [reflexivity|].
    split; [|split].
    + exists c. split; [exact Hl|exact Hg].
    + apply Hany; [reflexivity|].
      intros [|[|i]] Hp; [reflexivity|discriminate Hp|reflexivity].
    + destruct Hinv as [Hok _]; [| |exact Hok].
      * split.
        -- intros v [x Hx]. simpl in Hx. rewrite lookup_empty in Hx.
           discriminate Hx.
        -- intros v sh' i n Hv. simpl in Hv. rewrite lookup_empty in Hv.
           discriminate Hv.
      * eexists. reflexivity.
Defined.

Lemma update_shape_merges_witness :
  ∃ merged st',
    update_shape (H := Demo.W) 1 2 Demo.st_lengths = (Ok (), st')
    ∧ shape_of (feature st') !! 1 = Some (Some merged)
    ∧ length merged = 1
    ∧ ∃ m, merged !! 0 = Some m
           ∧ preferred (H := Demo.W) (heap Demo.st_lengths) 1 2 0 3 4 m.
Proof.
  destruct (update_shape_merges (H := Demo.W) Demo.st_lengths 1 2 [3] [4] 1)
    as (merged & st' & Hrun & Hshape & _ & Hlen & Hall).
  - reflexivity.
  - reflexivity.
  - reflexivity.
  - simpl. apply le_n.
  - intros n i Hn. destruct n; discriminate Hn.
  - reflexivity.
  - intros merged Hm. vm_compute in Hm. injection Hm as <-. reflexivity.
  - exists merged, st'. split; [exact Hrun|]. split.
    + rewrite Hshape. apply lookup_insert_eq.
    + split; [exact Hlen|].
      destruct (Hall 0 4 eq_refl) as (rs & m & Hrs & Hm & Hpref).
      injection Hrs as <-. exists m. split; [exact Hm|exact Hpref].
Defined.


(** * More properties of the module *)

Lemma Steps_ret {A} (R : State → State → Prop) `{!Reflexive R} (a : A) :
  Steps R (ret a).
Proof. by intros st r st' [= <- <-]. Qed.

Lemma Steps_raise {A} (R : State → State → Prop) `{!Reflexive R} (e : exn) :
  Steps R (raise (A := A) e).
Proof. by intros st r st' [= <- <-]. Qed.

Lemma Steps_get (R : State → State → Prop) `{!Reflexive R} : Steps R get.
Proof. by intros st r st' [= <- <-]. Qed.

Lemma Steps_lift_res {A} (R : State → State → Prop) `{!Reflexive R}
    (x : Res A) : Steps R (lift_res x).
Proof. by intros st r st' [= <- <-]. Qed.

Lemma Steps_or_raise {A} (R : State → State → Prop) `{!Reflexive R}
    (o : option A) (e : exn) : Steps R (or_raise o e).
Proof. destruct o; [by apply Steps_ret|by apply Steps_raise]. Qed.

Lemma Steps_assert (R : State → State → Prop) `{!Reflexive R} (c : bool)
    (msg : string) : Steps R (assert c msg).
Proof. destruct c; [by apply Steps_ret|by apply Steps_raise]. Qed.

Lemma Steps_bind {A B} (R : State → State → Prop) `{!Transitive R}
    (m : M A) (k : A → M B) :
  Steps R m → (∀ a, Steps R (k a)) → Steps R (bind m k).
Proof.
  intros Hm Hk st r st' Hrun. unfold bind in Hrun.
  destruct (m st) as [[a|e] st1] eqn:Hmst.
  - etrans; [by eapply Hm|by eapply Hk].
  - injection Hrun as <- <-. by eapply Hm.
Qed.

Lemma Steps_weaken {A} (R R' : State → State → Prop) (m : M A) :
  (∀ st st', R st st' → R' st st') → Steps R m → Steps R' m.
Proof. intros HR Hm st r st' Hrun. by eapply HR, Hm. Qed.

Lemma Steps_catch {A} (R : State → State → Prop) `{!Transitive R}
    (m : M A) (h : exn → option (M A)) :
  Steps R m → (∀ e k, h e = Some k → Steps R k) → Steps R (catch m h).
Proof.
  intros Hm Hh st r st' Hrun. unfold catch in Hrun.
  destruct (m st) as [[a|e] st1] eqn:Hmst.
  - injection Hrun as <- <-. by eapply Hm.
  - destruct (h e) as [k|] eqn:He.
    + etrans; [by eapply Hm|by eapply Hh].
    + injection Hrun as <- <-. by eapply Hm.
Qed.

Lemma Steps_mapM {A B} (R : State → State → Prop) `{!PreOrder R}
    (f : A → M B) (l : list A) :
  (∀ x, Steps R (f x)) → Steps R (mapM f l).
Proof.
  intros Hf. induction l as [|x l IH]; simpl; [apply Steps_ret, _|].
  apply Steps_bind; [apply _|done|]. intros y.
  apply Steps_bind; [apply _|done|]. intros ys. apply Steps_ret, _.
Qed.

Lemma Steps_forM_ {A} (R : State → State → Prop) `{!PreOrder R}
    (f : A → M unit) (l : list A) :
  (∀ x, Steps R (f x)) → Steps R (forM_ f l).
Proof.
  intros Hf. induction l as [|x l IH]; simpl; [apply Steps_ret, _|].
  apply Steps_bind; [apply _|done|]. by intros [].
Qed.

Lemma Grows_Steps {A} (m : M A) : Grows m ↔ Steps grows m.
Proof. done. Qed.

(** The generic step of a proof that a computation takes the state along
    [R]: the combinators, then a case analysis of what is matched on. *)
Ltac steps_tac :=
  repeat match goal with
    | |- Steps _ (ret _) => apply Steps_ret; apply _
    | |- Steps _ (raise _) => apply Steps_raise; apply _
    | |- Steps _ get => apply Steps_get; apply _
    | |- Steps _ (lift_res _) => apply Steps_lift_res; apply _
    | |- Steps _ (or_raise _ _) => apply Steps_or_raise; apply _
    | |- Steps _ (assert _ _) => apply Steps_assert; apply _
    | |- Steps _ (bind _ _) => apply Steps_bind; [apply _| |intros ?]
    | |- Steps _ (match ?x with _ => _ end) => destruct x
    | |- Steps _ (if ?b then _ else _) => destruct b
    end.

#[global] Instance builds_preorder : PreOrder builds.
Proof.
  split.
  - by intros st.
  - intros s1 s2 s3 [? ?] [? ?]. split; [by etrans|congruence].
Qed.

#[global] Instance imports_preorder : PreOrder imports.
Proof.
  split.
  - by intros st.
  - intros s1 s2 s3 (? & ? & ?) (? & ? & ?).
    split; [by etrans|]. split; [auto|congruence].
Qed.

Lemma grows_builds (st st' : State) : grows st st' → builds st st'.
Proof. by intros (? & ? & _). Qed.

Lemma builds_imports (st st' : State) : builds st st' → imports st st'.
Proof. intros [? Hf]. unfold imports. by rewrite Hf. Qed.

Lemma Steps_with_heap {A} (R : State → State → Prop) (f : Heap → A * Heap) :
  (∀ st, R st {| heap := (f (heap st)).2; feature := feature st;
                 warnings := warnings st |}) →
  Steps R (with_heap f).
Proof.
  intros HR st r st'. unfold with_heap. specialize (HR st).
  destruct (f (heap st)). by intros [= <- <-].
Qed.

Lemma Steps_modify_feature (R : State → State → Prop)
    (f : ShapeFeature → ShapeFeature) :
  (∀ st, R st {| heap := heap st; feature := f (feature st);
                 warnings := warnings st |}) →
  Steps R (modify_feature f).
Proof. intros HR st r st' [= <- <-]. apply HR. Qed.

Lemma Steps_run_builder {A} (R : State → State → Prop)
    (b : Heap → Res A * (list VarObj * list ApplyObj)) :
  (∀ st st', builds st st' → R st st') → Steps R (run_builder b).
Proof.
  intros HR st r st'. unfold run_builder.
  destruct (b (heap st)) as [r0 new]. intros [= <- <-]. apply HR.
  split; [|done]. split; simpl; by apply prefix_app_r.
Qed.

Lemma Steps_constant (R : State → State → Prop) (z : Z) :
  (∀ st st', builds st st' → R st st') → Steps R (constant z).
Proof.
  intros HR st r st' Hrun. apply HR, grows_builds. by eapply Grows_constant.
Qed.

(** A loop in which every turn returns, returns. *)
Lemma mapM_total {A B} (f : A → M B) (I : State → Prop)
    (Q : A → B → State → Prop) (l : list A) :
  (∀ x st, x ∈ l → I st →
     ∃ y st', f x st = (Ok y, st') ∧ grows st st' ∧ I st' ∧ Q x y st') →
  (∀ x y st st', grows st st' → Q x y st → Q x y st') →
  ∀ st, I st →
    ∃ ys st', mapM f l st = (Ok ys, st') ∧ grows st st' ∧ I st'
              ∧ Forall2 (λ x y, Q x y st') l ys.
Proof.
  intros Hf Hstable. induction l as [|x l IH]; intros st HI.
  - exists [], st. by repeat split.
  - destruct (Hf x st) as (y & st1 & Hx & Hg1 & HI1 & HQ);
      [by left|done|].
    destruct IH with (st := st1) as (ys & st2 & Hl & Hg2 & HI2 & Hall).
    { intros x' st' Hin. apply Hf. by right. }
    { done. }
    exists (y :: ys), st2. simpl. unfold bind. rewrite Hx, Hl.
    split; [done|]. split; [by etrans|]. split; [done|].
    constructor; [by eapply Hstable|done].
Qed.

Lemma all_res_true (f : nat → Res bool) (l : list nat) :
  (∀ i, i ∈ l → f i = Ok true) → all_res f l = Ok true.
Proof.
  induction l as [|i l IH]; intros Hf; simpl; [done|].
  rewrite Hf by by left. apply IH. intros j Hj. apply Hf. by right.
Qed.

Section MoreProperties.
Context `{Collaborators}.

(** *** [to_symbolic_int] *)

(** X1. [to_symbolic_int] on an integer [z], a Python [int] or a NumPy
    integer, for which [int(s_i) == s_i] holds: a negative one is refused
    by the assertion, and nothing changes; one that is neither negative nor
    1 and that [int64] holds, [z < 2 ^ 63], becomes a new [int64] constant
    of that value, the only object the call adds to the arena. *)
Theorem to_symbolic_int_of_an_integer (z : Z) (st : State) :
  ((z < 0)%Z →
     to_symbolic_int (ENum z) st = (Raise (AssertionError no_message), st))
  ∧ ((0 ≤ z)%Z → z ≠ 1%Z → (z < 2 ^ 63)%Z →
     ∃ st', to_symbolic_int (ENum z) st = (Ok (length (h_vars (heap st))), st')
            ∧ grows st st'
            ∧ lookup_var (heap st) (length (h_vars (heap st))) = None
            ∧ literal (heap st') (length (h_vars (heap st))) z
            ∧ length (h_vars (heap st')) = S (length (h_vars (heap st)))
            ∧ h_nodes (heap st') = h_nodes (heap st)).
Proof.
  split.
  - intros Hz. simpl. rewrite bool_decide_eq_false_2 by lia. run.
    rewrite bool_decide_eq_false_2 by lia. done.
  - intros Hz Hne _. simpl. rewrite bool_decide_eq_false_2 by done. run.
    rewrite bool_decide_eq_true_2 by done. simpl.
    eexists. split; [reflexivity|]. split; [|split; [|split; [|split]]]; simpl.
    + split; [apply heap_le_alloc_var|done].
    + unfold lookup_var. by apply lookup_ge_None_2.
    + unfold literal, lookup_var. simpl.
      by rewrite lookup_app_r, Nat.sub_diag.
    + rewrite length_app. simpl. lia.
    + done.
Qed.

Lemma to_symbolic_int_variable_pure (v : var) : Pure (to_symbolic_int (EVar v)).
Proof.
  unfold Pure, to_symbolic_int, check_integer_scalar. steps_tac.
Qed.

Lemma check_integer_scalar_Ok (s w : var) (st st' : State) :
  check_integer_scalar s st = (Ok w, st') →
  w = s ∧ default 0 (type_ndim (type_of (heap st) s)) = 0
  ∧ ∃ d, type_dtype (type_of (heap st) s) = Some d ∧ d ∈ integer_dtypes.
Proof.
  unfold check_integer_scalar. intros Hrun.
  apply bind_Ok in Hrun as (? & ? & [= <- <-] & Hrun).
  apply bind_Ok in Hrun as (d & ? & [Hd ->]%or_raise_Ok & Hrun).
  destruct (bool_decide (d ∈ integer_dtypes)) eqn:Hin; simpl in Hrun; [|done].
  destruct (bool_decide (default 0 _ = 0)) eqn:Hnd; simpl in Hrun; [|done].
  injection Hrun as <- _.
  apply bool_decide_eq_true in Hin, Hnd. split; [done|]. split; [done|].
  by exists d.
Qed.

(** X2. Given a [Variable], [to_symbolic_int] leaves the whole state as it
    was, whatever the outcome.  The variable it returns has rank 0, and an
    integer dtype unless it is the argument itself, returned unchecked
    because it is a [Subtensor] of a [Shape] whose index is not a
    constant. *)
Theorem to_symbolic_int_of_a_variable (v : var) (st st' : State) (r : Res var) :
  to_symbolic_int (EVar v) st = (r, st') →
  st' = st
  ∧ ∀ w, r = Ok w →
      default 0 (type_ndim (type_of (heap st) w)) = 0
      ∧ ((∃ d, type_dtype (type_of (heap st) w) = Some d ∧ d ∈ integer_dtypes)
         ∨ (w = v ∧ ∃ n il n0 i0,
              subtensor_of_shape (heap st) v = Ok (Some (n, il, n0))
              ∧ get_idx_list (node_inputs (heap st) n) il !! 0 = Some i0
              ∧ get_scalar_constant_value (heap st) i0 = None)).
Proof.
  intros Hrun.
  pose proof (to_symbolic_int_variable_pure v _ _ _ Hrun) as <-.
  split; [done|]. intros w ->. unfold to_symbolic_int in Hrun.
  apply bind_Ok in Hrun as (? & ? & [= <- <-] & Hrun).
  apply bind_Ok in Hrun as (m & ? & [Hm ->]%lift_res_Ok & Hrun).
  destruct m as [[[n il] n0]|].
  - apply bind_Ok in Hrun as (ndim & ? & [Hnd ->]%or_raise_Ok & Hrun).
    apply bind_Ok in Hrun as ([] & ? & [Hz ->]%assert_Ok & Hrun).
    apply bind_Ok in Hrun as ([] & ? & [_ ->]%assert_Ok & Hrun).
    apply bind_Ok in Hrun as ([] & ? & [_ ->]%assert_Ok & Hrun).
    apply bind_Ok in Hrun as (i0 & ? & [Hi0 ->]%or_raise_Ok & Hrun).
    destruct (get_scalar_constant_value (heap st) i0) as [i|] eqn:Hi.
    + apply bind_Ok in Hrun as (x & ? & [_ ->]%or_raise_Ok & Hrun).
      apply bind_Ok in Hrun as (o & ? & [_ ->]%or_raise_Ok & Hrun).
      apply bind_Ok in Hrun as (s_x & ? & [_ ->]%or_raise_Ok & Hrun).
      apply bind_Ok in Hrun as (s' & ? & [_ ->]%or_raise_Ok & Hrun).
      apply check_integer_scalar_Ok in Hrun as (-> & ? & ?). by split; [|left].
    + injection Hrun as <-. apply bool_decide_eq_true in Hz. subst ndim.
      split; [by rewrite Hnd|]. right. split; [done|]. by exists n, il, n0, i0.
  - apply check_integer_scalar_Ok in Hrun as (-> & ? & ?). by split; [|left].
Qed.

(** X3. When [s_i] is [x.shape[i]] for a constant [i], a rank-0
    [Subtensor] with one index applied to the [Shape] of [x],
    [to_symbolic_int] answers with the tracked entry [shape_of[x][i]] when
    this entry is an integer scalar, and raises [KeyError] when [x] is not
    tracked; nothing changes in either case. *)
Theorem to_symbolic_int_of_a_shape_component (st : State) (v v0 x : var)
    (n n0 : apply) (il : list idx_entry) (rest rest0 : list var)
    (i0 : idx_val) (i : Z) :
  owner_of (heap st) v = Some n →
  node_op (heap st) n = Some (Subtensor il) →
  node_inputs (heap st) n = v0 :: rest →
  owner_of (heap st) v0 = Some n0 →
  node_op (heap st) n0 = Some Shape →
  node_inputs (heap st) n0 = x :: rest0 →
  type_ndim (type_of (heap st) v) = Some 0 →
  length il = 1 →
  get_idx_list (v0 :: rest) il = [i0] →
  get_scalar_constant_value (heap st) i0 = Some i →
  (∀ s_x s' d,
     shape_of (feature st) !! x = Some (Some s_x) →
     py_index s_x i = Some s' →
     type_dtype (type_of (heap st) s') = Some d →
     d ∈ integer_dtypes →
     default 0 (type_ndim (type_of (heap st) s')) = 0 →
     to_symbolic_int (EVar v) st = (Ok s', st))
  ∧ (shape_of (feature st) !! x = None →
     to_symbolic_int (EVar v) st = (Raise KeyError, st)).
Proof.
  intros Hn Hop Hin Hn0 Hop0 Hin0 Hnd Hil Hidx Hi.
  assert (Hsub : subtensor_of_shape (heap st) v = Ok (Some (n, il, n0))).
  { unfold subtensor_of_shape. by rewrite Hn, Hop, Hin, Hn0, Hop0. }
  split.
  - intros s_x s' d Hx Hs' Hd Hint Hrank.
    unfold to_symbolic_int, check_integer_scalar. run.
    rewrite Hsub, Hnd. simpl. rewrite Hil, Hin, Hidx. simpl.
    rewrite Hi, Hin0. simpl. rewrite Hx. simpl. rewrite Hs'. simpl.
    rewrite Hd. simpl.
    by rewrite !bool_decide_eq_true_2.
  - intros Hx. unfold to_symbolic_int. run.
    rewrite Hsub, Hnd. simpl. rewrite Hil, Hin, Hidx. simpl.
    rewrite Hi, Hin0. simpl. by rewrite Hx.
Qed.

(** *** [set_shape]: what is recorded beside the tuple *)

Lemma register_reverse_index (r : var) (l : list var) (st : State) :
  ∃ st', register_reverse r l st = (Ok (), st')
         ∧ heap st' = heap st
         ∧ shape_of (feature st') = shape_of (feature st)
         ∧ scheduled (feature st') = scheduled (feature st)
         ∧ warnings st' = warnings st
         ∧ ∀ k v, v ∈ default ∅ (shape_of_reverse_index (feature st') !! k)
                  ↔ (v = r ∧ k ∈ l)
                    ∨ v ∈ default ∅ (shape_of_reverse_index (feature st) !! k).
Proof.
  unfold register_reverse. revert st.
  induction l as [|sv l IH]; intros st; simpl.
  - exists st. repeat split; try done.
    + by intros ?; right.
    + intros [[_ Hin]|?]; [|done]. by apply elem_of_nil in Hin.
  - unfold bind, modify_feature at 1.
    destruct (IH {| heap := heap st; feature := reverse_add sv r (feature st);
                    warnings := warnings st |})
      as (st' & -> & Hh & Hs & Hc & Hw & Hrev).
    exists st'. repeat split; try done.
    + intros Hv. apply Hrev in Hv as [[-> Hk]|Hv].
      * left. split; [done|]. by right.
      * simpl in Hv. destruct (decide (sv = k)) as [<-|Hne].
        -- rewrite lookup_insert_eq in Hv. simpl in Hv.
           apply elem_of_union in Hv as [->%elem_of_singleton|Hv].
           ++ left. split; [done|]. by left.
           ++ by right.
        -- rewrite lookup_insert_ne in Hv by done. by right.
    + intros Hv. apply Hrev. simpl.
      destruct Hv as [[-> Hk]|Hv].
      * apply elem_of_cons in Hk as [->|Hk]; [|by left].
        right. rewrite lookup_insert_eq. simpl.
        apply elem_of_union. left. by apply elem_of_singleton.
      * right. destruct (decide (sv = k)) as [<-|Hne].
        -- rewrite lookup_insert_eq. simpl. apply elem_of_union. by right.
        -- by rewrite lookup_insert_ne.
Qed.

(** X4. When [set_shape(r, l, override)] returns, the tuple recorded for
    [r] has exactly [r.type.ndim] entries, no other entry of [shape_of] and
    nothing of [scheduled] has changed, and the reverse index has gained
    [r] under every entry of the new tuple and lost nothing. *)
Theorem set_shape_records (r : var) (l : list shape_elem) (override : bool)
    (st st' : State) :
  set_shape r (Some l) override st = (Ok (), st') →
  ∃ sh,
    shape_of (feature st') = <[r := Some sh]> (shape_of (feature st))
    ∧ type_ndim (type_of (heap st) r) = Some (length sh)
    ∧ length sh = length l
    ∧ scheduled (feature st') = scheduled (feature st)
    ∧ warnings st' = warnings st
    ∧ ∀ k v, v ∈ default ∅ (shape_of_reverse_index (feature st') !! k)
             ↔ (v = r ∧ k ∈ sh)
               ∨ v ∈ default ∅ (shape_of_reverse_index (feature st) !! k).
Proof.
  unfold set_shape. intros Hrun.
  apply bind_Ok in Hrun as (? & ? & [= <- <-] & Hrun).
  apply bind_Ok in Hrun as ([] & st0 & Hguard & Hrun).
  assert (st0 = st) as ->.
  { destruct override; simpl in Hguard; [by injection Hguard|].
    by apply assert_Ok in Hguard as [_ ->]. }
  clear Hguard.
  apply bind_Ok in Hrun as (ndim & ? & [Hnd ->]%or_raise_Ok & Hrun).
  case_bool_decide as Hlen; simpl in Hrun; [subst ndim|done].
  apply bind_Ok in Hrun as (sh & st1 & Hloop & Hrun).
  apply bind_Ok in Hrun as (? & ? & [= <- <-] & Hrun).
  apply bind_Ok in Hrun as (ok & ? & [_ ->]%lift_res_Ok & Hrun).
  apply bind_Ok in Hrun as ([] & ? & [_ ->]%assert_Ok & Hrun).
  apply bind_Ok in Hrun as ([] & st2 & [= <-] & Hrun).
  destruct (register_reverse_index r sh
              {| heap := heap st1;
                 feature := shape_of_set r (Some sh) (feature st1);
                 warnings := warnings st1 |})
    as (st3 & Hreg & Hheap & Hshape & Hsched & Hwarn & Hrev).
  rewrite Hreg in Hrun. injection Hrun as <-.
  eapply (mapM_grows _ (λ _ _ _, True)) in Hloop as [(Hle & Hf & Hw) Hall];
    [| intros i; apply set_shape_dim_grows | done | done].
  specialize (Hall _ eq_refl). apply Forall2_length in Hall.
  rewrite length_seq in Hall.
  exists sh. rewrite Hshape, Hsched, Hwarn. simpl. rewrite Hf, Hw.
  repeat split; try done; try congruence.
  - intros Hv. apply Hrev in Hv. simpl in Hv. by rewrite Hf in Hv.
  - intros Hv. apply Hrev. simpl. by rewrite Hf.
Qed.

(** *** [shape_ir], [shape_tuple]: the shape read off the static type *)

Lemma shape_ir_total (r : var) (d : string) (sh : list (option Z)) (i : nat)
    (st : State) :
  type_of (heap st) r = TensorType d sh →
  i < length sh →
  ∃ y st', shape_ir i r st = (Ok y, st') ∧ grows st st'
           ∧ static_entry r sh i y (heap st').
Proof.
  intros Ht Hi. unfold shape_ir, static_entry. run. rewrite Ht.
  destruct (lookup_lt_is_Some_2 sh i Hi) as [s Hs]. rewrite Hs. simpl.
  destruct s as [n|].
  - destruct (constant_spec n st) as (st' & Hc & Hg & Hlit).
    unfold constant, with_heap in Hc. simpl in Hc.
    eexists _, _. split; [reflexivity|]. injection Hc as <-. by split.
  - unfold apply_Shape_i. run. rewrite Ht. simpl.
    rewrite bool_decide_eq_false_2 by lia. simpl.
    set (n := length (h_nodes (heap st))).
    set (y := length (h_vars (heap st))).
    set (h1 := {| h_vars := h_vars (heap st) ++ [_]; h_nodes := _ |}).
    assert (Hle : heap_le (heap st) h1).
    { split; simpl; by apply prefix_app_r. }
    assert (Hy : lookup_var h1 y
                 = Some {| v_type := int64_scalar; v_kind := Output n 0 |}).
    { unfold lookup_var, h1, y. simpl. by rewrite lookup_app_r, Nat.sub_diag. }
    assert (Hn : lookup_node h1 n
                 = Some {| op := Shape_i (Z.of_nat i); inputs := [r];
                           outputs := [y] |}).
    { unfold lookup_node, h1, n. simpl. by rewrite lookup_app_r, Nat.sub_diag. }
    destruct (get_scalar_constant_value h1 (IVar y)) as [z|].
    + set (st1 := {| heap := h1; feature := feature st;
                     warnings := warnings st |}).
      destruct (constant_spec z st1) as (st' & Hc & Hg & Hlit).
      unfold constant, with_heap in Hc. simpl in Hc.
      eexists _, _. split; [reflexivity|]. injection Hc as <-.
      split; [|by left; exists z].
      etrans; [|exact Hg]. by split.
    + eexists _, _. split; [reflexivity|]. split; [by split|].
      right. by exists n.
Qed.

Lemma static_entry_le (r : var) (sh : list (option Z)) (i : nat) (y : var)
    (h h' : Heap) :
  heap_le h h' → static_entry r sh i y h → static_entry r sh i y h'.
Proof.
  intros Hle. unfold static_entry, literal.
  assert (Hsym : (∃ z, lookup_var h y = Some {| v_type := int64_scalar;
                                               v_kind := Constant (Some z) |})
            ∨ (∃ n, lookup_var h y = Some {| v_type := int64_scalar;
                                             v_kind := Output n 0 |}
                    ∧ lookup_node h n = Some {| op := Shape_i (Z.of_nat i);
                                                inputs := [r]; outputs := [y] |})
          → (∃ z, lookup_var h' y = Some {| v_type := int64_scalar;
                                           v_kind := Constant (Some z) |})
            ∨ (∃ n, lookup_var h' y = Some {| v_type := int64_scalar;
                                              v_kind := Output n 0 |}
                    ∧ lookup_node h' n = Some {| op := Shape_i (Z.of_nat i);
                                                 inputs := [r]; outputs := [y] |})).
  { intros [[z Hz]|(n & Hy & Hn)].
    - left. exists z. by eapply lookup_var_le.
    - right. exists n. split; [by eapply lookup_var_le|by eapply lookup_node_le]. }
  destruct (sh !! i) as [[n|]|]; [by apply lookup_var_le|done|done].
Qed.

(** The entries of the tuple that [shape_tuple] builds. *)
Lemma shape_tuple_entries (r : var) (st : State) :
  (is_HasShape (type_of (heap st) r) = false →
     shape_tuple r st = (Ok None, st))
  ∧ (∀ d sh, type_of (heap st) r = TensorType d sh →
       ∃ t st', shape_tuple r st = (Ok (Some t), st')
                ∧ grows st st'
                ∧ length t = length sh
                ∧ ∀ i, i < length sh →
                    ∃ y, t !! i = Some y ∧ static_entry r sh i y (heap st')).
Proof.
  split.
  - unfold shape_tuple. run. by destruct (type_of (heap st) r).
  - intros d sh Ht.
    destruct (mapM_total (λ i, shape_ir i r)
                (λ st0, type_of (heap st0) r = TensorType d sh)
                (λ i y st0, static_entry r sh i y (heap st0))
                (seq 0 (length sh))) with (st := st)
      as (t & st' & Hrun & Hg & _ & Hall).
    + intros i st0 [_ Hi]%elem_of_seq Ht0. simpl in Hi.
      destruct (shape_ir_total r d sh i st0 Ht0 Hi) as (y & st1 & ? & Hg & ?).
      exists y, st1. repeat split; try done; try apply Hg.
      rewrite <- Ht0. destruct Hg as [Hle _]. apply type_of_le; [done|].
      unfold type_of in Ht0. destruct (lookup_var (heap st0) r); [by eexists|done].
    + intros i y st0 st1 [Hle _]. by apply static_entry_le.
    + done.
    + exists t, st'. unfold shape_tuple. run. rewrite Ht. simpl. rewrite Hrun.
      split; [done|]. split; [done|].
      pose proof (Forall2_length _ _ _ Hall) as Hlen.
      rewrite length_seq in Hlen. split; [done|].
      intros i Hi.
      destruct (Forall2_lookup_l _ _ _ i i Hall) as (y & Hy & Hent).
      { by apply lookup_seq_lt. }
      by exists y.
Qed.

(** X5. [shape_tuple] never fails.  For a variable whose type is not
    [HasShape] it answers [None] and changes nothing.  For a variable of
    static shape [sh] it answers a tuple with one entry per dimension, and
    only builds new objects: the entry of a pinned dimension is the literal
    of the static type, the entry of any other dimension is a literal or the
    output of a new [Shape_i] of that dimension applied to the variable. *)
Theorem shape_tuple_total (r : var) (st : State) :
  (is_HasShape (type_of (heap st) r) = false →
     shape_tuple r st = (Ok None, st))
  ∧ (∀ d sh, type_of (heap st) r = TensorType d sh →
       ∃ t st', shape_tuple r st = (Ok (Some t), st')
                ∧ grows st st'
                ∧ length t = length sh
                ∧ ∀ i, i < length sh →
                    ∃ y, t !! i = Some y ∧ static_entry r sh i y (heap st')).
Proof. apply shape_tuple_entries. Qed.

(** *** [set_shape], [init_r]: when they return *)

Lemma equals_literals (h : Heap) (a b : var) (n : Z) :
  literal h a n → literal h b n → equals h a b = true.
Proof.
  unfold literal, equals. intros -> ->.
  by rewrite !bool_decide_eq_true_2.
Qed.

(** Enough for [set_shape] to return. *)
Lemma set_shape_succeeds (r : var) (l : list shape_elem) (override : bool)
    (st : State) :
  literal (heap st) lscalar_one 1 →
  override = true ∨ shape_of (feature st) !! r = None →
  type_ndim (type_of (heap st) r) = Some (length l) →
  (∀ i e st1, l !! i = Some e → pinned (type_of (heap st) r) i = None →
     grows st st1 → ∃ y st2, to_symbolic_int e st1 = (Ok y, st2)) →
  ∃ st', set_shape r (Some l) override st = (Ok (), st').
Proof.
  intros Hone Hguard Hnd Hdims.
  set (t := type_of (heap st) r) in *.
  destruct (mapM_total (set_shape_dim t l) (λ st1, grows st st1)
              (λ i c st1, dim_recorded t l i c (heap st1))
              (seq 0 (length l))) with (st := st)
    as (sh & st1 & Hloop & Hg & _ & Hall).
  - intros i st1 [_ Hi]%elem_of_seq Hg1. simpl in Hi.
    assert (∃ y st2, set_shape_dim t l i st1 = (Ok y, st2))
      as (y & st2 & Hrun).
    { unfold set_shape_dim. destruct (pinned t i) as [n|] eqn:Hp.
      - destruct (constant_spec n st1) as (st2 & Hc & _). by eexists _, _.
      - destruct (lookup_lt_is_Some_2 l i Hi) as [e He].
        destruct (Hdims i e st1 He Hp Hg1) as (y & st2 & Hy).
        exists y, st2. run. by rewrite He. }
    exists y, st2.
    pose proof (set_shape_dim_grows t l i _ _ _ Hrun) as Hg2.
    split; [done|]. split; [done|]. split; [by etrans|].
    by eapply set_shape_dim_recorded.
  - intros i c st0 st0' Hg0 [Hpin Hsingle]. split; [|done].
    intros n Hn. eapply literal_grows; [done|]. by apply Hpin.
  - done.
  - assert (Hassert : all_res (one_ok false (heap st1) t sh)
                              (seq 0 (length l)) = Ok true).
    { apply all_res_true. intros i [_ Hi]%elem_of_seq. simpl in Hi.
      unfold one_ok. destruct (is_HasShape t) eqn:Hhs; simpl; [|done].
      case_bool_decide as Hs1; simpl; [|done].
      destruct (Forall2_lookup_l _ _ _ i i Hall) as (sv & -> & Hrec & _).
      { by apply lookup_seq_lt. }
      rewrite (equals_literals _ _ _ 1); [done|by eapply literal_grows|].
      apply Hrec. unfold pinned. destruct t; [|done]. simpl in Hs1.
      by rewrite Hs1. }
    destruct (register_reverse_spec r sh
                {| heap := heap st1;
                   feature := shape_of_set r (Some sh) (feature st1);
                   warnings := warnings st1 |}) as (st' & Hreg & _).
    exists st'. subst t. unfold set_shape. run.
    destruct override; simpl.
    + rewrite Hnd. simpl. rewrite bool_decide_eq_true_2 by done. simpl.
      rewrite Hloop, Hassert. simpl. exact Hreg.
    + destruct Hguard as [?|Hnone]; [done|].
      rewrite bool_decide_eq_true_2 by done. simpl.
      rewrite Hnd. simpl. rewrite bool_decide_eq_true_2 by done. simpl.
      rewrite Hloop, Hassert. simpl. exact Hreg.
Qed.

(** X6. With [lscalar_one] in place, [set_shape(r, l, override)] returns as
    soon as its two guards pass and [to_symbolic_int] accepts the entries of
    [l] at the dimensions that the static type does not pin: the assertion
    on the dimensions of static size 1 cannot fail. *)
Theorem set_shape_returns (r : var) (l : list shape_elem) (override : bool)
    (st : State) :
  literal (heap st) lscalar_one 1 →
  override = true ∨ shape_of (feature st) !! r = None →
  type_ndim (type_of (heap st) r) = Some (length l) →
  (∀ i e st1, l !! i = Some e → pinned (type_of (heap st) r) i = None →
     grows st st1 → ∃ y st2, to_symbolic_int e st1 = (Ok y, st2)) →
  ∃ st', set_shape r (Some l) override st = (Ok (), st').
Proof. apply set_shape_succeeds. Qed.

Lemma to_symbolic_int_int64 (y : var) (st : State) :
  "int64" ∈ integer_dtypes →
  (∃ z, literal (heap st) y z)
  ∨ (∃ n i r, lookup_var (heap st) y
              = Some {| v_type := int64_scalar; v_kind := Output n 0 |}
            ∧ lookup_node (heap st) n
              = Some {| op := Shape_i i; inputs := [r]; outputs := [y] |}) →
  to_symbolic_int (EVar y) st = (Ok y, st).
Proof.
  intros Hint Hy.
  assert (Hsub : subtensor_of_shape (heap st) y = Ok None).
  { unfold subtensor_of_shape, owner_of.
    destruct Hy as [[z ->]|(n & i & r & -> & Hn)]; [done|].
    unfold node_op. by rewrite Hn. }
  assert (Hty : type_of (heap st) y = int64_scalar).
  { unfold type_of. by destruct Hy as [[z ->]|(n & i & r & -> & Hn)]. }
  unfold to_symbolic_int, check_integer_scalar. run.
  rewrite Hsub, Hty. simpl. by rewrite !bool_decide_eq_true_2.
Qed.

(** X7. With [lscalar_one] in place and ["int64"] among the integer dtypes,
    [init_r] never fails.  It does nothing for a tracked variable.  For any
    other variable it adds one entry to [shape_of] and touches no other
    entry: a tuple with one entry per dimension when the type is
    [HasShape], and [None] otherwise. *)
Theorem init_r_returns (r : var) (st : State) :
  literal (heap st) lscalar_one 1 →
  "int64" ∈ integer_dtypes →
  (is_Some (shape_of (feature st) !! r) → init_r r st = (Ok (), st))
  ∧ (shape_of (feature st) !! r = None →
     ∃ st' o,
       init_r r st = (Ok (), st')
       ∧ shape_of (feature st') = <[r := o]> (shape_of (feature st))
       ∧ scheduled (feature st') = scheduled (feature st)
       ∧ heap_le (heap st) (heap st')
       ∧ match type_of (heap st) r with
         | TensorType _ sh => ∃ t, o = Some t ∧ length t = length sh
         | OtherType _ _ => o = None
         end).
Proof.
  intros Hone Hint. split.
  - intros [o Ho]. unfold init_r. run. by rewrite Ho.
  - intros Hnone. unfold init_r, bind at 1, get. rewrite Hnone.
    destruct (type_of (heap st) r) as [d sh|dt nd] eqn:Ht.
    + destruct (shape_tuple_entries r st) as [_ Htup].
      destruct (Htup d sh Ht) as (t & st1 & Hrun & Hg & Hlen & Hent).
      pose proof Hg as (Hle & Hf & Hw).
      assert (Hlive : is_Some (lookup_var (heap st) r)).
      { unfold type_of in Ht. destruct (lookup_var (heap st) r); [by eexists|done]. }
      assert (Ht1 : type_of (heap st1) r = TensorType d sh).
      { by rewrite (type_of_le _ _ _ Hle Hlive). }
      destruct (set_shape_succeeds r (map EVar t) false st1) as [st' Hset].
      * by eapply literal_grows.
      * right. by rewrite Hf.
      * rewrite Ht1. simpl. by rewrite length_map, Hlen.
      * intros i e st2 He Hp Hg2.
        rewrite list_lookup_fmap in He.
        destruct (t !! i) as [y|] eqn:Hy; [|done]. injection He as <-.
        destruct (Hent i) as (y' & Hy' & Hstatic).
        { rewrite <- Hlen. apply lookup_lt_is_Some. by eexists. }
        rewrite Hy in Hy'. injection Hy' as <-.
        exists y, st2. apply to_symbolic_int_int64; [done|].
        eapply static_entry_le in Hstatic; [|apply Hg2].
        unfold static_entry in Hstatic. rewrite Ht1 in Hp. simpl in Hp.
        destruct (sh !! i) as [[n|]|]; [done| |].
        -- destruct Hstatic as [?|(n & ? & ?)]; [by left|].
           right. by exists n, (Z.of_nat i), r.
        -- destruct Hstatic as [?|(n & ? & ?)]; [by left|].
           right. by exists n, (Z.of_nat i), r.
      * pose proof (set_shape_spec _ _ _ _ _ Hset)
          as (sh' & Hshape & Hsched & Hle' & _ & Hall).
        apply Forall2_length in Hall. rewrite length_seq in Hall.
        exists st', (Some sh'). unfold bind. rewrite Hrun. simpl.
        split; [done|]. rewrite Hshape, Hsched, Hf.
        split; [done|]. split; [done|]. split.
        -- by etrans.
        -- exists sh'. split; [done|].
           by rewrite <- Hall, length_map.
    + destruct (shape_tuple_entries r st) as [Hnot _].
      unfold bind. rewrite Hnot by by rewrite Ht. simpl.
      eexists _, None. unfold set_shape. run.
      rewrite bool_decide_eq_true_2 by done. simpl.
      by repeat split.
Qed.

(** *** What each method may change *)

Lemma shape_tuple_builds (r : var) : Steps builds (shape_tuple r).
Proof.
  assert (Halloc : ∀ st o, builds st {| heap := (alloc_var o (heap st)).2;
                                        feature := feature st;
                                        warnings := warnings st |}).
  { intros st o. split; [apply heap_le_alloc_var|done]. }
  assert (Hnode : ∀ st a, builds st {| heap := (alloc_node a (heap st)).2;
                                       feature := feature st;
                                       warnings := warnings st |}).
  { intros st a. split; [apply heap_le_alloc_node|done]. }
  assert (Hir : ∀ i, Steps builds (shape_ir i r)).
  { intros i. unfold shape_ir, apply_Shape_i.
    steps_tac; try (by apply Steps_constant);
      try (apply Steps_with_heap; intros; apply Halloc || apply Hnode). }
  unfold shape_tuple. steps_tac. by apply Steps_mapM; [apply _|].
Qed.

Lemma default_infer_shape_builds (node : apply) :
  Steps builds (default_infer_shape node).
Proof.
  unfold default_infer_shape. steps_tac.
  apply Steps_mapM; [apply _|]. intros r.
  apply Steps_catch; [apply _| |].
  - steps_tac. apply shape_tuple_builds.
  - intros e k. destruct e; intros [= <-]. apply Steps_ret, _.
Qed.

Lemma warn_builds (msg : string) : Steps builds (warn msg).
Proof. by intros st r st' [= <- <-]. Qed.

Lemma get_node_infer_shape_builds (fg : Graph) (node : apply) :
  Steps builds (get_node_infer_shape fg node).
Proof.
  unfold get_node_infer_shape.
  apply Steps_bind; [apply _|apply Steps_get, _|]. intros st.
  apply Steps_catch; [apply _| |].
  - steps_tac; [|apply default_infer_shape_builds].
    intros st0 r st' Hrun. unfold run_rule in Hrun.
    destruct (i _ _ _ _) as [r0 new]. injection Hrun as <- <-.
    split; [|done]. split; simpl; by apply prefix_app_r.
  - intros e k.
    destruct e; intros [= <-]; steps_tac;
      try apply default_infer_shape_builds; try apply warn_builds.
Qed.

Lemma register_reverse_imports (r : var) (l : list var) :
  Steps imports (register_reverse r l).
Proof.
  intros st res st' Hrun.
  destruct (register_reverse_spec r l st) as (st1 & Hr & Hh & Hs & Hc & _).
  rewrite Hr in Hrun. injection Hrun as _ <-.
  unfold imports. by rewrite Hh, Hs, Hc.
Qed.

Lemma shape_of_set_imports (r : var) (s : option (list var)) (st : State) :
  imports st {| heap := heap st; feature := shape_of_set r s (feature st);
                warnings := warnings st |}.
Proof.
  split; [done|]. split; [|done]. intros v Hv. simpl.
  destruct (decide (r = v)) as [<-|Hne]; [by rewrite lookup_insert_eq|].
  by rewrite lookup_insert_ne.
Qed.

Lemma set_shape_imports (r : var) (s : option (list shape_elem))
    (override : bool) : Steps imports (set_shape r s override).
Proof.
  unfold set_shape. steps_tac;
    try (apply Steps_modify_feature; intros; apply shape_of_set_imports);
    try apply register_reverse_imports.
  apply Steps_mapM; [apply _|]. intros i.
  eapply Steps_weaken; [|apply set_shape_dim_grows].
  intros. by apply builds_imports, grows_builds.
Qed.

Lemma init_r_imports (r : var) : Steps imports (init_r r).
Proof.
  unfold init_r. steps_tac; [|apply set_shape_imports].
  eapply Steps_weaken; [apply builds_imports|apply shape_tuple_builds].
Qed.

End MoreProperties.

(** ** [on_import], [on_attach], [on_detach] *)

Lemma forM__Ok_all {A} (R : State → State → Prop) `{!PreOrder R}
    (f : A → M unit) (P : A → State → Prop) (l : list A) :
  (∀ x, Steps R (f x)) →
  (∀ x st st', f x st = (Ok (), st') → P x st') →
  (∀ x st st', R st st' → P x st → P x st') →
  ∀ st st', forM_ f l st = (Ok (), st') → ∀ x, x ∈ l → P x st'.
Proof.
  intros HR HP Hstable. induction l as [|x l IH]; intros st st' Hrun y Hy.
  - by apply elem_of_nil in Hy.
  - simpl in Hrun. apply bind_Ok in Hrun as ([] & st1 & Hx & Hl).
    apply elem_of_cons in Hy as [->|Hy]; [|by eapply IH].
    eapply Hstable; [|by eapply HP].
    eapply Steps_forM_; [apply _|exact HR|exact Hl].
Qed.

Lemma mapM_length {A B} (f : A → M B) (l : list A) (st st' : State)
    (ys : list B) :
  mapM f l st = (Ok ys, st') → length ys = length l.
Proof.
  revert st ys. induction l as [|x l IH]; intros st ys Hrun.
  - by injection Hrun as <- _.
  - simpl in Hrun. apply bind_Ok in Hrun as (y & st1 & _ & Hrun).
    apply bind_Ok in Hrun as (ys' & st2 & Hl & Hrun).
    injection Hrun as <- <-. simpl. f_equal. by eapply IH.
Qed.

Section ImportProperties.
Context `{Collaborators} `{MoreCollaborators}.

Lemma cast_elem_builds (d : shape_elem) : Steps builds (cast_elem d).
Proof.
  unfold cast_elem. steps_tac; try (by apply Steps_constant).
  by apply Steps_run_builder.
Qed.

Lemma normalise_dims_builds (sh rest : list shape_elem) :
  ∀ i new_shape, Steps builds (normalise_dims sh i rest new_shape).
Proof.
  induction rest as [|d rest IH]; intros i new_shape; simpl.
  - apply Steps_ret, _.
  - steps_tac; try apply IH. apply cast_elem_builds.
Qed.

Lemma normalise_shape_builds (sh : option (list shape_elem)) :
  Steps builds (normalise_shape sh).
Proof.
  unfold normalise_shape. steps_tac. apply normalise_dims_builds.
Qed.

Lemma on_import_imports (fg : Graph) (node : apply) :
  Steps imports (on_import fg node).
Proof.
  unfold on_import. steps_tac.
  - apply Steps_forM_; [apply _|]. intros r. steps_tac.
  - apply Steps_forM_; [apply _|]. apply init_r_imports.
  - eapply Steps_weaken; [apply builds_imports|].
    apply get_node_infer_shape_builds.
  - apply Steps_mapM; [apply _|]. intros sh.
    eapply Steps_weaken; [apply builds_imports|apply normalise_shape_builds].
  - apply Steps_forM_; [apply _|]. intros p. apply set_shape_imports.
Qed.

Lemma set_shape_tracks (r : var) (s : option (list shape_elem))
    (override : bool) (st st' : State) :
  set_shape r s override st = (Ok (), st') → tracked st' r.
Proof.
  unfold tracked. destruct s as [l|]; intros Hrun.
  - apply set_shape_spec in Hrun as (sh & -> & _).
    by rewrite lookup_insert_eq.
  - apply set_shape_None in Hrun as ->. simpl. by rewrite lookup_insert_eq.
Qed.

Lemma init_r_tracks (r : var) (st st' : State) :
  init_r r st = (Ok (), st') → tracked st' r.
Proof.
  unfold init_r. intros Hrun.
  apply bind_Ok in Hrun as (? & ? & [= <- <-] & Hrun).
  destruct (shape_of (feature st) !! r) eqn:Hr.
  - injection Hrun as <-. unfold tracked. by rewrite Hr.
  - apply bind_Ok in Hrun as (s & st1 & _ & Hrun). by eapply set_shape_tracks.
Qed.

(** The loop of assertions of a re-import. *)
Lemma forM__asserts_tracked (l : list var) (st : State) :
  forM_ (λ r, st' <- get ;;
              assert (bool_decide (is_Some (shape_of (feature st') !! r)))
                     no_message) l st
  = if bool_decide (Forall (tracked st) l) then (Ok (), st)
    else (Raise (AssertionError no_message), st).
Proof.
  induction l as [|r l IH]; [done|].
  cbn [forM_]. unfold bind at 1.
  assert (Hturn : (st' <- get ;;
                   assert (bool_decide (is_Some (shape_of (feature st') !! r)))
                          no_message) st
            = if bool_decide (tracked st r) then (Ok (), st)
              else (Raise (AssertionError no_message), st)).
  { unfold bind, get, assert, ret, raise, tracked. simpl.
    by destruct (bool_decide (is_Some (shape_of (feature st) !! r))). }
  rewrite Hturn. case_bool_decide as Hr.
  - rewrite IH. case_bool_decide as Hl.
    + rewrite bool_decide_eq_true_2; [done|by constructor].
    + rewrite bool_decide_eq_false_2; [done|].
      by intros [_ ?]%Forall_cons.
  - rewrite bool_decide_eq_false_2; [done|]. by intros [? _]%Forall_cons.
Qed.

(** X8. [on_import] of a node whose first output is already tracked is a
    check and nothing else: it returns without any change when every output
    and every input of the node is tracked, and fails on its assertion,
    again without any change, when one of them is not. *)
Theorem on_import_again (fg : Graph) (node : apply) (st : State) (out0 : var) :
  node_outputs (heap st) node !! 0 = Some out0 →
  tracked st out0 →
  (Forall (tracked st)
          (node_outputs (heap st) node ++ node_inputs (heap st) node) →
     on_import fg node st = (Ok (), st))
  ∧ (¬ Forall (tracked st)
              (node_outputs (heap st) node ++ node_inputs (heap st) node) →
     on_import fg node st = (Raise (AssertionError no_message), st)).
Proof.
  intros Hout Htr.
  assert (Hrun : on_import fg node st
            = forM_ (λ r, st' <- get ;;
                       assert (bool_decide
                                 (is_Some (shape_of (feature st') !! r)))
                              no_message)
                    (node_outputs (heap st) node ++ node_inputs (heap st) node)
                    st).
  { unfold on_import, bind at 1, get. unfold bind at 1. rewrite Hout. simpl.
    by rewrite bool_decide_eq_true_2. }
  rewrite Hrun, forM__asserts_tracked. split; intros Hall.
  - by rewrite bool_decide_eq_true_2.
  - by rewrite bool_decide_eq_false_2.
Qed.

(** What an import leaves tracked. *)
Lemma on_import_tracked (fg : Graph) (node : apply) (st st' : State) :
  on_import fg node st = (Ok (), st') →
  Forall (tracked st')
         (node_outputs (heap st) node ++ node_inputs (heap st) node).
Proof.
  intros Hrun. unfold on_import in Hrun.
  apply bind_Ok in Hrun as (? & ? & [= <- <-] & Hrun).
  apply bind_Ok in Hrun as (out0 & ? & [Hout ->]%or_raise_Ok & Hrun).
  case_bool_decide as Htr.
  - rewrite forM__asserts_tracked in Hrun.
    case_bool_decide as Hall; [|done]. by injection Hrun as <-.
  - apply bind_Ok in Hrun as ([] & st1 & Hins & Hrun).
    apply bind_Ok in Hrun as (o_shapes & st2 & Hinfer & Hrun).
    case_bool_decide as Hlen; simpl in Hrun; [|done].
    apply bind_Ok in Hrun as (o_shapes' & st3 & Hnorm & Hrun).
    assert (Himp : ∀ sa sb, imports sa sb → ∀ v, tracked sa v → tracked sb v).
    { intros sa sb (_ & Hdom & _) v. apply Hdom. }
    apply Forall_app. split.
    + apply Forall_forall. intros out Hin.
      apply mapM_length in Hnorm.
      assert (∃ s, (out, s) ∈ zip (node_outputs (heap st) node) o_shapes')
        as [s Hs].
      { apply list_elem_of_lookup in Hin as [i Hi].
        destruct (lookup_lt_is_Some_2 o_shapes' i) as [s Hs].
        { rewrite Hnorm, Hlen. apply lookup_lt_is_Some. by eexists. }
        exists s. apply list_elem_of_lookup. exists i.
        by apply lookup_zip_with_Some; exists out, s. }
      by apply (forM__Ok_all imports
                  (λ p : var * option (list shape_elem), set_shape p.1 p.2 false)
                  (λ p st0, tracked st0 p.1) _
                  (λ p, set_shape_imports p.1 p.2 false)
                  (λ p st0 st0', set_shape_tracks p.1 p.2 false st0 st0')
                  (λ p sa sb Hab, Himp sa sb Hab p.1)
                  _ _ Hrun (out, s)).
    + apply Forall_forall. intros v Hin.
      eapply Himp.
      { etrans; [|etrans].
        - eapply builds_imports, get_node_infer_shape_builds, Hinfer.
        - eapply (Steps_mapM imports); [|exact Hnorm]. intros sh.
          eapply Steps_weaken; [apply builds_imports|apply normalise_shape_builds].
        - eapply (Steps_forM_ imports); [|exact Hrun]. intros p.
          apply set_shape_imports. }
      by apply (forM__Ok_all imports init_r (λ r st0, tracked st0 r) _
                  init_r_imports init_r_tracks (λ r sa sb Hab, Himp sa sb Hab r)
                  _ _ Hins v).
Qed.

(** X9. When [on_import] returns, every input and every output of the
    node is tracked, no entry of [shape_of] has been lost, [scheduled] is as
    it was and the arena has only grown. *)
Theorem on_import_tracks (fg : Graph) (node : apply) (st st' : State) :
  on_import fg node st = (Ok (), st') →
  imports st st'
  ∧ Forall (tracked st')
           (node_outputs (heap st) node ++ node_inputs (heap st) node).
Proof.
  intros Hrun. split.
  - by eapply on_import_imports.
  - by apply (on_import_tracked fg).
Qed.

End ImportProperties.

Section Normalisation.
Context `{Collaborators} `{MoreCollaborators}.

Lemma normalised_le (h0 : Heap) (d e : shape_elem) (h h' : Heap) :
  heap_le h h' → normalised h0 d e h → normalised h0 d e h'.
Proof.
  intros Hle. unfold normalised. destruct d as [z|v]; [done|].
  intros Hn dt Hdt. specialize (Hn dt Hdt). case_decide; [done|].
  destruct Hn as (? & ? & c & -> & Hlit). split; [done|]. split; [done|].
  exists c. split; [done|].
  intros z Hz. eapply lookup_var_le; [done|]. by apply Hlit.
Qed.

Lemma dtype_live (h : Heap) (v : var) (dt : string) :
  type_dtype (type_of h v) = Some dt → is_Some (lookup_var h v).
Proof. unfold type_of. destruct (lookup_var h v); [by eexists|done]. Qed.

Lemma completed_slice (sh new_shape : list shape_elem) (i : nat) :
  length new_shape ≤ i → i < length sh →
  length (new_shape ++ py_slice sh (length new_shape) (i + 1)) = i + 1
  ∧ completed sh (new_shape ++ py_slice sh (length new_shape) (i + 1))
    = completed sh new_shape.
Proof.
  intros Hle Hi. unfold py_slice.
  assert (Hlen : length (new_shape
                         ++ take (i + 1 - length new_shape)
                                 (drop (length new_shape) sh)) = i + 1).
  { rewrite length_app, length_take, length_drop. lia. }
  split; [done|]. unfold completed. rewrite Hlen, <- app_assoc. f_equal.
  rewrite <- (take_drop (i + 1 - length new_shape)
                        (drop (length new_shape) sh)) at 2.
  f_equal. rewrite drop_drop. f_equal. lia.
Qed.

Lemma cast_elem_spec (v c : var) (st st' : State) :
  cast_elem (EVar v) st = (Ok c, st') →
  ∀ z, const_data (heap st) v = Some z → literal (heap st') c z.
Proof.
  unfold cast_elem. intros Hrun z Hz.
  apply bind_Ok in Hrun as (? & ? & [= <- <-] & Hrun).
  assert (Hc : is_Constant (heap st) v = true).
  { unfold const_data, is_Constant in *.
    destruct (lookup_var (heap st) v) as [[t [| |]]|]; done. }
  rewrite Hc, Hz in Hrun.
  destruct (constant_spec z st) as (st1 & Hrun' & _ & Hlit).
  rewrite Hrun' in Hrun. by injection Hrun as <- <-.
Qed.

Lemma normalise_dims_spec (h0 : Heap) (sh : list shape_elem) :
  ∀ rest i new_shape st res st',
    heap_le h0 (heap st) →
    drop i sh = rest →
    length new_shape ≤ i → i ≤ length sh →
    (∀ k d e, k < i → sh !! k = Some d →
       completed sh new_shape !! k = Some e → normalised h0 d e (heap st)) →
    normalise_dims sh i rest new_shape st = (Ok res, st') →
    length res ≤ length sh
    ∧ ∀ k d e, sh !! k = Some d →
        completed sh res !! k = Some e → normalised h0 d e (heap st').
Proof.
  induction rest as [|d rest IH];
    intros i new_shape st res st' Hh0 Hrest Hlen Hile Hinv Hrun.
  - injection Hrun as <- <-.
    assert (Hi : length sh ≤ i).
    { destruct (decide (length sh ≤ i)); [done|].
      assert (length (drop i sh) = 0) as Hd by by rewrite Hrest.
      rewrite length_drop in Hd. lia. }
    split; [lia|]. intros k d e Hd He. eapply Hinv; [|done..].
    apply lookup_lt_Some in Hd. lia.
  - assert (Hd : sh !! i = Some d).
    { rewrite <- (Nat.add_0_r i), <- lookup_drop, Hrest. done. }
    assert (Hi : i < length sh) by by eapply lookup_lt_Some.
    assert (Hrest' : drop (S i) sh = rest).
    { pose proof (f_equal (drop 1) Hrest) as Hr. rewrite drop_drop in Hr.
      by replace (i + 1) with (S i) in Hr by lia. }
    simpl in Hrun.
    apply bind_Ok in Hrun as (? & ? & [= <- <-] & Hrun).
    assert (Hkeep : ∀ k d0, k < S i → sh !! k = Some d0 →
              (elem_dtype (heap st) d = None
               ∨ elem_dtype (heap st) d = Some "int64") →
              ∀ e, completed sh new_shape !! k = Some e →
                   normalised h0 d0 e (heap st)).
    { intros k d0 Hk Hd0 Hskip e He.
      destruct (decide (k = i)) as [->|Hne]; [|apply (Hinv k); [lia|done..]].
      rewrite Hd in Hd0. injection Hd0 as <-.
      unfold completed in He.
      rewrite lookup_app_r, lookup_drop in He by lia.
      replace (length new_shape + (i - length new_shape)) with i in He by lia.
      rewrite Hd in He. injection He as <-.
      unfold normalised. destruct d as [z|v]; [done|].
      intros dt Hdt. simpl in Hskip.
      rewrite (type_of_le _ _ _ Hh0 (dtype_live _ _ _ Hdt)), Hdt in Hskip.
      destruct Hskip as [?|[= ->]]; [done|]. by rewrite decide_True. }
    destruct (elem_dtype (heap st) d) as [dt|] eqn:Hdt.
    2: { eapply (IH (S i) new_shape st); [done|done|lia|lia| |exact Hrun].
         intros k d0 e Hk. intros ? ?. by eapply Hkeep; [..|by left|]. }
    case_bool_decide as Hint.
    { subst dt.
      eapply (IH (S i) new_shape st); [done|done|lia|lia| |exact Hrun].
      intros k d0 e Hk. intros ? ?. by eapply Hkeep; [..|by right|]. }
    apply bind_Ok in Hrun as ([] & ? & [Hdisc ->]%assert_Ok & Hrun).
    apply bind_Ok in Hrun as ([] & ? & [Hu ->]%assert_Ok & Hrun).
    apply bind_Ok in Hrun as (c & st1 & Hcast & Hrun).
    destruct (completed_slice sh new_shape i Hlen Hi) as [Hlen1 Hcomp].
    rewrite bool_decide_eq_true_2 in Hrun by lia.
    pose proof (cast_elem_builds d _ _ _ Hcast) as [Hle1 _].
    eapply (IH (S i) _ st1); [by etrans|done| |lia| |exact Hrun].
    { rewrite length_insert. lia. }
    intros k d0 e Hk Hd0 He.
    unfold completed in He. rewrite length_insert in He.
    assert (Hcomp' : <[i := EVar c]>
                       (new_shape ++ py_slice sh (length new_shape) (i + 1))
                     ++ drop (length (new_shape
                                      ++ py_slice sh (length new_shape) (i + 1)))
                             sh
                     = <[i := EVar c]> (completed sh new_shape)).
    { rewrite <- Hcomp. unfold completed.
      symmetry. apply insert_app_l. rewrite Hlen1. lia. }
    rewrite Hcomp' in He.
    destruct (decide (k = i)) as [->|Hne].
    + rewrite list_lookup_insert_eq in He.
      2: { unfold completed. rewrite length_app, length_drop. lia. }
      injection He as <-. rewrite Hd in Hd0. injection Hd0 as <-.
      unfold normalised. destruct d as [z|v]; [done|].
      intros dt0 Hdt0. simpl in Hdt.
      rewrite (type_of_le _ _ _ Hh0 (dtype_live _ _ _ Hdt0)), Hdt0 in Hdt.
      injection Hdt as ->. rewrite decide_False by done.
      apply bool_decide_eq_true in Hdisc.
      apply negb_true_iff, bool_decide_eq_false in Hu.
      split; [done|]. split; [done|].
      exists c. split; [done|]. intros z Hz.
      eapply cast_elem_spec; [done|].
      unfold const_data in *.
      destruct (lookup_var h0 v) as [o|] eqn:Ho; [|done].
      by rewrite (lookup_var_le _ _ _ _ Hh0 Ho).
    + rewrite list_lookup_insert_ne in He by done.
      eapply normalised_le; [done|]. apply (Hinv k d0 e); [lia|done..].
Qed.

(** X10. The normalisation of [on_import] keeps the length of an inferred
    shape, keeps every number and every [int64] variable where it is, and
    puts a variable in the place of each variable of another dtype (an
    [int64] constant of the same value for a constant); it only returns
    when all these other dtypes are discrete and none is ["uint64"]. *)
Theorem normalise_shape_spec (sh sh' : list shape_elem) (st st' : State) :
  normalise_shape (Some sh) st = (Ok (Some sh'), st') →
  builds st st'
  ∧ length sh' = length sh
  ∧ ∀ k d, sh !! k = Some d →
      ∃ e, sh' !! k = Some e ∧ normalised (heap st) d e (heap st').
Proof.
  intros Hrun.
  split; [by eapply (normalise_shape_builds (Some sh))|].
  unfold normalise_shape in Hrun.
  apply bind_Ok in Hrun as (res & st1 & Hloop & Hrun).
  destruct (normalise_dims_spec (heap st) sh sh 0 [] st res st1)
    as [Hlen Hall]; [done|done|simpl; lia|lia|lia|done|].
  assert (Hres : sh' = completed sh res ∧ st' = st1).
  { unfold completed. destruct res as [|e res].
    - by injection Hrun as <- <-.
    - injection Hrun as <- <-. split; [|done]. simpl. do 2 f_equal.
      apply take_ge. rewrite length_drop. simpl in Hlen. lia. }
  destruct Hres as [-> ->].
  assert (Hlen' : length (completed sh res) = length sh).
  { unfold completed. rewrite length_app, length_drop. lia. }
  split; [done|]. intros k d Hd.
  destruct (lookup_lt_is_Some_2 (completed sh res) k) as [e He].
  { rewrite Hlen'. by eapply lookup_lt_Some. }
  exists e. split; [done|]. by eapply Hall.
Qed.

End Normalisation.

(** ** The life of a feature: [on_attach], [on_detach] *)

Lemma forM__Ok_keeps {A} (f : A → M unit) (I : State → Prop) (l : list A) :
  (∀ x st st', f x st = (Ok (), st') → I st → I st') →
  ∀ st st', forM_ f l st = (Ok (), st') → I st → I st'.
Proof.
  intros Hf. induction l as [|x l IH]; intros st st' Hrun HI.
  - by injection Hrun as <-.
  - simpl in Hrun. apply bind_Ok in Hrun as ([] & st1 & Hx & Hl).
    eapply IH; [done|]. by eapply Hf.
Qed.

Lemma ndim_live (h : Heap) (v : var) (n : nat) :
  type_ndim (type_of h v) = Some n → is_Some (lookup_var h v).
Proof. unfold type_of. destruct (lookup_var h v); [by eexists|done]. Qed.

Lemma node_inputs_le (h h' : Heap) (n : apply) :
  heap_le h h' → is_Some (lookup_node h n) →
  node_inputs h' n = node_inputs h n.
Proof.
  intros Hle [a Ha]. unfold node_inputs.
  by rewrite (lookup_node_le _ _ _ _ Hle Ha), Ha.
Qed.

Lemma ranked_builds (st st' : State) : builds st st' → ranked st → ranked st'.
Proof.
  intros [Hle Hf] Hr v t Hv. rewrite Hf in Hv. specialize (Hr v t Hv).
  by rewrite (type_of_le _ _ _ Hle (ndim_live _ _ _ Hr)).
Qed.

Section Lifecycle.
Context `{Collaborators} `{MoreCollaborators}.

Lemma set_shape_ranked (r : var) (s : option (list shape_elem))
    (override : bool) (st st' : State) :
  set_shape r s override st = (Ok (), st') → ranked st → ranked st'.
Proof.
  intros Hrun Hr v t Hv. destruct s as [l|].
  - apply set_shape_spec in Hrun as (sh & Hshape & _ & Hle & Hnd & Hall).
    apply Forall2_length in Hall. rewrite length_seq in Hall.
    rewrite Hshape in Hv.
    destruct (decide (r = v)) as [<-|Hne].
    + rewrite lookup_insert_eq in Hv. injection Hv as <-.
      rewrite (type_of_le _ _ _ Hle (ndim_live _ _ _ Hnd)).
      by rewrite Hnd, Hall.
    + rewrite lookup_insert_ne in Hv by done. specialize (Hr v t Hv).
      by rewrite (type_of_le _ _ _ Hle (ndim_live _ _ _ Hr)).
  - apply set_shape_None in Hrun as ->. simpl in *.
    destruct (decide (r = v)) as [<-|Hne].
    + by rewrite lookup_insert_eq in Hv.
    + rewrite lookup_insert_ne in Hv by done. by apply Hr.
Qed.

Lemma init_r_ranked (r : var) (st st' : State) :
  init_r r st = (Ok (), st') → ranked st → ranked st'.
Proof.
  unfold init_r. intros Hrun Hr.
  apply bind_Ok in Hrun as (? & ? & [= <- <-] & Hrun).
  destruct (shape_of (feature st) !! r).
  - by injection Hrun as <-.
  - apply bind_Ok in Hrun as (s & st1 & Htup & Hrun).
    eapply set_shape_ranked; [done|]. eapply ranked_builds; [|done].
    by eapply shape_tuple_builds.
Qed.

Lemma on_import_ranked (fg : Graph) (node : apply) (st st' : State) :
  on_import fg node st = (Ok (), st') → ranked st → ranked st'.
Proof.
  unfold on_import. intros Hrun Hr.
  apply bind_Ok in Hrun as (? & ? & [= <- <-] & Hrun).
  apply bind_Ok in Hrun as (out0 & ? & [Hout ->]%or_raise_Ok & Hrun).
  destruct (bool_decide (is_Some (shape_of (feature st) !! out0))).
  - rewrite forM__asserts_tracked in Hrun.
    destruct (bool_decide (Forall _ _)); [|done]. by injection Hrun as <-.
  - apply bind_Ok in Hrun as ([] & st1 & Hins & Hrun).
    apply bind_Ok in Hrun as (o_shapes & st2 & Hinfer & Hrun).
    destruct (negb _); [done|].
    apply bind_Ok in Hrun as (o_shapes' & st3 & Hnorm & Hrun).
    eapply (forM__Ok_keeps _ ranked); [|exact Hrun|].
    + intros p sa sb. apply set_shape_ranked.
    + eapply ranked_builds.
      { etrans.
        - eapply get_node_infer_shape_builds, Hinfer.
        - eapply (Steps_mapM builds); [|exact Hnorm].
          intros sh. apply normalise_shape_builds. }
      eapply (forM__Ok_keeps _ ranked); [|exact Hins|done].
      intros x sa sb. apply init_r_ranked.
Qed.

Lemma on_import_live (fg : Graph) (node : apply) (st st' : State) :
  on_import fg node st = (Ok (), st') → is_Some (lookup_node (heap st) node).
Proof.
  unfold on_import. intros Hrun.
  apply bind_Ok in Hrun as (? & ? & [= <- <-] & Hrun).
  apply bind_Ok in Hrun as (out0 & ? & [Hout ->]%or_raise_Ok & _).
  unfold node_outputs in Hout.
  destruct (lookup_node (heap st) node); [by eexists|done].
Qed.

(** X11. When [on_attach] returns, the graph holds the feature, [scheduled]
    is empty, every tuple of [shape_of] has as many entries as its variable
    has dimensions, and every node of the topological order has a first
    output and has all its outputs and all its inputs tracked. *)
Theorem on_attach_tracks (fgraph : FunctionGraph) (toposort : list apply)
    (st st' : State) (fg' : FunctionGraph) :
  on_attach fgraph toposort st = Attached (Ok ()) st' fg' →
  fg' = {| graph := graph fgraph; shape_feature := Some (feature st') |}
  ∧ heap_le (heap st) (heap st')
  ∧ scheduled (feature st') = ∅
  ∧ ranked st'
  ∧ ∀ node, node ∈ toposort →
      node_outputs (heap st') node ≠ []
      ∧ Forall (tracked st')
               (node_outputs (heap st') node ++ node_inputs (heap st') node).
Proof.
  unfold on_attach. destruct (shape_feature fgraph); [done|].
  match goal with
  | |- context [let '(_, _) := ?m in _] => destruct m as [r st1] eqn:Hrun
  end.
  intros [= -> -> <-].
  apply bind_Ok in Hrun as (? & ? & [= <- <-] & Hrun).
  apply bind_Ok in Hrun as (d & ? & [Hd ->]%or_raise_Ok & Hrun).
  apply bind_Ok in Hrun as ([] & ? & [Hint ->]%assert_Ok & Hrun).
  apply bind_Ok in Hrun as ([] & st0 & [= <-] & Hrun).
  pose proof (Steps_forM_ imports _ _ (on_import_imports (graph fgraph))
                _ _ _ Hrun) as (Hle & _ & Hsched).
  split; [done|]. split; [done|]. split; [done|]. split.
  - eapply (forM__Ok_keeps _ ranked); [|exact Hrun|].
    + intros x sa sb. apply on_import_ranked.
    + intros v t Hv. simpl in Hv. by rewrite lookup_empty in Hv.
  - intros node Hnode.
    pose proof (forM__Ok_all imports (on_import (graph fgraph))
                  (λ n s, is_Some (node_outputs (heap s) n !! 0)
                          ∧ Forall (tracked s)
                              (node_outputs (heap s) n ++ node_inputs (heap s) n))
                  toposort (on_import_imports (graph fgraph))) as Hall.
    destruct (Hall) with (st' := st') (x := node) (3 := Hrun) as [Hout Htr];
      [| |done|].
    + intros x sa sb Hx.
      pose proof (on_import_live _ _ _ _ Hx) as Hlive.
      pose proof (on_import_imports _ _ _ _ _ Hx) as (Hle' & _).
      pose proof (on_import_tracked _ _ _ _ Hx) as Htr.
      rewrite (node_outputs_le _ _ _ Hle' Hlive), (node_inputs_le _ _ _ Hle' Hlive).
      split; [|done].
      unfold on_import in Hx.
      apply bind_Ok in Hx as (? & ? & [= <- <-] & Hx).
      apply bind_Ok in Hx as (out0 & ? & [Hout ->]%or_raise_Ok & _).
      by eexists.
    + intros x sa sb (Hle' & Hdom & _) [Hout Htr].
      assert (Hlive : is_Some (lookup_node (heap sa) x)).
      { unfold node_outputs in Hout. destruct (lookup_node (heap sa) x); [by eexists|].
        by destruct Hout. }
      rewrite (node_outputs_le _ _ _ Hle' Hlive), (node_inputs_le _ _ _ Hle' Hlive).
      split; [done|]. eapply Forall_impl; [exact Htr|]. intros v. apply Hdom.
    + split; [|done]. destruct Hout as [o Ho]. intros Hnil. by rewrite Hnil in Ho.
Qed.

(** X12. A graph that holds a feature refuses a second one with
    [AlreadyThere], before anything is done, and so does the graph that
    [on_attach] leaves, whether the import of its nodes went through or
    not.  [on_detach] always empties the three dictionaries and leaves a
    graph without a feature; it raises [AttributeError] exactly when the
    graph held none, as does a second [on_detach]; a graph that is detached
    can be attached again. *)
Theorem attach_detach_lifecycle (fgraph : FunctionGraph)
    (toposort : list apply) (st : State) :
  (is_Some (shape_feature fgraph) →
     on_attach fgraph toposort st = AlreadyThere)
  ∧ (∀ r st' fg' toposort' st'',
       on_attach fgraph toposort st = Attached r st' fg' →
       shape_feature fgraph = None
       ∧ shape_feature fg' = Some (feature st')
       ∧ on_attach fg' toposort' st'' = AlreadyThere)
  ∧ (∀ r st' fg',
       on_detach fgraph st = (r, st', fg') →
       feature st' = no_feature
       ∧ heap st' = heap st ∧ warnings st' = warnings st
       ∧ shape_feature fg' = None ∧ graph fg' = graph fgraph
       ∧ (r = Ok () ↔ is_Some (shape_feature fgraph))
       ∧ (r = Raise AttributeError ↔ shape_feature fgraph = None)
       ∧ on_detach fg' st' = (Raise AttributeError, st', fg')
       ∧ on_attach fg' toposort st' ≠ AlreadyThere).
Proof.
  split; [|split].
  - intros [f Hf]. unfold on_attach. by rewrite Hf.
  - intros r st' fg' toposort' st''. unfold on_attach at 1.
    destruct (shape_feature fgraph); [done|].
    match goal with
    | |- context [let '(_, _) := ?m in _] => destruct m as [r1 st1]
    end.
    intros [= -> -> <-]. by repeat split.
  - intros r st' fg'. unfold on_detach.
    assert (Hagain : ∀ g s,
              on_attach {| graph := g; shape_feature := None |} toposort s
              ≠ AlreadyThere).
    { intros g s. unfold on_attach. simpl.
      match goal with
      | |- context [let '(_, _) := ?m in _] => by destruct m
      end. }
    destruct (shape_feature fgraph) as [f|] eqn:Hf; intros [= <- <- <-]; simpl.
    + repeat split; try done; try (by intros; eexists).
    + rewrite Hf. repeat split; try done.
      destruct fgraph as [g o]. simpl in Hf. subst o. apply Hagain.
Qed.

End Lifecycle.

(** ** Shape inference: [default_infer_shape], [get_node_infer_shape] *)

Section Inference.
Context `{Collaborators}.

Lemma default_infer_shape_spec (node : apply) (st : State) :
  ∃ l st',
    default_infer_shape node st = (Ok l, st')
    ∧ grows st st'
    ∧ length l = length (node_outputs (heap st) node)
    ∧ ∀ i r, node_outputs (heap st) node !! i = Some r →
        is_Some (lookup_var (heap st) r) →
        ∃ o, l !! i = Some o ∧ default_shape (heap st) r o.
Proof.
  unfold default_infer_shape, bind at 1, get.
  destruct (mapM_total
              (λ r, catch (o <- shape_tuple r ;; ret (map EVar <$> o))
                          (λ e, match e with
                                | AttributeError => Some (ret None)
                                | _ => None
                                end))
              (λ st0, heap_le (heap st) (heap st0))
              (λ r o _, is_Some (lookup_var (heap st) r) →
                        default_shape (heap st) r o)
              (node_outputs (heap st) node)) with (st := st)
    as (l & st' & Hrun & Hg & _ & Hall).
  - intros r st0 _ Hle.
    destruct (type_of (heap st0) r) as [d sh|d n] eqn:Ht.
    + destruct (shape_tuple_entries r st0) as [_ Htup].
      destruct (Htup d sh Ht) as (t & st1 & Hrun & Hg & Hlen & _).
      exists (Some (EVar <$> t)), st1. unfold catch, bind. rewrite Hrun. simpl.
      split; [done|]. split; [done|]. split; [etrans; [done|apply Hg]|].
      intros Hlive. unfold default_shape.
      rewrite <- (type_of_le _ _ _ Hle Hlive), Ht. by exists t.
    + destruct (shape_tuple_entries r st0) as [Hnone _].
      exists None, st0. unfold catch, bind. rewrite Hnone by by rewrite Ht.
      simpl. split; [done|]. split; [done|]. split; [done|].
      intros Hlive. unfold default_shape.
      by rewrite <- (type_of_le _ _ _ Hle Hlive), Ht.
  - done.
  - done.
  - exists l, st'. split; [done|]. split; [done|].
    pose proof (Forall2_length _ _ _ Hall) as Hlen. split; [done|].
    intros i r Hr Hlive.
    destruct (Forall2_lookup_l _ _ _ i r Hall Hr) as (o & Ho & HQ).
    exists o. split; [done|]. by apply HQ.
Qed.

(** X13. The fallback [default_infer_shape] never fails and only builds new
    objects.  It answers one shape per output of the node: [None] for an
    output whose type is not [HasShape], and otherwise a tuple of variables
    with one entry per dimension of the output. *)
Theorem default_infer_shape_total (node : apply) (st : State) :
  ∃ l st',
    default_infer_shape node st = (Ok l, st')
    ∧ grows st st'
    ∧ length l = length (node_outputs (heap st) node)
    ∧ ∀ i r, node_outputs (heap st) node !! i = Some r →
        is_Some (lookup_var (heap st) r) →
        ∃ o, l !! i = Some o ∧ default_shape (heap st) r o.
Proof. apply default_infer_shape_spec. Qed.

(** X14. The paths of [get_node_infer_shape] on which no rule fails.  When
    an input of the node has no entry in [shape_of] the call raises
    [KeyError] whatever the policy [on_shape_error] is, with no warning and
    no other change: the report that the handler builds needs the very
    entry that is missing.  For an operator without an [infer_shape] the
    answer is the fallback, which never fails and gives one shape per
    output.  When the rule of the operator returns, its answer is handed
    over as it is, with the objects it built. *)
Theorem get_node_infer_shape_paths (fg : Graph) (node : apply) (st : State) :
  (input_shapes st node = None →
     get_node_infer_shape fg node st = (Raise KeyError, st))
  ∧ (∀ i_shapes,
       input_shapes st node = Some i_shapes →
       node_op (heap st) node ≫= infer_shape = None →
       get_node_infer_shape fg node st = default_infer_shape node st
       ∧ ∃ l st', get_node_infer_shape fg node st = (Ok l, st')
                  ∧ length l = length (node_outputs (heap st) node))
  ∧ (∀ o rule i_shapes shapes new,
       node_op (heap st) node = Some o →
       infer_shape o = Some rule →
       input_shapes st node = Some i_shapes →
       rule fg (heap st) node i_shapes = (Ok shapes, new) →
       get_node_infer_shape fg node st = (Ok shapes, after_rule st new)).
Proof.
  split; [|split].
  - intros Hnone. unfold get_node_infer_shape, bind at 1, get.
    unfold catch, bind at 1, bind at 1, get, or_raise. rewrite Hnone. simpl.
    unfold bind, get, or_raise. by rewrite Hnone.
  - intros i_shapes Hin Hop.
    destruct (default_infer_shape_spec node st) as (l & st' & Hrun & _ & Hlen & _).
    assert (Heq : get_node_infer_shape fg node st
                  = default_infer_shape node st).
    { unfold get_node_infer_shape, bind at 1, get.
      unfold catch, bind at 1, bind at 1, get, or_raise. rewrite Hin. simpl.
      rewrite Hop. by rewrite Hrun. }
    split; [done|]. exists l, st'. by rewrite Heq.
  - intros o rule i_shapes shapes new Hop Hrule Hin Hans.
    unfold get_node_infer_shape, bind at 1, get.
    unfold catch, bind at 1, bind at 1, get, or_raise. rewrite Hin. simpl.
    rewrite Hop. simpl. rewrite Hrule. unfold run_rule. by rewrite Hans.
Qed.

End Inference.

(** ** [get_shape], [set_shape_i], [update_shape] *)

Section Entries.
Context `{Collaborators}.

Lemma stale_fresh (fg : Graph) (h : Heap) (s : var) :
  fresh fg h s → stale fg h s = Ok false.
Proof.
  intros Hfresh. unfold stale.
  destruct (owner_of h s) as [n|] eqn:Hown; [|done].
  destruct (node_op h n) as [[i| | | |]|] eqn:Hop; try done.
  destruct (Hfresh n i Hown Hop) as (x & rest & -> & Hx).
  by rewrite bool_decide_eq_false_2 by by intros Hn.
Qed.

(** X15. [get_shape(var, idx)] raises [KeyError] for a variable that is not
    tracked, fails on its assertion for a variable of unknown shape, and
    raises [IndexError] for an index outside the tuple; for an entry that
    is not stale it returns the entry itself.  Nothing changes in any of
    these cases. *)
Theorem get_shape_of_a_fresh_entry (fuel : nat) (fg : Graph) (v : var)
    (idx : Z) (st : State) :
  (shape_of (feature st) !! v = None →
     get_shape (S fuel) fg v idx st = (Raise KeyError, st))
  ∧ (shape_of (feature st) !! v = Some None →
     get_shape (S fuel) fg v idx st
     = (Raise (AssertionError no_message), st))
  ∧ (∀ sh, shape_of (feature st) !! v = Some (Some sh) →
       py_index sh idx = None →
       get_shape (S fuel) fg v idx st = (Raise IndexError, st))
  ∧ (∀ sh s, shape_of (feature st) !! v = Some (Some sh) →
       py_index sh idx = Some s →
       fresh fg (heap st) s →
       get_shape (S fuel) fg v idx st = (Ok s, st)).
Proof.
  repeat split.
  - intros Hv. simpl. unfold lookup_dim. run. by rewrite Hv.
  - intros Hv. simpl. unfold lookup_dim. run. by rewrite Hv.
  - intros sh Hv Hidx. simpl. unfold lookup_dim. run. rewrite Hv. simpl.
    by rewrite Hidx.
  - intros sh s Hv Hidx Hfresh. simpl. unfold lookup_dim. run.
    rewrite Hv. simpl. rewrite Hidx. simpl. by rewrite stale_fresh.
Qed.

Lemma replace_dim_spec (i : Z) (s_i : shape_elem) (prev : list var) :
  ∀ j st new st',
    replace_dim i s_i j prev st = (Ok new, st') →
    length new = length prev
    ∧ grows st st'
    ∧ (∀ k, Z.of_nat (j + k) ≠ i → new !! k = prev !! k)
    ∧ (∀ k, Z.of_nat (j + k) = i → k < length prev →
         to_symbolic_int s_i st = (Ok (default 0 (new !! k)), st')
         ∧ is_Some (new !! k))
    ∧ ((i < Z.of_nat j ∨ Z.of_nat (j + length prev) ≤ i)%Z → st' = st).
Proof.
  induction prev as [|s_j rest IH]; intros j st new st' Hrun.
  - injection Hrun as <- <-.
    split; [done|]. split; [done|]. split; [done|]. split; [|done].
    intros k _ Hk. simpl in Hk. lia.
  - simpl in Hrun.
    apply bind_Ok in Hrun as (x & st1 & Hx & Hrun).
    apply bind_Ok in Hrun as (xs & st2 & Hrest & Hrun).
    injection Hrun as <- <-.
    destruct (IH _ _ _ _ Hrest) as (Hlen & Hg & Hother & Hat & Hout).
    destruct (bool_decide (Z.of_nat j = i)) eqn:Hj.
    + apply bool_decide_eq_true_1 in Hj.
      assert (st2 = st1) as -> by (apply Hout; lia).
      split; [by simpl; rewrite Hlen|].
      split; [by eapply to_symbolic_int_grows|].
      split; [|split].
      * intros [|k] Hk; [rewrite Nat.add_0_r in Hk; lia|]. simpl.
        apply Hother. lia.
      * intros [|k] Hk Hlt; [by simpl; eauto|]. lia.
      * simpl. lia.
    + apply bool_decide_eq_false_1 in Hj. injection Hx as <- <-.
      split; [by simpl; rewrite Hlen|]. split; [done|].
      split; [|split].
      * intros [|k] Hk; [done|]. simpl. apply Hother. lia.
      * intros [|k] Hk Hlt; [rewrite Nat.add_0_r in Hk; lia|]. simpl.
        apply Hat; [lia|simpl in Hlt; lia].
      * intros Hi. apply Hout. simpl in Hi. lia.
Qed.

Lemma replace_dim_grows (i : Z) (s_i : shape_elem) (prev : list var) :
  ∀ j, Steps grows (replace_dim i s_i j prev).
Proof.
  induction prev as [|s_j rest IH]; intros j; simpl.
  - apply Steps_ret, _.
  - steps_tac; try apply IH. apply to_symbolic_int_grows.
Qed.

(** X16. [set_shape_i(r, i, s_i)] raises [KeyError] for a variable that is
    not tracked and fails on its assertion for a variable of unknown shape,
    without any change.  When it returns, the tuple of [r] has kept its
    length and every entry but the one at [i], which is what
    [to_symbolic_int] made of [s_i]; no other entry of [shape_of] and
    nothing of [scheduled] has changed.  An index that is negative or past
    the end names no entry: the tuple is recorded again as it was. *)
Theorem set_shape_i_replaces (r : var) (i : Z) (s_i : shape_elem)
    (st : State) :
  (shape_of (feature st) !! r = None →
     set_shape_i r i s_i st = (Raise KeyError, st))
  ∧ (shape_of (feature st) !! r = Some None →
     set_shape_i r i s_i st = (Raise (AssertionError no_message), st))
  ∧ ∀ st', set_shape_i r i s_i st = (Ok (), st') →
      ∃ prev new,
        shape_of (feature st) !! r = Some (Some prev)
        ∧ shape_of (feature st') = <[r := Some new]> (shape_of (feature st))
        ∧ scheduled (feature st') = scheduled (feature st)
        ∧ heap_le (heap st) (heap st')
        ∧ length new = length prev
        ∧ (∀ k, Z.of_nat k ≠ i → new !! k = prev !! k)
        ∧ (∀ k, Z.of_nat k = i → k < length prev →
             ∃ y st1, to_symbolic_int s_i st = (Ok y, st1)
                      ∧ heap st' = heap st1 ∧ new !! k = Some y)
        ∧ ((i < 0 ∨ Z.of_nat (length prev) ≤ i)%Z →
             new = prev ∧ heap st' = heap st).
Proof.
  split; [|split].
  - intros Hr. unfold set_shape_i. run. by rewrite Hr.
  - intros Hr. unfold set_shape_i. run. by rewrite Hr.
  - intros st' Hrun. unfold set_shape_i in Hrun.
    apply bind_Ok in Hrun as (? & ? & [= <- <-] & Hrun).
    apply bind_Ok in Hrun as (o & ? & [Ho ->]%or_raise_Ok & Hrun).
    apply bind_Ok in Hrun as (prev & ? & [-> ->]%or_raise_Ok & Hrun).
    apply bind_Ok in Hrun as (new & st1 & Hloop & Hrun).
    apply bind_Ok in Hrun as (? & ? & [= <- <-] & Hrun).
    apply bind_Ok in Hrun as (ndim & ? & [_ ->]%or_raise_Ok & Hrun).
    apply bind_Ok in Hrun as (ok & ? & [_ ->]%lift_res_Ok & Hrun).
    apply bind_Ok in Hrun as ([] & ? & [_ ->]%assert_Ok & Hrun).
    apply bind_Ok in Hrun as ([] & st2 & [= <-] & Hrun).
    destruct (register_reverse_spec r new
                {| heap := heap st1;
                   feature := shape_of_set r (Some new) (feature st1);
                   warnings := warnings st1 |})
      as (st3 & Hreg & Hheap & Hshape & Hsched & _).
    rewrite Hreg in Hrun. injection Hrun as <-.
    destruct (replace_dim_spec _ _ _ _ _ _ _ Hloop)
      as (Hlen & (Hle & Hf & _) & Hother & Hat & Hout).
    exists prev, new. rewrite Hshape, Hsched, Hheap. simpl. rewrite Hf.
    split; [done|]. split; [done|]. split; [done|]. split; [done|].
    split; [done|]. split; [|split].
    + intros k Hk. by apply Hother.
    + intros k Hk Hlt. destruct (Hat k) as [Hsym Hsome]; [done..|].
      destruct (new !! k) as [y|]; [|by destruct Hsome].
      by exists y, st1.
    + intros Hi. split; [|by rewrite Hout by (simpl; lia)].
      apply list_eq. intros k.
      destruct (decide (Z.of_nat k = i)) as [Heq|Hne]; [|by apply Hother].
      rewrite !lookup_ge_None_2 by lia. done.
Qed.

Lemma merge_dim_raises (h : Heap) (r other_r : var) (r_shape : option (list var))
    (i : nat) (ps : var) (e : exn) :
  merge_dim h r other_r r_shape i ps = Raise e → e = IndexError.
Proof.
  unfold merge_dim, uninformative. destruct r_shape as [l|]; [|done].
  destruct (l !! i) as [rs|]; [|by intros [= <-]].
  destruct (owner_Shape_i h ps) as [[n k]|].
  - destruct (bool_decide (k = Z.of_nat i)).
    + destruct (node_inputs h n); [by intros [= <-]|].
      by repeat case_match.
    + by repeat case_match.
  - by repeat case_match.
Qed.

Lemma merge_from_short (h : Heap) (r other_r : var) (r_shape other_shape : list var) :
  ∀ i, i ≤ length r_shape → length r_shape < i + length other_shape →
       merge_from h r other_r (Some r_shape) i other_shape = Raise IndexError.
Proof.
  induction other_shape as [|ps rest IH]; intros i Hi Hlen;
    cbn [merge_from length] in *; [lia|].
  destruct (merge_dim h r other_r (Some r_shape) i ps) as [m|e] eqn:Hm.
  - rewrite IH; [done| |lia].
    unfold merge_dim in Hm. destruct (r_shape !! i) eqn:Hrs; [|done].
    apply lookup_lt_Some in Hrs. lia.
  - by apply merge_dim_raises in Hm as ->.
Qed.

(** X17. [update_shape(r, other_r)] fails on its first assertion when
    [other_r] is not tracked, and raises [IndexError] when both variables
    have a tuple, they are not outputs of one application, and the tuple of
    [other_r] is longer than the tuple of [r]; nothing changes in either
    case. *)
Theorem update_shape_refuses (r other_r : var) (st : State) :
  (shape_of (feature st) !! other_r = None →
     update_shape r other_r st
     = (Raise (AssertionError "other_r not in shape_of"), st))
  ∧ (∀ r_shape other_shape,
       shape_of (feature st) !! other_r = Some (Some other_shape) →
       shape_of (feature st) !! r = Some (Some r_shape) →
       same_application (heap st) r other_r = false →
       length r_shape < length other_shape →
       update_shape r other_r st = (Raise IndexError, st)).
Proof.
  split.
  - intros Ho. unfold update_shape. run. by rewrite Ho.
  - intros r_shape other_shape Ho Hr Hsame Hlen.
    unfold update_shape. run. rewrite Ho, Hr, Hsame.
    by rewrite merge_from_short by (simpl; lia).
Qed.

End Entries.

(** ** [on_change_input] *)

#[global] Instance extends_preorder : PreOrder extends.
Proof.
  split.
  - by intros st.
  - intros s1 s2 s3 [? ?] [? ?]. split; [by etrans|auto].
Qed.

#[global] Instance queued_preorder (new_r : var) : PreOrder (queued new_r).
Proof.
  split.
  - intros st k v Hk. by left.
  - intros s1 s2 s3 H12 H23 k v Hk.
    destruct (H23 k v Hk) as [Hk'|?]; [|by right]. by apply H12.
Qed.

Lemma imports_extends (st st' : State) : imports st st' → extends st st'.
Proof. by intros (? & ? & _). Qed.

Lemma imports_queued (new_r : var) (st st' : State) :
  imports st st' → queued new_r st st'.
Proof. intros (_ & _ & Hs) k v Hk. left. by rewrite <- Hs. Qed.

Section ChangeInput.
Context `{Collaborators}.

Lemma update_shape_imports (r other_r : var) :
  Steps imports (update_shape r other_r).
Proof.
  unfold update_shape. steps_tac;
    try apply set_shape_imports;
    try (apply Steps_modify_feature; intros; apply shape_of_set_imports);
    try apply register_reverse_imports.
Qed.

Lemma set_shape_i_imports (r : var) (i : Z) (s_i : shape_elem) :
  Steps imports (set_shape_i r i s_i).
Proof.
  unfold set_shape_i. steps_tac;
    try (apply Steps_modify_feature; intros; apply shape_of_set_imports);
    try apply register_reverse_imports.
  eapply Steps_weaken; [|apply replace_dim_grows].
  intros. by apply builds_imports, grows_builds.
Qed.

Lemma repoint_dims_imports (r new_r v : var) (shape : list var) :
  ∀ ii, Steps imports (repoint_dims r new_r v ii shape).
Proof.
  induction shape as [|svi rest IH]; intros ii; simpl.
  - apply Steps_ret, _.
  - steps_tac; try apply IH. apply set_shape_i_imports.
Qed.

Lemma repoint_imports (r new_r v : var) : Steps imports (repoint r new_r v).
Proof. unfold repoint. steps_tac. apply repoint_dims_imports. Qed.

Lemma schedule_client_extends (new_r : var) (c : client * Z) :
  Steps extends (schedule_client new_r c).
Proof.
  unfold schedule_client. steps_tac.
  apply Steps_modify_feature. by intros st.
Qed.

Lemma schedule_client_queued (new_r : var) (c : client * Z) :
  Steps (queued new_r) (schedule_client new_r c).
Proof.
  unfold schedule_client. steps_tac.
  apply Steps_modify_feature. intros st k v. simpl.
  destruct (decide (n = k)) as [<-|Hne].
  - rewrite lookup_insert_eq. intros [= <-]. by right.
  - rewrite lookup_insert_ne by done. by left.
Qed.

(** X18. When [on_change_input(node, i, r, new_r)] returns, the arena has
    only grown, every variable that was tracked still is, and [new_r] is
    tracked; no entry of [scheduled] points to [r], and each entry is one
    that was there before or points to [new_r]; the reverse index of [r] is
    the empty set. *)
Theorem on_change_input_settles (fg : Graph) (node : apply) (i : Z)
    (r new_r : var) (st st' : State) :
  on_change_input fg node i r new_r st = (Ok (), st') →
  extends st st'
  ∧ tracked st' new_r
  ∧ (∀ k v, scheduled (feature st') !! k = Some v →
       v ≠ r ∧ (scheduled (feature st) !! k = Some v ∨ v = new_r))
  ∧ shape_of_reverse_index (feature st') !! r = Some ∅.
Proof.
  unfold on_change_input. intros Hrun.
  apply bind_Ok in Hrun as ([] & st1 & Hinit & Hrun).
  apply bind_Ok in Hrun as ([] & st2 & Hupd & Hrun).
  apply bind_Ok in Hrun as (cl & ? & [Hcl ->]%or_raise_Ok & Hrun).
  apply bind_Ok in Hrun as ([] & st3 & Hsched & Hrun).
  apply bind_Ok in Hrun as ([] & st4 & [= <-] & Hrun).
  apply bind_Ok in Hrun as (? & ? & [= <- <-] & Hrun).
  apply bind_Ok in Hrun as ([] & st5 & Hrep & Hrun).
  injection Hrun as <-. simpl in Hrep.
  pose proof (init_r_imports _ _ _ _ Hinit) as H01.
  pose proof (update_shape_imports _ _ _ _ _ Hupd) as H12.
  pose proof (Steps_forM_ extends _ _ (schedule_client_extends new_r)
                _ _ _ Hsched) as H23.
  pose proof (Steps_forM_ (queued new_r) _ _ (schedule_client_queued new_r)
                _ _ _ Hsched) as Q23.
  pose proof (Steps_forM_ imports _ _ (repoint_imports r new_r)
                _ _ _ Hrep) as H45.
  assert (H04 : extends st {| heap := heap st3;
                              feature := unschedule r (feature st3);
                              warnings := warnings st3 |}).
  { etrans; [by apply imports_extends|].
    etrans; [by apply imports_extends|].
    etrans; [done|]. by split. }
  assert (H05 : extends st st5).
  { etrans; [done|]. by apply imports_extends. }
  split; [|split; [|split]].
  - destruct H05 as [? Hdom]. split; [done|]. intros v Hv.
    unfold tracked. simpl. by apply Hdom.
  - unfold tracked. simpl.
    destruct H45 as (_ & Hdom5 & _). apply Hdom5. simpl.
    destruct H23 as [_ Hdom3]. apply Hdom3.
    destruct H12 as (_ & Hdom2 & _). apply Hdom2.
    by apply (init_r_tracks _ _ _ Hinit).
  - intros k v Hk. simpl in Hk.
    destruct H45 as (_ & _ & Hs5). rewrite Hs5 in Hk. simpl in Hk.
    apply map_lookup_filter_Some in Hk as [Hk Hv]. simpl in Hv.
    split; [done|].
    destruct (Q23 k v Hk) as [Hk2|?]; [|by right]. left.
    destruct H12 as (_ & _ & Hs2). destruct H01 as (_ & _ & Hs1).
    by rewrite <- Hs1, <- Hs2.
  - simpl. by rewrite lookup_insert_eq.
Qed.

End ChangeInput.

(** ** [same_shape] *)

#[global] Instance reads_preorder : PreOrder reads.
Proof.
  split.
  - by intros st.
  - intros s1 s2 s3 [? ?] [? ?]. split; congruence.
Qed.

Section SameShape.
Context `{Collaborators}.

Lemma same_shape_reads (x y : var) (dim_x dim_y : option Z) :
  Steps reads (same_shape x y dim_x dim_y).
Proof.
  unfold same_shape, restrict_dim. steps_tac.
  all: apply Steps_with_heap; by intros st.
Qed.

(** X19. [same_shape] only reads the index: whatever it answers, the
    feature and the warnings are as they were.  It raises [KeyError] when
    [x] or [y] is not tracked, and [IndexError] when both have a tuple and
    the dimension asked of one of them is outside its tuple; nothing at all
    changes in these cases. *)
Theorem same_shape_reads_only (x y : var) (dim_x dim_y : option Z)
    (st : State) :
  (∀ r st', same_shape x y dim_x dim_y st = (r, st') →
     feature st' = feature st ∧ warnings st' = warnings st)
  ∧ (shape_of (feature st) !! x = None ∨ shape_of (feature st) !! y = None →
     same_shape x y dim_x dim_y st = (Raise KeyError, st))
  ∧ (∀ sx sy,
       shape_of (feature st) !! x = Some (Some sx) →
       shape_of (feature st) !! y = Some (Some sy) →
       (∃ d, dim_x = Some d ∧ py_index sx d = None)
       ∨ (∃ d, dim_y = Some d ∧ py_index sy d = None) →
       same_shape x y dim_x dim_y st = (Raise IndexError, st)).
Proof.
  split; [|split].
  - intros r st' Hrun. by apply same_shape_reads in Hrun.
  - intros Hnone. unfold same_shape. run.
    destruct (shape_of (feature st) !! x) as [sx|]; [|done]. simpl.
    destruct Hnone as [?|Hy]; [done|]. by rewrite Hy.
  - intros sx sy Hx Hy Hdim. unfold same_shape. run. rewrite Hx. simpl.
    rewrite Hy. simpl. unfold restrict_dim.
    destruct Hdim as [(d & -> & Hd)|(d & -> & Hd)].
    + run. by rewrite Hd.
    + destruct dim_x as [dx|]; run.
      * destruct (py_index sx dx); simpl; [|done]. by rewrite Hd.
      * by rewrite Hd.
Qed.

End SameShape.

(** ** The rewrites [local_track_shape_i] and [local_reshape_chain] *)

Section MoreRewrites.
Context `{Collaborators}.

(** X20. [local_track_shape_i] never changes the graph.  It declines on a
    node that is not a [Shape_i] and on a graph without a feature.  For a
    scheduled [Shape_i] it raises [KeyError] when the target is not
    tracked, [TypeError] when the shape of the target is unknown and
    [IndexError] when the axis is outside the tuple.  A replacement that it
    returns is always one entry of the tuple of the scheduled target. *)
Theorem local_track_shape_i_answers (fgraph : FunctionGraph) (node : apply)
    (h : Heap) :
  (local_track_shape_i fgraph node h).2 = fgraph
  ∧ ((∀ i, node_op h node ≠ Some (Shape_i i)) →
     local_track_shape_i fgraph node h = (Ok Decline, fgraph))
  ∧ (shape_feature fgraph = None →
     local_track_shape_i fgraph node h = (Ok Decline, fgraph))
  ∧ (∀ i f target,
       node_op h node = Some (Shape_i i) →
       shape_feature fgraph = Some f →
       scheduled f !! node = Some target →
       (shape_of f !! target = None →
          local_track_shape_i fgraph node h = (Raise KeyError, fgraph))
       ∧ (shape_of f !! target = Some None →
          local_track_shape_i fgraph node h = (Raise TypeError, fgraph))
       ∧ (∀ sh, shape_of f !! target = Some (Some sh) →
            py_index sh i = None →
            local_track_shape_i fgraph node h = (Raise IndexError, fgraph)))
  ∧ (∀ l, (local_track_shape_i fgraph node h).1 = Ok (Replace l) →
       ∃ i f target sh s,
         node_op h node = Some (Shape_i i)
         ∧ shape_feature fgraph = Some f
         ∧ scheduled f !! node = Some target
         ∧ shape_of f !! target = Some (Some sh)
         ∧ py_index sh i = Some s
         ∧ l = [s]).
Proof.
  unfold local_track_shape_i, shape_component.
  split; [|split; [|split; [|split]]].
  - by repeat case_match.
  - intros Hop. destruct (node_op h node) as [[i| | | |]|]; try done.
    by destruct (Hop i).
  - intros ->. by repeat case_match.
  - intros i f target -> -> ->. split; [|split].
    + by intros ->.
    + by intros ->.
    + intros sh -> Hidx. by rewrite Hidx.
  - intros l.
    destruct (node_op h node) as [[i| | | |]|] eqn:Hop; try done.
    destruct (shape_feature fgraph) as [f|] eqn:Hf; [|done].
    destruct (scheduled f !! node) as [target|] eqn:Hs; [|done].
    destruct (shape_of f !! target) as [[sh|]|] eqn:Ht; try done.
    destruct (py_index sh i) as [s|] eqn:Hidx; [|done].
    simpl. intros [= <-]. by exists i, f, target, sh, s.
Qed.

(** X21. Whatever [local_reshape_chain] answers, the arena has only grown.
    When it returns a replacement, the replacement is a single variable
    that was not in the arena before, the output of a new node, and it has
    the rank of the first output of the node it replaces. *)
Theorem local_reshape_chain_keeps_the_rank (is_op : Op → bool)
    (fgraph : FunctionGraph) (node : apply) (h h' : Heap)
    (r : Res rewrite_result) :
  local_reshape_chain is_op fgraph node h = (r, h') →
  heap_le h h'
  ∧ ∀ l, r = Ok (Replace l) →
      ∃ rval out n,
        l = [rval]
        ∧ lookup_var h rval = None
        ∧ owner_of h' rval = Some (length (h_nodes h))
        ∧ node_outputs h node !! 0 = Some out
        ∧ type_ndim (type_of h' rval) = Some n
        ∧ type_ndim (type_of h' out) = Some n.
Proof.
  unfold local_reshape_chain.
  destruct (check_chain is_op h node) as [[|]|e] eqn:Hchain;
    [|by intros [= <- <-]..].
  destruct (chain_args h node) as [[o [x s2]]|e]; [|by intros [= <- <-]].
  unfold call_op.
  destruct (output_type h o [x; s2]) as [t|e]; [|by intros [= <- <-]].
  set (h2 := (alloc_var _ _).2).
  assert (Hle : heap_le h h2).
  { etrans; [|apply heap_le_alloc_var]. apply heap_le_alloc_node. }
  assert (Hout : ∀ out, node_outputs h2 node !! 0 = Some out →
                        node_outputs h node !! 0 = Some out).
  { intros out. unfold check_chain in Hchain.
    destruct (node_outputs h node !! 0) as [r0|] eqn:Hr0; [|done].
    assert (Hlive : is_Some (lookup_node h node)).
    { unfold node_outputs in Hr0.
      destruct (lookup_node h node); [by eexists|done]. }
    by rewrite (node_outputs_le _ _ _ Hle Hlive), Hr0. }
  destruct (node_outputs h2 node) as [|out outs] eqn:Houts;
    [by intros [= <- <-]|].
  unfold chain_guard, and_then, ndim_attr.
  destruct (type_ndim (type_of h2 (length (h_vars h)))) as [n1|] eqn:Hn1;
    [|by intros [= <- <-]].
  destruct (type_ndim (type_of h2 out)) as [n2|] eqn:Hn2;
    [|by intros [= <- <-]].
  destruct (bool_decide (n1 = n2)) eqn:Hn; simpl; [|by intros [= <- <-]].
  apply bool_decide_eq_true_1 in Hn as <-.
  destruct (shape_attr (type_of h2 (length (h_vars h)))) as [sh1|e];
    simpl; [|by intros [= <- <-]].
  destruct (shape_attr (type_of h2 out)) as [sh2|e];
    simpl; [|by intros [= <- <-]].
  destruct (ones_agree sh1 sh2); intros [= <- <-]; (split; [done|]);
    intros l [= <-].
  exists (length (h_vars h)), out, n1.
  split; [done|]. split.
  { unfold lookup_var. by apply lookup_ge_None_2. }
  split.
  { unfold owner_of, lookup_var, h2. simpl.
    by rewrite lookup_app_r, Nat.sub_diag. }
  split; [by apply Hout|]. done.
Qed.

End MoreRewrites.

(** ** More rewrites: [local_Shape_i_ground],
    [local_merge_consecutive_specify_shape], [local_useless_reshape] *)

Section GroundAndMerge.
Context `{Collaborators} `{MoreCollaborators}.



Lemma merge_specified_spec (h : Heap) (outer : list var) :
  ∀ dim shape merged,
    merge_specified h dim outer shape = Ok merged →
    length merged = length shape
    ∧ ∀ k d1, shape !! k = Some d1 →
        merged !! k
        = Some (if decide (k < dim) then d1
                else match outer !! (k - dim) with
                     | Some sh => if equals h NoneConst sh then d1 else sh
                     | None => d1
                     end).
Proof.
  induction outer as [|sh rest IH]; intros dim shape merged Hrun.
  - injection Hrun as <-. split; [done|]. intros k d1 Hk.
    rewrite lookup_nil. by case_decide.
  - cbn [merge_specified] in Hrun.
    destruct (equals h NoneConst sh) eqn:Heq.
    + destruct (IH _ _ _ Hrun) as [Hlen Hall]. split; [done|].
      intros k d1 Hk. rewrite (Hall k d1 Hk).
      destruct (decide (k < dim)) as [Hlt|Hge].
      * by rewrite decide_True by lia.
      * destruct (decide (k = dim)) as [->|Hne].
        -- rewrite decide_True by lia. by rewrite Nat.sub_diag; simpl; rewrite Heq.
        -- rewrite decide_False by lia.
           by replace (k - dim) with (S (k - S dim)) by lia.
    + destruct (bool_decide (dim < length shape)) eqn:Hdim; [|done].
      apply bool_decide_eq_true_1 in Hdim.
      destruct (IH _ _ _ Hrun) as [Hlen Hall].
      rewrite length_insert in Hlen. split; [done|].
      intros k d1 Hk.
      destruct (decide (k = dim)) as [->|Hne].
      * rewrite (Hall dim sh) by by rewrite list_lookup_insert_eq.
        rewrite decide_True by lia. rewrite decide_False by lia.
        by rewrite Nat.sub_diag; simpl; rewrite Heq.
      * rewrite (Hall k d1) by by rewrite list_lookup_insert_ne.
        destruct (decide (k < dim)) as [Hlt|Hge].
        -- by rewrite decide_True by lia.
        -- rewrite decide_False by lia.
           by replace (k - dim) with (S (k - S dim)) by lia.
Qed.

Lemma merge_specified_raises (h : Heap) (outer : list var) :
  ∀ dim shape k sh,
    outer !! k = Some sh → equals h NoneConst sh = false →
    length shape ≤ dim + k →
    merge_specified h dim outer shape = Raise IndexError.
Proof.
  induction outer as [|sh0 rest IH]; intros dim shape k sh Hk Heq Hlen;
    [done|].
  cbn [merge_specified]. destruct k as [|k].
  - injection Hk as ->. rewrite Heq.
    by rewrite bool_decide_eq_false_2 by lia.
  - simpl in Hk. destruct (equals h NoneConst sh0).
    + eapply (IH (S dim) shape k); [done..|lia].
    + destruct (bool_decide (dim < length shape)); [|done].
      eapply (IH (S dim) _ k); [done..|]. rewrite length_insert. lia.
Qed.

(** X23. When [local_merge_consecutive_specify_shape] returns a
    replacement, it is [specify_shape(x, s3)] for the [x] of the inner
    [specify_shape(x, s1)], and [s3] has the length of [s1]: at each
    dimension it holds the entry of the outer shape [s2] when there is one
    that is not [None], and the entry of [s1] otherwise.  The rewriter
    raises [IndexError], and builds nothing, when [s2] specifies a
    dimension that [s1] does not have. *)
Theorem local_merge_consecutive_specify_shape_prefers_the_outer
    (fgraph : FunctionGraph) (node : apply) (h : Heap) :
  (∀ l h',
     local_merge_consecutive_specify_shape fgraph node h
     = Rewritten (Ok (Replace l)) h' →
     ∃ obj outer n inner_obj shape merged y new,
       node_inputs h node = obj :: outer
       ∧ owner_of h obj = Some n
       ∧ node_inputs h n = inner_obj :: shape
       ∧ specify_shape inner_obj merged h = (Ok y, new)
       ∧ l = [y] ∧ h' = extend h new
       ∧ length merged = length shape
       ∧ ∀ dim d1, shape !! dim = Some d1 →
           merged !! dim
           = Some (match outer !! dim with
                   | Some sh => if equals h NoneConst sh then d1 else sh
                   | None => d1
                   end))
  ∧ (∀ o obj outer n o' inner_obj shape dim sh,
       node_op h node = Some o → is_SpecifyShape o = true →
       node_inputs h node = obj :: outer →
       owner_of h obj = Some n →
       node_op h n = Some o' → is_SpecifyShape o' = true →
       node_inputs h n = inner_obj :: shape →
       outer !! dim = Some sh →
       equals h NoneConst sh = false →
       length shape ≤ dim →
       local_merge_consecutive_specify_shape fgraph node h
       = Rewritten (Raise IndexError) h).
Proof.
  split.
  - intros l h'. unfold local_merge_consecutive_specify_shape.
    destruct (negb _); [done|].
    destruct (node_inputs h node) as [|obj outer] eqn:Hin; [done|].
    destruct (owner_of h obj) as [n|] eqn:Hown; [|done].
    destruct (negb _); [done|].
    destruct (node_inputs h n) as [|inner_obj shape] eqn:Hin'; [done|].
    destruct (merge_specified h 0 outer shape) as [merged|e] eqn:Hm; [|done].
    destruct (specify_shape inner_obj merged h) as [[y|e] new] eqn:Hs;
      [|done].
    intros [= <- <-].
    destruct (merge_specified_spec _ _ _ _ _ Hm) as [Hlen Hall].
    exists obj, outer, n, inner_obj, shape, merged, y, new.
    repeat split; try done.
    intros dim d1 Hd. rewrite (Hall dim d1 Hd).
    rewrite decide_False by lia. by rewrite Nat.sub_0_r.
  - intros o obj outer n o' inner_obj shape dim sh
      Hop Ho Hin Hown Hop' Ho' Hin' Hdim Heq Hlen.
    unfold local_merge_consecutive_specify_shape.
    rewrite Hop, Hin, Hown, Hop', Hin'. simpl. rewrite Ho, Ho'. simpl.
    by rewrite (merge_specified_raises h outer 0 shape dim sh).
Qed.

End GroundAndMerge.

Section UselessReshape.
Context `{Collaborators} `{MoreCollaborators}.

Lemma reshape_dim_pure (fuel : nat) (fgraph : FunctionGraph) (inp : var)
    (output_shape_is : list var) (dim : nat) :
  shape_feature fgraph = None →
  Steps eq (reshape_dim fuel fgraph inp output_shape_is dim).
Proof.
  intros Hnone. unfold reshape_dim. rewrite Hnone. steps_tac.
Qed.

Lemma local_useless_reshape_pure (fuel : nat) (fgraph : FunctionGraph)
    (node : apply) :
  shape_feature fgraph = None →
  Steps eq (local_useless_reshape fuel fgraph node).
Proof.
  intros Hnone. unfold local_useless_reshape, reshape_to_own_shape.
  steps_tac; apply Steps_mapM; try apply _; intros dim;
    by apply reshape_dim_pure.
Qed.

(** X24. A replacement that [local_useless_reshape] returns is always the
    first input of the node, the variable that is reshaped, and nothing
    else; this input then has the rank of the output it replaces. *)
Theorem local_useless_reshape_returns_its_input (fuel : nat)
    (fgraph : FunctionGraph) (node : apply) (st st' : State) (l : list var) :
  local_useless_reshape fuel fgraph node st = (Ok (Replace l), st') →
  ∃ inp output n,
    node_inputs (heap st) node !! 0 = Some inp
    ∧ node_outputs (heap st) node !! 0 = Some output
    ∧ l = [inp]
    ∧ type_ndim (type_of (heap st) inp) = Some n
    ∧ type_ndim (type_of (heap st) output) = Some n.
Proof.
  unfold local_useless_reshape, reshape_to_own_shape. intros Hrun.
  apply bind_Ok in Hrun as (? & ? & [= <- <-] & Hrun).
  apply bind_Ok in Hrun as (inp & ? & [Hinp ->]%or_raise_Ok & Hrun).
  apply bind_Ok in Hrun as (output & ? & [Hout ->]%or_raise_Ok & Hrun).
  apply bind_Ok in Hrun as (output_shape & ? & [Hos ->]%or_raise_Ok & Hrun).
  apply bind_Ok in Hrun as (n_in & ? & [Hn_in ->]%lift_res_Ok & Hrun).
  apply bind_Ok in Hrun as (n_out & ? & [Hn_out ->]%lift_res_Ok & Hrun).
  assert (Hnd : ∀ t n, ndim_attr t = Ok n → type_ndim t = Some n).
  { intros t n. unfold ndim_attr. by destruct (type_ndim t); intros [= <-]. }
  apply Hnd in Hn_in, Hn_out.
  destruct (bool_decide (n_in = n_out)) eqn:Hn; simpl in Hrun; [|done].
  apply bool_decide_eq_true_1 in Hn as <-.
  assert (Hl : l = [inp]); [|by exists inp, output, n_in].
  apply bind_Ok in Hrun as (simple & st1 & _ & Hrun).
  destruct simple; [by injection Hrun as <- _|].
  apply bind_Ok in Hrun as (? & ? & [= <- <-] & Hrun).
  destruct (owner_of (heap st1) output_shape) as [n|]; [|done].
  apply bind_Ok in Hrun as (same & st2 & _ & Hrun).
  destruct same; [by injection Hrun as <- _|].
  destruct (negb _); [done|].
  apply bind_Ok in Hrun as (marks & st3 & _ & Hrun).
  destruct (_ && _); [|done]. by injection Hrun as <- _.
Qed.

(** X25. For a reshape whose input and output have the static shapes [sh1]
    and [sh2]: [local_useless_reshape] declines when the ranks differ; it
    returns the input when both have rank 1 and their sizes are equal or
    both differ from 1, and when the ranks agree and the target shape is
    [Shape] applied to the input itself; nothing changes in these cases.
    On a graph without a feature the rewriter never changes anything. *)
Theorem local_useless_reshape_cases (fuel : nat) (fgraph : FunctionGraph)
    (node : apply) (st : State) (inp output output_shape : var)
    (rest : list var) (d1 d2 : string) (sh1 sh2 : list (option Z)) :
  node_inputs (heap st) node = inp :: output_shape :: rest →
  node_outputs (heap st) node !! 0 = Some output →
  type_of (heap st) inp = TensorType d1 sh1 →
  type_of (heap st) output = TensorType d2 sh2 →
  (length sh1 ≠ length sh2 →
     local_useless_reshape fuel fgraph node st = (Ok Decline, st))
  ∧ (∀ a b, sh1 = [a] → sh2 = [b] →
       a = b ∨ (a ≠ Some 1%Z ∧ b ≠ Some 1%Z) →
       local_useless_reshape fuel fgraph node st = (Ok (Replace [inp]), st))
  ∧ (∀ n rest',
       length sh1 = length sh2 →
       owner_of (heap st) output_shape = Some n →
       node_op (heap st) n = Some Shape →
       node_inputs (heap st) n = inp :: rest' →
       local_useless_reshape fuel fgraph node st = (Ok (Replace [inp]), st))
  ∧ (shape_feature fgraph = None →
     ∀ r st', local_useless_reshape fuel fgraph node st = (r, st') →
              st' = st).
Proof.
  intros Hin Hout Ht1 Ht2.
  assert (Hhead :
    local_useless_reshape fuel fgraph node st
    = (if negb (bool_decide (length sh1 = length sh2)) then ret Decline
       else
         simple <- (if bool_decide (length sh1 = 1)
                       && bool_decide (length sh2 = 1)
                    then ret (sizes_agree sh1 sh2)
                    else ret false) ;;
         if simple : bool then ret (Replace [inp])
         else reshape_to_own_shape fuel fgraph inp output_shape
                                   (length sh1)) st).
  { unfold local_useless_reshape. run. rewrite Hin. simpl. rewrite Hout.
    simpl. rewrite Ht1, Ht2. simpl.
    destruct (negb (bool_decide (length sh1 = length sh2))); [done|].
    by destruct (bool_decide (length sh1 = 1) && bool_decide (length sh2 = 1)). }
  split; [|split; [|split]].
  - intros Hne. rewrite Hhead. by rewrite bool_decide_eq_false_2.
  - intros a b -> -> Hab. rewrite Hhead. simpl.
    assert (Hag : sizes_agree [a] [b] = true).
    { unfold sizes_agree. simpl. rewrite filter_cons, filter_nil.
      destruct (decide _) as [Hor|_]; [|done]. simpl in *.
      destruct Hab as [->|[Ha Hb]].
      - by rewrite bool_decide_eq_true_2.
      - tauto. }
    unfold bind, ret. by rewrite Hag.
  - intros n rest' Hlen Hown Hop Hin'. rewrite Hhead.
    rewrite bool_decide_eq_true_2 by done. simpl.
    assert (Htail : reshape_to_own_shape fuel fgraph inp output_shape
                      (length sh1) st = (Ok (Replace [inp]), st)).
    { unfold reshape_to_own_shape, bind at 1, get. rewrite Hown, Hop, Hin'.
      unfold bind, or_raise, ret. simpl.
      by rewrite bool_decide_eq_true_2. }
    unfold bind at 1.
    destruct (bool_decide (length sh1 = 1) && bool_decide (length sh2 = 1)).
    + unfold ret at 1. by destruct (sizes_agree sh1 sh2).
    + done.
  - intros Hnone r st' Hrun. symmetry.
    by eapply local_useless_reshape_pure.
Qed.

End UselessReshape.

(** ** The configuration *)

Lemma enum_apply (self : Config.ConfigParam) (default : string)
    (options : list string) (v : string) :
  Config.is_EnumStr self default options →
  Config.apply self v
  = if bool_decide (v ∈ default :: options) then Config.Return v
    else Config.Fail Config.ValueError.
Proof. intros [_ Happ]. unfold Config.apply. by rewrite Happ. Qed.

Lemma set_enum (self : Config.ConfigParam) (default : string)
    (options : list string) (v : string) (r : Config.result unit)
    (self' : Config.ConfigParam) :
  Config.is_EnumStr self default options →
  Config.allowed self default options →
  Config.__set__ self v = (r, self') →
  Config.is_EnumStr self' default options
  ∧ Config.allowed self' default options
  ∧ (r = Config.Return () →
       Config.val self' = Some v ∧ v ∈ default :: options)
  ∧ (r ≠ Config.Return () → self' = self).
Proof.
  intros Henum Hall. unfold Config.__set__.
  rewrite (enum_apply _ _ _ _ Henum).
  destruct (negb _ && _); [by intros [= <- <-]|].
  case_bool_decide as Hin; [|by intros [= <- <-]].
  destruct (Config.validate self v); [|by intros [= <- <-]].
  intros [= <- <-]. split; [done|]. split; [|split; [done|done]].
  intros w. simpl. by intros [= <-].
Qed.

(** X26. A parameter built by [EnumStr] only ever holds one of its
    options: a new one holds nothing, and [__set__] and [__get__] keep the
    property whatever they answer.  [__set__] stores the value it is given
    when it returns, and changes nothing when it raises; it raises
    [ValueError] for a value that is not an option, and the [Exception] of
    a parameter that cannot be changed when the parameter is not mutable
    and holds a value.  What [__get__] returns is the value the parameter
    then holds, one of the options. *)
Theorem enum_str_holds_an_option (self : Config.ConfigParam)
    (default : string) (options : list string) :
  Config.is_EnumStr self default options →
  Config.allowed self default options →
  (∀ name validate mutable,
     Config.is_EnumStr (Config.EnumStr name default options validate mutable)
       default options
     ∧ Config.allowed (Config.EnumStr name default options validate mutable)
         default options)
  ∧ (∀ v r self',
       Config.__set__ self v = (r, self') →
       Config.is_EnumStr self' default options
       ∧ Config.allowed self' default options
       ∧ (r = Config.Return () →
            Config.val self' = Some v ∧ v ∈ default :: options)
       ∧ (r ≠ Config.Return () → self' = self))
  ∧ (∀ v, v ∉ default :: options →
       Config._mutable self = true ∨ Config.val self = None →
       Config.__set__ self v = (Config.Fail Config.ValueError, self))
  ∧ (∀ v, Config._mutable self = false → is_Some (Config.val self) →
       Config.__set__ self v = (Config.Fail Config.CannotChange, self))
  ∧ (∀ cls delete_key r self' cls',
       Config.__get__ self cls delete_key = (r, (self', cls')) →
       Config.is_EnumStr self' default options
       ∧ Config.allowed self' default options
       ∧ ∀ v, r = Config.Return v →
           Config.val self' = Some v ∧ v ∈ default :: options).
Proof.
  intros Henum Hall. split; [|split; [|split; [|split]]].
  - intros name validate mutable. split; [done|]. by intros v.
  - intros v r self'. by apply set_enum.
  - intros v Hv Hmut. unfold Config.__set__.
    rewrite (enum_apply _ _ _ _ Henum).
    rewrite (bool_decide_eq_false_2 (v ∈ default :: options)) by done.
    destruct Hmut as [-> | ->]; [done|].
    rewrite bool_decide_eq_false_2; [|by intros [? ?]].
    by rewrite andb_false_r.
  - intros v Hmut Hval. unfold Config.__set__.
    by rewrite Hmut, bool_decide_eq_true_2.
  - intros cls delete_key r self' cls'. unfold Config.__get__.
    destruct (Config.val self) as [v0|] eqn:Hv0.
    { intros [= <- <- <-]. split; [done|]. split; [done|].
      intros v [= <-]. split; [done|]. by apply Hall. }
    assert (Hnd : Config.is_EnumStr (Config.not_default self) default options
                  ∧ Config.allowed (Config.not_default self) default options).
    { split; [done|]. intros v. simpl. by rewrite Hv0. }
    assert (Hstep : ∀ p s,
              Config.is_EnumStr p default options →
              Config.allowed p default options →
              match (Config.__set__ p s).1, Config.val (Config.__set__ p s).2 with
              | Config.Fail e, _ =>
                  (Config.Fail e, ((Config.__set__ p s).2,
                                   (Config.fetch_val_for_key cls
                                      (Config.fullname self) delete_key).2))
              | Config.Return _, Some v =>
                  (Config.Return v, ((Config.__set__ p s).2,
                                     (Config.fetch_val_for_key cls
                                        (Config.fullname self) delete_key).2))
              | Config.Return _, None =>
                  (Config.Fail (Config.Raised "AttributeError"),
                   ((Config.__set__ p s).2,
                    (Config.fetch_val_for_key cls
                       (Config.fullname self) delete_key).2))
              end = (r, (self', cls')) →
              Config.is_EnumStr self' default options
              ∧ Config.allowed self' default options
              ∧ ∀ v, r = Config.Return v →
                  Config.val self' = Some v ∧ v ∈ default :: options).
    { intros p s Hp Hpa.
      destruct (Config.__set__ p s) as [r0 p'] eqn:Hset.
      destruct (set_enum _ _ _ _ _ _ Hp Hpa Hset) as (Hp' & Hpa' & Hok & _).
      simpl. destruct r0 as [[]|e].
      - destruct (Hok eq_refl) as [Hval Hin]. rewrite Hval.
        intros [= <- <- <-]. split; [done|]. split; [done|].
        by intros v [= <-].
      - intros [= <- <- <-]. split; [done|]. by split. }
    destruct (Config.fetch_val_for_key cls (Config.fullname self) delete_key)
      as [[s|e] cls1] eqn:Hfetch; simpl.
    + apply Hstep; apply Hnd.
    + destruct Henum as [Hd Ha].
      destruct e; try (intros [= <- <- <-]; split; [done|]; by split).
      rewrite Hd. by apply Hstep.
Qed.

(** X27. A value that [__get__] returns is stored: the parameter holds
    it, and any later [__get__], with any parser, returns it again and
    changes nothing.  A parameter that already holds a value is read
    without a look at the flags.  For a parameter that holds none, a flag
    of its name is what is applied and stored, in preference to the files
    and to the default; the parameter is then no longer the default, and
    the flag is removed exactly when [delete_key] is set; without such a
    flag the parser is left as it was. *)
Theorem get_reads_once (self : Config.ConfigParam)
    (cls : Config.TheanoConfigParser) (delete_key : bool) (v : string)
    (self' : Config.ConfigParam) (cls' : Config.TheanoConfigParser) :
  Config.__get__ self cls delete_key = (Config.Return v, (self', cls')) →
  Config.val self' = Some v
  ∧ (∀ cls2 dk,
       Config.__get__ self' cls2 dk = (Config.Return v, (self', cls2)))
  ∧ (is_Some (Config.val self) → self' = self ∧ cls' = cls)
  ∧ (Config.val self = None →
     ∀ s, Config._flags_dict cls !! Config.fullname self = Some s →
       Config.apply self s = Config.Return v
       ∧ Config.is_default self' = false
       ∧ Config._flags_dict cls'
         = if delete_key
           then delete (Config.fullname self) (Config._flags_dict cls)
           else Config._flags_dict cls)
  ∧ (Config.val self = None →
     Config._flags_dict cls !! Config.fullname self = None →
     cls' = cls).
Proof.
  intros Hrun.
  assert (Hval : Config.val self' = Some v).
  { unfold Config.__get__ in Hrun.
    destruct (Config.val self) as [v0|] eqn:Hv0; [by injection Hrun as <- <- _|].
    destruct (match (Config.fetch_val_for_key cls (Config.fullname self)
                       delete_key).1 with
              | Config.Return s => _
              | Config.Fail e => _
              end) as [[s p]|e]; [|done].
    destruct (Config.__set__ p s) as [[[]|e] p'] eqn:Hset; simpl in Hrun; [|done].
    destruct (Config.val p') as [w|] eqn:Hw; [|done].
    by injection Hrun as <- <- _. }
  split; [done|]. split; [|split; [|split]].
  - intros cls2 dk. unfold Config.__get__. by rewrite Hval.
  - intros [v0 Hv0]. unfold Config.__get__ in Hrun. rewrite Hv0 in Hrun.
    by injection Hrun as _ <- <-.
  - intros Hnone s Hflag. unfold Config.__get__ in Hrun.
    rewrite Hnone in Hrun. unfold Config.fetch_val_for_key in Hrun.
    rewrite Hflag in Hrun. simpl in Hrun.
    unfold Config.__set__ in Hrun. simpl in Hrun. rewrite Hnone in Hrun.
    rewrite bool_decide_eq_false_2 in Hrun by by intros [? ?].
    rewrite andb_false_r in Hrun.
    change (Config.apply (Config.not_default self) s)
      with (Config.apply self s) in Hrun.
    destruct (Config.apply self s) as [applied|e]; [|done].
    change (Config.validate (Config.not_default self) applied)
      with (Config.validate self applied) in Hrun.
    destruct (Config.validate self applied); [|done].
    simpl in Hrun. injection Hrun as <- <- <-.
    split; [done|]. split; [done|]. by destruct delete_key.
  - intros Hnone Hflag. unfold Config.__get__ in Hrun.
    rewrite Hnone in Hrun.
    assert (Hfetch : (Config.fetch_val_for_key cls (Config.fullname self)
                        delete_key).2 = cls).
    { unfold Config.fetch_val_for_key. rewrite Hflag.
      by repeat case_match. }
    rewrite Hfetch in Hrun.
    destruct (match (Config.fetch_val_for_key cls (Config.fullname self)
                       delete_key).1 with
              | Config.Return s => _
              | Config.Fail e => _
              end) as [[s p]|e]; [|done].
    destruct (Config.__set__ p s) as [[[]|e] p'] eqn:Hset; simpl in Hrun; [|done].
    destruct (Config.val p') as [w|] eqn:Hw; [|done].
    by injection Hrun as _ _ <-.
Qed.

(** * The further properties at work on small graphs *)

Lemma to_symbolic_int_of_an_integer_witness :
  to_symbolic_int (H := Demo.W) (ENum (-1)) Demo.st_two_ones
  = (Raise (AssertionError no_message), Demo.st_two_ones)
  ∧ (to_symbolic_int (H := Demo.W) (ENum 5) Demo.st_two_ones).1 = Ok 3.
Proof.
  destruct (to_symbolic_int_of_an_integer (H := Demo.W) (-1) Demo.st_two_ones)
    as [H1 _].
  destruct (to_symbolic_int_of_an_integer (H := Demo.W) 5 Demo.st_two_ones)
    as [_ H2].
  split.
  - apply H1. lia.
  - destruct H2 as (st' & Hrun & _).
    + lia.
    + intros Heq. discriminate Heq.
    + lia.
    + rewrite Hrun. reflexivity.
Defined.

Lemma to_symbolic_int_of_a_variable_witness :
  default 0 (type_ndim (type_of (heap Demo.st_two_ones) 0)) = 0
  ∧ ∃ d, type_dtype (type_of (heap Demo.st_two_ones) 0) = Some d.
Proof.
  destruct (to_symbolic_int_of_a_variable (H := Demo.W) 0 Demo.st_two_ones
              Demo.st_two_ones (Ok 0) eq_refl) as [_ Hw].
  destruct (Hw 0 eq_refl) as [Hnd [(d & Hd & _)|(Hne & _)]].
  - split; [exact Hnd|]. exists d. exact Hd.
  - split; [exact Hnd|]. exists "int64". reflexivity.
Defined.

Lemma to_symbolic_int_of_a_shape_component_witness :
  to_symbolic_int (H := Demo.W) (EVar 4) Samples.st_component
  = (Ok 0, Samples.st_component).
Proof.
  destruct (to_symbolic_int_of_a_shape_component (H := Demo.W)
              Samples.st_component 4 2 1 1 0 [IdxType] [3] [] (IVar 3) 0%Z
              eq_refl eq_refl eq_refl eq_refl eq_refl eq_refl eq_refl eq_refl
              eq_refl eq_refl)
    as [H1 _].
  apply (H1 [0] 0 "int64").
  - reflexivity.
  - reflexivity.
  - reflexivity.
  - apply (bool_decide_unpack _). vm_compute. exact I.
  - reflexivity.
Defined.

Lemma set_shape_records_witness :
  ∃ sh, shape_of (feature Demo.st_matrix_recorded)
        = <[1 := Some sh]> (shape_of (feature Demo.st_matrix))
        ∧ length sh = 2.
Proof.
  destruct (set_shape_records (H := Demo.W) 1 [ENum 7; ENum 3] false
              Demo.st_matrix Demo.st_matrix_recorded eq_refl)
    as (sh & Hshape & _ & Hlen & _).
  exists sh. split; [exact Hshape|exact Hlen].
Defined.

Lemma shape_tuple_total_witness :
  shape_tuple (H := Demo.W) 4 Demo.st_twins = (Ok None, Demo.st_twins)
  ∧ ∃ t st', shape_tuple (H := Demo.W) 1 Demo.st_matrix = (Ok (Some t), st')
             ∧ length t = 2.
Proof.
  destruct (shape_tuple_total (H := Demo.W) 4 Demo.st_twins) as [H1 _].
  destruct (shape_tuple_total (H := Demo.W) 1 Demo.st_matrix) as [_ H2].
  split.
  - apply H1. reflexivity.
  - destruct (H2 "float64" [None; Some 5%Z] eq_refl)
      as (t & st' & Hrun & _ & Hlen & _).
    exists t, st'. split; [exact Hrun|exact Hlen].
Defined.

Lemma set_shape_returns_witness :
  ∃ st', set_shape (H := Demo.W) 1 (Some [ENum 7; ENum 3]) false Demo.st_matrix
         = (Ok (), st').
Proof.
  apply (set_shape_returns (H := Demo.W) 1 [ENum 7; ENum 3] false
           Demo.st_matrix).
  - reflexivity.
  - right. reflexivity.
  - reflexivity.
  - intros i e st1 He Hp Hg. destruct i as [|[|i]].
    + injection He as <-. eexists _, _. reflexivity.
    + discriminate Hp.
    + discriminate He.
Defined.

Lemma init_r_returns_witness :
  init_r (H := Demo.W) 2 Demo.st_tracked = (Ok (), Demo.st_tracked)
  ∧ ∃ st' o, init_r (H := Demo.W) 1 Demo.st_matrix = (Ok (), st')
             ∧ shape_of (feature st')
               = <[1 := o]> (shape_of (feature Demo.st_matrix)).
Proof.
  assert (Hint : "int64" ∈ integer_dtypes (Collaborators := Demo.W)).
  { apply (bool_decide_unpack _). vm_compute. exact I. }
  destruct (init_r_returns (H := Demo.W) 2 Demo.st_tracked eq_refl Hint)
    as [H1 _].
  destruct (init_r_returns (H := Demo.W) 1 Demo.st_matrix eq_refl Hint)
    as [_ H2].
  split.
  - apply H1. exists (Some [0]). reflexivity.
  - destruct (H2 eq_refl) as (st' & o & Hrun & Hshape & _).
    exists st', o. split; [exact Hrun|exact Hshape].
Defined.

Lemma on_import_again_witness :
  on_import (H := Demo.W) (H0 := Samples.more) Demo.no_graph 0
    Samples.st_imported = (Ok (), Samples.st_imported)
  ∧ on_import (H := Demo.W) (H0 := Samples.more) Demo.no_graph 0
      Demo.st_twins = (Raise (AssertionError no_message), Demo.st_twins).
Proof.
  split.
  - destruct (on_import_again (H := Demo.W) (H0 := Samples.more)
                Demo.no_graph 0 Samples.st_imported 2) as [H1 _].
    + reflexivity.
    + apply (bool_decide_unpack _). vm_compute. exact I.
    + apply H1. apply (bool_decide_unpack _). vm_compute. exact I.
  - destruct (on_import_again (H := Demo.W) (H0 := Samples.more)
                Demo.no_graph 0 Demo.st_twins 2) as [_ H2].
    + reflexivity.
    + apply (bool_decide_unpack _). vm_compute. exact I.
    + apply H2. apply (bool_decide_unpack _). vm_compute. exact I.
Defined.

Lemma on_import_tracks_witness :
  imports Samples.st_fresh Samples.st_imported
  ∧ Forall (tracked Samples.st_imported) [2; 1].
Proof.
  apply (on_import_tracks (H := Demo.W) (H0 := Samples.more) Demo.no_graph 0
           Samples.st_fresh Samples.st_imported).
  vm_compute. reflexivity.
Defined.

Lemma normalise_shape_spec_witness :
  builds Samples.st_dtypes
    (normalise_shape (H0 := Samples.more)
       (Some [ENum 2; EVar 1; EVar 2]) Samples.st_dtypes).2
  ∧ length [ENum 2; EVar 3; EVar 2] = 3.
Proof.
  destruct (normalise_shape_spec (H0 := Samples.more)
              [ENum 2; EVar 1; EVar 2] [ENum 2; EVar 3; EVar 2]
              Samples.st_dtypes
              (normalise_shape (H0 := Samples.more)
                 (Some [ENum 2; EVar 1; EVar 2]) Samples.st_dtypes).2)
    as (Hb & Hlen & _).
  - vm_compute. reflexivity.
  - split; [exact Hb|exact Hlen].
Defined.

Lemma on_attach_tracks_witness :
  scheduled (feature Samples.st_attached) = ∅
  ∧ ranked Samples.st_attached
  ∧ Forall (tracked Samples.st_attached) [3; 1].
Proof.
  destruct (on_attach_tracks (H := Demo.W) (H0 := Samples.more)
              Demo.fgraph_plain [0; 1] Samples.st_fresh Samples.st_attached
              Samples.fgraph_attached)
    as (_ & _ & Hsched & Hranked & Hnodes).
  - vm_compute. reflexivity.
  - split; [exact Hsched|]. split; [exact Hranked|].
    destruct (Hnodes 1) as [_ Htr].
    + apply (bool_decide_unpack _). vm_compute. exact I.
    + exact Htr.
Defined.

Lemma attach_detach_lifecycle_witness :
  on_attach (H := Demo.W) (H0 := Samples.more) Samples.fgraph_attached [0; 1]
    Samples.st_attached = AlreadyThere
  ∧ feature (on_detach Samples.fgraph_attached Samples.st_attached).1.2
    = no_feature
  ∧ (on_detach Demo.fgraph_plain Samples.st_fresh).1.1 = Raise AttributeError.
Proof.
  destruct (attach_detach_lifecycle (H := Demo.W) (H0 := Samples.more)
              Samples.fgraph_attached [0; 1] Samples.st_attached)
    as (H1 & _ & H3).
  destruct (attach_detach_lifecycle (H := Demo.W) (H0 := Samples.more)
              Demo.fgraph_plain [0; 1] Samples.st_fresh)
    as (_ & _ & H3').
  split; [|split].
  - apply H1. exists (feature Samples.st_attached). reflexivity.
  - destruct (H3 (on_detach Samples.fgraph_attached Samples.st_attached).1.1
                 (on_detach Samples.fgraph_attached Samples.st_attached).1.2
                 (on_detach Samples.fgraph_attached Samples.st_attached).2
                 eq_refl) as (Hf & _).
    exact Hf.
  - destruct (H3' (on_detach Demo.fgraph_plain Samples.st_fresh).1.1
                  (on_detach Demo.fgraph_plain Samples.st_fresh).1.2
                  (on_detach Demo.fgraph_plain Samples.st_fresh).2
                  eq_refl) as (_ & _ & _ & _ & _ & _ & Hr & _).
    apply Hr. reflexivity.
Defined.

Lemma default_infer_shape_total_witness :
  ∃ l st', default_infer_shape (H := Demo.W) 0 Demo.st_twins = (Ok l, st')
           ∧ length l = 1
           ∧ ∃ o, l !! 0 = Some o ∧ default_shape (heap Demo.st_twins) 2 o.
Proof.
  destruct (default_infer_shape_total (H := Demo.W) 0 Demo.st_twins)
    as (l & st' & Hrun & _ & Hlen & Hall).
  exists l, st'. split; [exact Hrun|]. split; [exact Hlen|].
  apply (Hall 0 2).
  - reflexivity.
  - exists (Demo.vector None (Output 0 0)). reflexivity.
Defined.

Lemma get_node_infer_shape_paths_witness :
  get_node_infer_shape (H := Demo.W) Demo.no_graph 0 Samples.st_fresh
  = (Raise KeyError, Samples.st_fresh)
  ∧ get_node_infer_shape (H := Demo.R) Demo.no_graph 0 Samples.st_fresh
    = (Raise KeyError, Samples.st_fresh)
  ∧ get_node_infer_shape (H := Demo.W) Demo.no_graph 0
      (Demo.st_of_op (OtherOp "seven"))
    = (Ok [Some [ENum 7]], Demo.st_of_op (OtherOp "seven"))
  ∧ (get_node_infer_shape (H := Demo.W) Demo.no_graph 0
       (Demo.st_of_op (OtherOp "exp"))).1
    = (default_infer_shape (H := Demo.W) 0 (Demo.st_of_op (OtherOp "exp"))).1.
Proof.
  destruct (get_node_infer_shape_paths (H := Demo.W) Demo.no_graph 0
              Samples.st_fresh) as (H1 & _).
  destruct (get_node_infer_shape_paths (H := Demo.R) Demo.no_graph 0
              Samples.st_fresh) as (H1' & _).
  destruct (get_node_infer_shape_paths (H := Demo.W) Demo.no_graph 0
              (Demo.st_of_op (OtherOp "seven"))) as (_ & _ & H3).
  destruct (get_node_infer_shape_paths (H := Demo.W) Demo.no_graph 0
              (Demo.st_of_op (OtherOp "exp"))) as (_ & H2 & _).
  split; [|split; [|split]].
  - apply H1. reflexivity.
  - apply H1'. reflexivity.
  - rewrite (H3 (OtherOp "seven") _ [] [Some [ENum 7]] ([], [])
               eq_refl eq_refl eq_refl eq_refl).
    reflexivity.
  - destruct (H2 [] eq_refl eq_refl) as [Heq _]. rewrite Heq. reflexivity.
Defined.

Lemma get_shape_of_a_fresh_entry_witness :
  get_shape (H := Demo.W) 1 Demo.no_graph 2 0 Demo.st_tracked
  = (Ok 0, Demo.st_tracked)
  ∧ get_shape (H := Demo.W) 1 Demo.no_graph 2 (-1) Demo.st_tracked
    = (Ok 0, Demo.st_tracked)
  ∧ get_shape (H := Demo.W) 1 Demo.no_graph 2 1 Demo.st_tracked
    = (Raise IndexError, Demo.st_tracked)
  ∧ get_shape (H := Demo.W) 1 Demo.no_graph 1 0 Demo.st_tracked
    = (Raise KeyError, Demo.st_tracked).
Proof.
  assert (Hfresh : fresh Demo.no_graph (heap Demo.st_tracked) 0).
  { intros n i Hown. discriminate Hown. }
  split; [|split; [|split]].
  - destruct (get_shape_of_a_fresh_entry (H := Demo.W) 0 Demo.no_graph 2 0
                Demo.st_tracked) as (_ & _ & _ & H4).
    apply (H4 [0] 0); [reflexivity|reflexivity|exact Hfresh].
  - destruct (get_shape_of_a_fresh_entry (H := Demo.W) 0 Demo.no_graph 2 (-1)
                Demo.st_tracked) as (_ & _ & _ & H4).
    apply (H4 [0] 0); [reflexivity|reflexivity|exact Hfresh].
  - destruct (get_shape_of_a_fresh_entry (H := Demo.W) 0 Demo.no_graph 2 1
                Demo.st_tracked) as (_ & _ & H3 & _).
    apply (H3 [0]); reflexivity.
  - destruct (get_shape_of_a_fresh_entry (H := Demo.W) 0 Demo.no_graph 1 0
                Demo.st_tracked) as (H1 & _).
    apply H1. reflexivity.
Defined.

Lemma set_shape_i_replaces_witness :
  set_shape_i (H := Demo.W) 1 0 (ENum 4) Demo.st_tracked
  = (Raise KeyError, Demo.st_tracked)
  ∧ (∃ prev new,
       shape_of (feature Demo.st_tracked) !! 2 = Some (Some prev)
       ∧ shape_of (feature (set_shape_i (H := Demo.W) 2 0 (ENum 4)
                              Demo.st_tracked).2)
         = <[2 := Some new]> (shape_of (feature Demo.st_tracked))
       ∧ length new = length prev)
  ∧ ∃ prev,
      shape_of (feature Demo.st_tracked) !! 2 = Some (Some prev)
      ∧ shape_of (feature (set_shape_i (H := Demo.W) 2 (-1) (ENum 4)
                             Demo.st_tracked).2)
        = <[2 := Some prev]> (shape_of (feature Demo.st_tracked)).
Proof.
  split; [|split].
  - destruct (set_shape_i_replaces (H := Demo.W) 1 0 (ENum 4) Demo.st_tracked)
      as (H1 & _).
    apply H1. reflexivity.
  - destruct (set_shape_i_replaces (H := Demo.W) 2 0 (ENum 4) Demo.st_tracked)
      as (_ & _ & H3).
    destruct (H3 (set_shape_i (H := Demo.W) 2 0 (ENum 4) Demo.st_tracked).2)
      as (prev & new & Hprev & Hshape & _ & _ & Hlen & _).
    + vm_compute. reflexivity.
    + exists prev, new. split; [exact Hprev|]. split; [exact Hshape|exact Hlen].
  - destruct (set_shape_i_replaces (H := Demo.W) 2 (-1) (ENum 4)
                Demo.st_tracked) as (_ & _ & H3).
    destruct (H3 (set_shape_i (H := Demo.W) 2 (-1) (ENum 4) Demo.st_tracked).2)
      as (prev & new & Hprev & Hshape & _ & _ & _ & _ & _ & Hout).
    + vm_compute. reflexivity.
    + destruct Hout as [Hnew _]; [left; lia|].
      exists prev. split; [exact Hprev|]. rewrite <- Hnew. exact Hshape.
Defined.

Lemma update_shape_refuses_witness :
  update_shape (H := Demo.W) 2 1 Demo.st_tracked
  = (Raise (AssertionError "other_r not in shape_of"), Demo.st_tracked)
  ∧ update_shape (H := Demo.W) 1 2 Samples.st_uneven
    = (Raise IndexError, Samples.st_uneven).
Proof.
  split.
  - destruct (update_shape_refuses (H := Demo.W) 2 1 Demo.st_tracked)
      as [H1 _].
    apply H1. reflexivity.
  - destruct (update_shape_refuses (H := Demo.W) 1 2 Samples.st_uneven)
      as [_ H2].
    apply (H2 [3] [3; 4]).
    + reflexivity.
    + reflexivity.
    + reflexivity.
    + simpl. lia.
Defined.

Lemma on_change_input_settles_witness :
  tracked (on_change_input (H := Demo.W) Demo.graph_clients 1 0 1 5
             Demo.st_clients).2 5
  ∧ shape_of_reverse_index
      (feature (on_change_input (H := Demo.W) Demo.graph_clients 1 0 1 5
                  Demo.st_clients).2) !! 1 = Some ∅.
Proof.
  destruct (on_change_input_settles (H := Demo.W) Demo.graph_clients 1 0 1 5
              Demo.st_clients
              (on_change_input (H := Demo.W) Demo.graph_clients 1 0 1 5
                 Demo.st_clients).2)
    as (_ & Htr & _ & Hrev).
  - vm_compute. reflexivity.
  - split; [exact Htr|exact Hrev].
Defined.

Lemma same_shape_reads_only_witness :
  same_shape (H := Demo.W) 1 2 None None Demo.st_shapes
  = (Raise KeyError, Demo.st_shapes)
  ∧ same_shape (H := Demo.W) 2 3 (Some 1%Z) None Demo.st_shapes
    = (Raise IndexError, Demo.st_shapes)
  ∧ feature (same_shape (H := Demo.W) 2 3 None None Demo.st_shapes).2
    = feature Demo.st_shapes.
Proof.
  split; [|split].
  - destruct (same_shape_reads_only (H := Demo.W) 1 2 None None
                Demo.st_shapes) as (_ & H2 & _).
    apply H2. left. reflexivity.
  - destruct (same_shape_reads_only (H := Demo.W) 2 3 (Some 1%Z) None
                Demo.st_shapes) as (_ & _ & H3).
    apply (H3 [0] [0; 0]).
    + reflexivity.
    + reflexivity.
    + left. exists 1%Z. split; reflexivity.
  - destruct (same_shape_reads_only (H := Demo.W) 2 3 None None
                Demo.st_shapes) as (H1 & _).
    destruct (H1 (same_shape (H := Demo.W) 2 3 None None Demo.st_shapes).1
                 (same_shape (H := Demo.W) 2 3 None None Demo.st_shapes).2
                 eq_refl) as [Hf _].
    exact Hf.
Defined.

Lemma local_track_shape_i_answers_witness :
  local_track_shape_i (Demo.fgraph_of Demo.feature_scheduled) 0
    Demo.heap_twins
  = (Ok Decline, Demo.fgraph_of Demo.feature_scheduled)
  ∧ local_track_shape_i Demo.fgraph_plain 0 Demo.heap_accessor
    = (Ok Decline, Demo.fgraph_plain)
  ∧ ∃ i f target sh s,
      scheduled f !! 0 = Some target
      ∧ shape_of f !! target = Some (Some sh)
      ∧ py_index sh i = Some s
      ∧ [0] = [s].
Proof.
  split; [|split].
  - destruct (local_track_shape_i_answers
                (Demo.fgraph_of Demo.feature_scheduled) 0 Demo.heap_twins)
      as (_ & H2 & _).
    apply H2. intros i Heq. discriminate Heq.
  - destruct (local_track_shape_i_answers Demo.fgraph_plain 0
                Demo.heap_accessor) as (_ & _ & H3 & _).
    apply H3. reflexivity.
  - destruct (local_track_shape_i_answers
                (Demo.fgraph_of Demo.feature_scheduled) 0 Demo.heap_accessor)
      as (_ & _ & _ & _ & H5).
    destruct (H5 [0] eq_refl) as (i & f & target & sh & s & _ & _ & Hs & Ht
                                  & Hi & Hl).
    exists i, f, target, sh, s.
    split; [exact Hs|]. split; [exact Ht|]. split; [exact Hi|exact Hl].
Defined.

Lemma local_reshape_chain_keeps_the_rank_witness :
  heap_le Demo.heap_chain
    (local_reshape_chain (H := Demo.W) is_Reshape Demo.fgraph_plain 1
       Demo.heap_chain).2
  ∧ ∃ rval out n,
      [6] = [rval]
      ∧ node_outputs Demo.heap_chain 1 !! 0 = Some out
      ∧ type_ndim
          (type_of (local_reshape_chain (H := Demo.W) is_Reshape
                      Demo.fgraph_plain 1 Demo.heap_chain).2 rval) = Some n
      ∧ type_ndim
          (type_of (local_reshape_chain (H := Demo.W) is_Reshape
                      Demo.fgraph_plain 1 Demo.heap_chain).2 out) = Some n.
Proof.
  destruct (local_reshape_chain_keeps_the_rank (H := Demo.W) is_Reshape
              Demo.fgraph_plain 1 Demo.heap_chain
              (local_reshape_chain (H := Demo.W) is_Reshape Demo.fgraph_plain
                 1 Demo.heap_chain).2
              (Ok (Replace [6])))
    as [Hle Hl].
  - vm_compute. reflexivity.
  - split; [exact Hle|].
    destruct (Hl [6] eq_refl) as (rval & out & n & H1 & _ & _ & H4 & H5 & H6).
    exists rval, out, n.
    split; [exact H1|]. split; [exact H4|]. split; [exact H5|exact H6].
Defined.


Lemma local_merge_consecutive_specify_shape_prefers_the_outer_witness :
  ∃ merged y new,
    specify_shape (MoreCollaborators := Samples.more) 2 merged
      Samples.heap_specify = (Ok y, new)
    ∧ merged !! 0 = Some 3
    ∧ merged !! 1 = Some 6.
Proof.
  destruct (local_merge_consecutive_specify_shape_prefers_the_outer
              (H0 := Samples.more) Demo.fgraph_plain 1 Samples.heap_specify)
    as [H1 _].
  destruct (H1 [7]
              (match local_merge_consecutive_specify_shape
                       (H0 := Samples.more) Demo.fgraph_plain 1
                       Samples.heap_specify with
               | Rewritten _ h => h
               | NotEnoughValues => Samples.heap_specify
               end))
    as (obj & outer & n & inner_obj & shape & merged & y & new
        & Hin & Hown & Hin' & Hs & _ & _ & _ & Hall).
  - vm_compute. reflexivity.
  - injection Hin as <- <-. injection Hown as <-.
    injection Hin' as <- <-.
    exists merged, y, new. split; [exact Hs|]. split.
    + apply (Hall 0 3). reflexivity.
    + apply (Hall 1 1). reflexivity.
Defined.

Lemma local_useless_reshape_returns_its_input_witness :
  ∃ inp output n,
    node_inputs Demo.heap_chain 0 !! 0 = Some inp
    ∧ node_outputs Demo.heap_chain 0 !! 0 = Some output
    ∧ [1] = [inp]
    ∧ type_ndim (type_of Demo.heap_chain inp) = Some n
    ∧ type_ndim (type_of Demo.heap_chain output) = Some n.
Proof.
  apply (local_useless_reshape_returns_its_input (H := Demo.W)
           (H0 := Samples.more) 1 Demo.fgraph_plain 0
           (Demo.state_of Demo.heap_chain Demo.no_feature)
           (Demo.state_of Demo.heap_chain Demo.no_feature) [1]).
  reflexivity.
Defined.

Lemma local_useless_reshape_cases_witness :
  local_useless_reshape (H := Demo.W) (H0 := Samples.more) 1
    Demo.fgraph_plain 0 (Demo.state_of Demo.heap_chain Demo.no_feature)
  = (Ok (Replace [1]), Demo.state_of Demo.heap_chain Demo.no_feature)
  ∧ local_useless_reshape (H := Demo.W) (H0 := Samples.more) 1
      Demo.fgraph_plain 1 (Demo.state_of Samples.heap_own_shape Demo.no_feature)
    = (Ok (Replace [1]), Demo.state_of Samples.heap_own_shape Demo.no_feature)
  ∧ local_useless_reshape (H := Demo.W) (H0 := Samples.more) 1
      Demo.fgraph_plain 1 (Demo.state_of Demo.heap_chain_rank Demo.no_feature)
    = (Ok Decline, Demo.state_of Demo.heap_chain_rank Demo.no_feature).
Proof.
  split; [|split].
  - destruct (local_useless_reshape_cases (H := Demo.W) (H0 := Samples.more)
                1 Demo.fgraph_plain 0
                (Demo.state_of Demo.heap_chain Demo.no_feature)
                1 3 2 [] "float64" "float64" [None] [None]
                eq_refl eq_refl eq_refl eq_refl) as (_ & H2 & _).
    apply (H2 None None); [reflexivity|reflexivity|left; reflexivity].
  - destruct (local_useless_reshape_cases (H := Demo.W) (H0 := Samples.more)
                1 Demo.fgraph_plain 1
                (Demo.state_of Samples.heap_own_shape Demo.no_feature)
                1 3 2 [] "float64" "float64" [None; None] [None; None]
                eq_refl eq_refl eq_refl eq_refl) as (_ & _ & H3 & _).
    apply (H3 0 []); reflexivity.
  - destruct (local_useless_reshape_cases (H := Demo.W) (H0 := Samples.more)
                1 Demo.fgraph_plain 1
                (Demo.state_of Demo.heap_chain_rank Demo.no_feature)
                3 5 4 [] "float64" "float64" [None] [None; None]
                eq_refl eq_refl eq_refl eq_refl) as (H1 & _).
    apply H1. simpl. lia.
Defined.

Lemma enum_str_holds_an_option_witness :
  Config.__set__ Samples.on_shape_error_param "ignore"
  = (Config.Fail Config.ValueError, Samples.on_shape_error_param)
  ∧ Config.val Samples.on_shape_error_read = Some "raise"
  ∧ Config.val (Config.__get__ Samples.on_shape_error_param
                  Samples.parser_without_flag true).2.1 = Some "warn".
Proof.
  destruct (enum_str_holds_an_option Samples.on_shape_error_param "warn"
              ["raise"]) as (_ & _ & H3 & _ & H5).
  - split; reflexivity.
  - intros v Hv. discriminate Hv.
  - split; [|split].
    + apply H3.
      * apply (bool_decide_unpack _). vm_compute. exact I.
      * left. reflexivity.
    + destruct (H5 Samples.parser_with_flag true (Config.Return "raise")
                  Samples.on_shape_error_read
                  (Config.pop_flag "on_shape_error" Samples.parser_with_flag)
                  eq_refl) as (_ & _ & Hv).
      destruct (Hv "raise" eq_refl) as [Hval _]. exact Hval.
    + destruct (H5 Samples.parser_without_flag true (Config.Return "warn")
                  (Config.__get__ Samples.on_shape_error_param
                     Samples.parser_without_flag true).2.1
                  Samples.parser_without_flag eq_refl) as (_ & _ & Hv).
      destruct (Hv "warn" eq_refl) as [Hval _]. exact Hval.
Defined.

Lemma get_reads_once_witness :
  Config.__get__ Samples.on_shape_error_read Samples.parser_without_flag false
  = (Config.Return "raise",
     (Samples.on_shape_error_read, Samples.parser_without_flag))
  ∧ Config.is_default Samples.on_shape_error_read = false
  ∧ Config._flags_dict
      (Config.pop_flag "on_shape_error" Samples.parser_with_flag)
    = delete "on_shape_error" (Config._flags_dict Samples.parser_with_flag).
Proof.
  destruct (get_reads_once Samples.on_shape_error_param
              Samples.parser_with_flag true "raise"
              Samples.on_shape_error_read
              (Config.pop_flag "on_shape_error" Samples.parser_with_flag)
              eq_refl) as (_ & H2 & _ & H4 & _).
  split.
  - apply H2.
  - destruct (H4 eq_refl "raise" eq_refl) as (_ & Hd & Hflags).
    split; [exact Hd|exact Hflags].
Defined.
